(** * ofxImageSequence

    A shallow embedding of [src/ofxImageSequence.cpp]: the class that plays a
    folder (or a numbered pattern) of still images like the frames of a movie.

    The C++ object becomes a record, its methods become programs of a small
    state-and-trace monad, the background thread of [ofThread] becomes a
    program counter stored in the record together with an atomic step, and
    the collaborators (file system, image decoder, [sprintf], [float]) are
    made explicit. *)

From Stdlib Require Import ZArith NArith List String Ascii Bool Lia Arith.
From Stdlib Require Import QArith Qround Qabs Lqa Qfield.
From Stdlib Require Import DecimalString DecimalPos DecimalN.
From Stdlib Require Import Floats.SpecFloat.
Import ListNotations.

Local Open Scope string_scope.
Local Open Scope list_scope.
Local Open Scope Z_scope.

(** ** Machine integers *)

(** [int] is 32 bits and [size_t] 64 bits.  Values are kept in [Z]; a
    conversion to the machine type is written out where the source has one. *)
Module MachineInt.

Definition INT_MIN : Z := -2147483648.
Definition INT_MAX : Z := 2147483647.

(** Two's complement wrap-around of a 32 bit [int]. *)
Definition wrap_int (z : Z) : Z := (z + 2147483648) mod 4294967296 - 2147483648.

(** Conversion to the unsigned 64 bit [size_t]. *)
Definition wrap_size_t (z : Z) : Z := z mod 18446744073709551616.

Definition is_int (z : Z) : Prop := INT_MIN <= z <= INT_MAX.

Definition is_intb (z : Z) : bool := (INT_MIN <=? z) && (z <=? INT_MAX).

(** The macro [MIN(x, y)] of ofConstants.h, [((x) < (y) ? (x) : (y))], used
    with an [int] and a [size_t]: the comparison and the result are in
    [size_t], and the result goes back to [int] where it is returned. *)
Definition MIN_int_size_t (x y : Z) : Z :=
  let x' := wrap_size_t x in
  wrap_int (if x' <? y then x' else y).

End MachineInt.
Import MachineInt.

(** ** Text: [operator<<] of an [int] and [sprintf] *)

Module Text.

(** The decimal digits of a natural number, as [operator<<] and [%d] print
    them. *)
Definition digits_of_N (n : N) : string :=
  NilZero.string_of_uint (N.to_uint n).

(** [stream << z] for an [int]. *)
Definition string_of_Z (z : Z) : string :=
  if z <? 0 then ("-" ++ digits_of_N (Z.abs_N z))%string
  else digits_of_N (Z.abs_N z).

Fixpoint repeat_char (c : ascii) (n : nat) : string :=
  match n with
  | O => EmptyString
  | S n' => String c (repeat_char c n')
  end.

(** One [%d] conversion with the flags [-] and [0] and a minimum field
    width.  As in C, [-] (left justify) wins over [0] (pad with zeros). *)
Definition format_d (minus zero : bool) (fieldw : nat) (i : Z) : string :=
  let sign := if i <? 0 then "-" else "" in
  let digits := digits_of_N (Z.abs_N i) in
  let pad := (fieldw - (String.length sign + String.length digits))%nat in
  if minus then (sign ++ digits ++ repeat_char " " pad)%string
  else if zero then (sign ++ repeat_char "0" pad ++ digits)%string
  else (repeat_char " " pad ++ sign ++ digits)%string.

Definition digit_value (c : ascii) : option N :=
  let n := N_of_ascii c in
  if ((48 <=? n) && (n <=? 57))%N then Some (n - 48)%N else None.

(** Where the scanner of the format string stands. *)
Inductive directive :=
| InText
| InFlags (minus zero : bool)
| InWidth (minus zero : bool) (fieldw : N).

(** [sprintf(buf, fmt, i)] with one [int] argument, for the directives the
    formats of this class are made of: ordinary characters, [%%], and [%d]
    with flags [-], [0] and a field width.  [arg] is the argument not yet
    consumed.  Any other directive, an unfinished directive, or a second
    conversion (it would read an argument that was not passed) is [None]. *)
Fixpoint sprintf_scan (fmt : string) (d : directive) (arg : option Z) : option string :=
  match fmt with
  | EmptyString => match d with InText => Some EmptyString | _ => None end
  | String c rest =>
      let convert minus zero fieldw :=
        match arg with
        | Some i => option_map (append (format_d minus zero (N.to_nat fieldw) i))
                               (sprintf_scan rest InText None)
        | None => None
        end in
      match d with
      | InText =>
          if Ascii.eqb c "%" then sprintf_scan rest (InFlags false false) arg
          else option_map (String c) (sprintf_scan rest InText arg)
      | InFlags minus zero =>
          if Ascii.eqb c "%" then
            if minus || zero then None
            else option_map (String "%") (sprintf_scan rest InText arg)
          else if Ascii.eqb c "-" then sprintf_scan rest (InFlags true zero) arg
          else if Ascii.eqb c "0" then sprintf_scan rest (InFlags minus true) arg
          else if Ascii.eqb c "d" then convert minus zero 0%N
          else match digit_value c with
               | Some v => sprintf_scan rest (InWidth minus zero v) arg
               | None => None
               end
      | InWidth minus zero fieldw =>
          if Ascii.eqb c "d" then convert minus zero fieldw
          else match digit_value c with
               | Some v => sprintf_scan rest (InWidth minus zero (10 * fieldw + v)%N) arg
               | None => None
               end
      end
  end.

Definition sprintf (fmt : string) (i : Z) : option string :=
  sprintf_scan fmt InText (Some i).



End Text.
Import Text.

(** ** The arithmetic of [float] *)

(** The operations the class applies to [float] values.  The methods below
    are written once against this interface; it is instantiated with IEEE 754
    binary32, which is what [float] is, and with exact rational arithmetic,
    which is what the formulas compute when no operation rounds. *)
Class FloatOps (F : Type) := {
  of_int : Z -> F;            (* conversion of an [int] or [size_t] value *)
  fadd : F -> F -> F;
  fsub : F -> F -> F;
  fmul : F -> F -> F;
  fdiv : F -> F -> F;
  fltb : F -> F -> bool;      (* [x < y] *)
  ffabs : F -> F;             (* [fabs] *)
  ffloor : F -> F;            (* [floor] *)
  ftrunc : F -> option Z;     (* the mathematical value of [(int) x] before
                                 it is stored; [None] for NaN and infinities *)
  FLT_EPSILON : F
}.

(** [(int) x]: truncation toward zero, undefined when the truncated value does
    not fit an [int]. *)
Definition int_of_float {F} `{FloatOps F} (x : F) : option Z :=
  match ftrunc x with
  | Some z => if is_intb z then Some z else None
  | None => None
  end.

(** *** IEEE 754 binary32 *)

Module Binary32.

Definition prec : Z := 24.
Definition emax : Z := 128.

Definition float32 : Type := spec_float.

Definition of_Z (z : Z) : float32 := binary_normalize prec emax z 0 false.

(** The integer part of a finite value, rounded toward minus infinity
    ([Z.shiftr] rounds that way) or toward zero. *)
Definition floor_Z (s : bool) (m : positive) (e : Z) : Z :=
  Z.shiftl (cond_Zopp s (Zpos m)) e.

Definition trunc_Z (s : bool) (m : positive) (e : Z) : Z :=
  cond_Zopp s (Z.shiftl (Zpos m) e).

Definition floor32 (x : float32) : float32 :=
  match x with
  | S754_finite s m e => binary_normalize prec emax (floor_Z s m e) 0 s
  | _ => x
  end.

Definition trunc32 (x : float32) : option Z :=
  match x with
  | S754_zero _ => Some 0
  | S754_finite s m e => Some (trunc_Z s m e)
  | _ => None
  end.

#[export] Instance float32_ops : FloatOps float32 := {|
  of_int := of_Z;
  fadd := SFadd prec emax;
  fsub := SFsub prec emax;
  fmul := SFmul prec emax;
  fdiv := SFdiv prec emax;
  fltb := SFltb;
  ffabs := SFabs;
  ffloor := floor32;
  ftrunc := trunc32;
  FLT_EPSILON := S754_finite false 8388608 (-46)
|}.

(** A binary32 value given by a fraction, rounded to nearest even. *)
Definition of_ratio (num den : Z) : float32 := SFdiv prec emax (of_Z num) (of_Z den).

End Binary32.

(** *** Exact arithmetic *)

Module Exact.





End Exact.


(** ** Collaborators *)

(** A decoded image.  [img_data] stands for the pixel contents. *)
Record Image := { img_width : Z; img_height : Z; img_data : string }.

(** [ofPixels]: either not allocated (a fresh [ofPixels()]) or holding a
    decoded image. *)
Definition ofPixels : Type := option Image.

Definition isAllocated (px : ofPixels) : bool :=
  match px with Some _ => true | None => false end.

Definition getWidth_px (px : ofPixels) : Z :=
  match px with Some img => img_width img | None => 0 end.

Definition getHeight_px (px : ofPixels) : Z :=
  match px with Some img => img_height img | None => 0 end.

(** [ofTexture]: the pixels last uploaded and the two filters. *)
Record ofTexture := {
  tex_pixels : ofPixels;
  tex_minFilter : Z;
  tex_magFilter : Z
}.

Definition GL_LINEAR : Z := 9729.

Definition fresh_texture : ofTexture :=
  {| tex_pixels := None; tex_minFilter := GL_LINEAR; tex_magFilter := GL_LINEAR |}.

(** What the class asks of the outside: the file system behind [ofFile] and
    [ofDirectory], the build target, and the decoder behind the global
    function [ofLoadImage], which answers [None] for a file that is missing,
    corrupt or of an unknown format and then leaves its [ofPixels] argument
    as it was.  [dir.sort()] reorders the paths listed and keeps their
    number. *)
Record World := {
  file_exists : string -> bool;
  dir_listDir : string -> string -> list string;
    (* allowed extension (empty: any) and folder, to the paths found *)
  dir_sort : list string -> list string;
  dir_sort_length : forall l, List.length (dir_sort l) = List.length l;
  TARGET_LINUX : bool;
  ofLoadImage : string -> option Image
}.

(** What a run leaves outside the object. *)
Inductive event :=
| ofLogError (module message : string)
| texture_loadData (px : Image).

Definition is_upload (e : event) : bool :=
  match e with texture_loadData _ => true | ofLogError _ _ => false end.

Definition is_error (e : event) : bool :=
  match e with ofLogError _ _ => true | texture_loadData _ => false end.

(** The number of texture uploads of a trace. *)
Definition uploads (out : list event) : nat := List.length (filter is_upload out).

(** Behaviour the language leaves undefined, or that the model does not
    follow any further. *)
Inductive fault :=
| VectorOutOfRange       (* [v[i]] with [i >= v.size()] *)
| DivideByZero           (* [%] with a zero divisor *)
| LoopNeverExits         (* a loop whose counter wraps around *)
| FormatOutsideModel     (* a [sprintf] directive outside [sprintf_scan] *)
| BufferOverrun          (* more than the 1024 bytes of [imagename] *)
| FloatToIntUndefined.   (* [(int) x] for a value no [int] holds *)

Inductive result (S A : Type) :=
| Done (a : A) (s : S) (out : list event)
| Fault (f : fault).
Arguments Done {S A} a s out.
Arguments Fault {S A} f.

(** Where the background thread stands.  Between two of these points it runs
    without being observed. *)
Inductive thread_pc :=
| NotRunning
| AtEntry                 (* [startThread] returned, [threadedFunction] not entered *)
| AtPreloadFilenames      (* before line 190 *)
| AtCancelCheck           (* before line 195 *)
| AtLoopHead (i : nat).   (* in [preloadAllFrames], before the test of line 261 *)

(** ** The object *)

Section Methods.

Context {F : Type} `{FloatOps F}.

(** The members of the class, and two fields for what it inherits from
    [ofThread] and registers with [ofEvents()].  [width] and [height] hold
    the pixel counts [getWidth()] and [getHeight()] of an [ofPixels]. *)
Record ofxImageSequence := {
  loaded : bool;
  loading : bool;
  useThread : bool;
  cancelLoading : bool;
  frameRate : F;
  lastFrameLoaded : Z;
  currentFrame : Z;
  maxFrames : Z;
  width : Z;
  height : Z;
  filenames : list string;
  sequence : list ofPixels;
  folderToLoad : string;
  extension : string;
  texture : ofTexture;
  minFilter : Z;
  magFilter : Z;
  thread : thread_pc;
  listening : bool
}.

Abbreviation state := ofxImageSequence.

Definition set_loaded (v : bool) (s : state) : state :=
  {| loaded := v; loading := loading s; useThread := useThread s;
     cancelLoading := cancelLoading s; frameRate := frameRate s;
     lastFrameLoaded := lastFrameLoaded s; currentFrame := currentFrame s;
     maxFrames := maxFrames s; width := width s; height := height s;
     filenames := filenames s; sequence := sequence s;
     folderToLoad := folderToLoad s; extension := extension s;
     texture := texture s; minFilter := minFilter s;
     magFilter := magFilter s; thread := thread s;
     listening := listening s |}.

Definition set_loading (v : bool) (s : state) : state :=
  {| loaded := loaded s; loading := v; useThread := useThread s;
     cancelLoading := cancelLoading s; frameRate := frameRate s;
     lastFrameLoaded := lastFrameLoaded s; currentFrame := currentFrame s;
     maxFrames := maxFrames s; width := width s; height := height s;
     filenames := filenames s; sequence := sequence s;
     folderToLoad := folderToLoad s; extension := extension s;
     texture := texture s; minFilter := minFilter s;
     magFilter := magFilter s; thread := thread s;
     listening := listening s |}.

Definition set_useThread (v : bool) (s : state) : state :=
  {| loaded := loaded s; loading := loading s; useThread := v;
     cancelLoading := cancelLoading s; frameRate := frameRate s;
     lastFrameLoaded := lastFrameLoaded s; currentFrame := currentFrame s;
     maxFrames := maxFrames s; width := width s; height := height s;
     filenames := filenames s; sequence := sequence s;
     folderToLoad := folderToLoad s; extension := extension s;
     texture := texture s; minFilter := minFilter s;
     magFilter := magFilter s; thread := thread s;
     listening := listening s |}.

Definition set_cancelLoading (v : bool) (s : state) : state :=
  {| loaded := loaded s; loading := loading s; useThread := useThread s;
     cancelLoading := v; frameRate := frameRate s;
     lastFrameLoaded := lastFrameLoaded s; currentFrame := currentFrame s;
     maxFrames := maxFrames s; width := width s; height := height s;
     filenames := filenames s; sequence := sequence s;
     folderToLoad := folderToLoad s; extension := extension s;
     texture := texture s; minFilter := minFilter s;
     magFilter := magFilter s; thread := thread s;
     listening := listening s |}.

Definition set_frameRate (v : F) (s : state) : state :=
  {| loaded := loaded s; loading := loading s; useThread := useThread s;
     cancelLoading := cancelLoading s; frameRate := v;
     lastFrameLoaded := lastFrameLoaded s; currentFrame := currentFrame s;
     maxFrames := maxFrames s; width := width s; height := height s;
     filenames := filenames s; sequence := sequence s;
     folderToLoad := folderToLoad s; extension := extension s;
     texture := texture s; minFilter := minFilter s;
     magFilter := magFilter s; thread := thread s;
     listening := listening s |}.

Definition set_lastFrameLoaded (v : Z) (s : state) : state :=
  {| loaded := loaded s; loading := loading s; useThread := useThread s;
     cancelLoading := cancelLoading s; frameRate := frameRate s;
     lastFrameLoaded := v; currentFrame := currentFrame s;
     maxFrames := maxFrames s; width := width s; height := height s;
     filenames := filenames s; sequence := sequence s;
     folderToLoad := folderToLoad s; extension := extension s;
     texture := texture s; minFilter := minFilter s;
     magFilter := magFilter s; thread := thread s;
     listening := listening s |}.

Definition set_currentFrame (v : Z) (s : state) : state :=
  {| loaded := loaded s; loading := loading s; useThread := useThread s;
     cancelLoading := cancelLoading s; frameRate := frameRate s;
     lastFrameLoaded := lastFrameLoaded s; currentFrame := v;
     maxFrames := maxFrames s; width := width s; height := height s;
     filenames := filenames s; sequence := sequence s;
     folderToLoad := folderToLoad s; extension := extension s;
     texture := texture s; minFilter := minFilter s;
     magFilter := magFilter s; thread := thread s;
     listening := listening s |}.

Definition set_maxFrames (v : Z) (s : state) : state :=
  {| loaded := loaded s; loading := loading s; useThread := useThread s;
     cancelLoading := cancelLoading s; frameRate := frameRate s;
     lastFrameLoaded := lastFrameLoaded s; currentFrame := currentFrame s;
     maxFrames := v; width := width s; height := height s;
     filenames := filenames s; sequence := sequence s;
     folderToLoad := folderToLoad s; extension := extension s;
     texture := texture s; minFilter := minFilter s;
     magFilter := magFilter s; thread := thread s;
     listening := listening s |}.

Definition set_width (v : Z) (s : state) : state :=
  {| loaded := loaded s; loading := loading s; useThread := useThread s;
     cancelLoading := cancelLoading s; frameRate := frameRate s;
     lastFrameLoaded := lastFrameLoaded s; currentFrame := currentFrame s;
     maxFrames := maxFrames s; width := v; height := height s;
     filenames := filenames s; sequence := sequence s;
     folderToLoad := folderToLoad s; extension := extension s;
     texture := texture s; minFilter := minFilter s;
     magFilter := magFilter s; thread := thread s;
     listening := listening s |}.

Definition set_height (v : Z) (s : state) : state :=
  {| loaded := loaded s; loading := loading s; useThread := useThread s;
     cancelLoading := cancelLoading s; frameRate := frameRate s;
     lastFrameLoaded := lastFrameLoaded s; currentFrame := currentFrame s;
     maxFrames := maxFrames s; width := width s; height := v;
     filenames := filenames s; sequence := sequence s;
     folderToLoad := folderToLoad s; extension := extension s;
     texture := texture s; minFilter := minFilter s;
     magFilter := magFilter s; thread := thread s;
     listening := listening s |}.

Definition set_filenames (v : list string) (s : state) : state :=
  {| loaded := loaded s; loading := loading s; useThread := useThread s;
     cancelLoading := cancelLoading s; frameRate := frameRate s;
     lastFrameLoaded := lastFrameLoaded s; currentFrame := currentFrame s;
     maxFrames := maxFrames s; width := width s; height := height s;
     filenames := v; sequence := sequence s; folderToLoad := folderToLoad s;
     extension := extension s; texture := texture s;
     minFilter := minFilter s; magFilter := magFilter s; thread := thread s;
     listening := listening s |}.

Definition set_sequence (v : list ofPixels) (s : state) : state :=
  {| loaded := loaded s; loading := loading s; useThread := useThread s;
     cancelLoading := cancelLoading s; frameRate := frameRate s;
     lastFrameLoaded := lastFrameLoaded s; currentFrame := currentFrame s;
     maxFrames := maxFrames s; width := width s; height := height s;
     filenames := filenames s; sequence := v; folderToLoad := folderToLoad s;
     extension := extension s; texture := texture s;
     minFilter := minFilter s; magFilter := magFilter s; thread := thread s;
     listening := listening s |}.

Definition set_folderToLoad (v : string) (s : state) : state :=
  {| loaded := loaded s; loading := loading s; useThread := useThread s;
     cancelLoading := cancelLoading s; frameRate := frameRate s;
     lastFrameLoaded := lastFrameLoaded s; currentFrame := currentFrame s;
     maxFrames := maxFrames s; width := width s; height := height s;
     filenames := filenames s; sequence := sequence s; folderToLoad := v;
     extension := extension s; texture := texture s;
     minFilter := minFilter s; magFilter := magFilter s; thread := thread s;
     listening := listening s |}.

Definition set_extension (v : string) (s : state) : state :=
  {| loaded := loaded s; loading := loading s; useThread := useThread s;
     cancelLoading := cancelLoading s; frameRate := frameRate s;
     lastFrameLoaded := lastFrameLoaded s; currentFrame := currentFrame s;
     maxFrames := maxFrames s; width := width s; height := height s;
     filenames := filenames s; sequence := sequence s;
     folderToLoad := folderToLoad s; extension := v; texture := texture s;
     minFilter := minFilter s; magFilter := magFilter s; thread := thread s;
     listening := listening s |}.

Definition set_texture (v : ofTexture) (s : state) : state :=
  {| loaded := loaded s; loading := loading s; useThread := useThread s;
     cancelLoading := cancelLoading s; frameRate := frameRate s;
     lastFrameLoaded := lastFrameLoaded s; currentFrame := currentFrame s;
     maxFrames := maxFrames s; width := width s; height := height s;
     filenames := filenames s; sequence := sequence s;
     folderToLoad := folderToLoad s; extension := extension s; texture := v;
     minFilter := minFilter s; magFilter := magFilter s; thread := thread s;
     listening := listening s |}.

Definition set_minFilter (v : Z) (s : state) : state :=
  {| loaded := loaded s; loading := loading s; useThread := useThread s;
     cancelLoading := cancelLoading s; frameRate := frameRate s;
     lastFrameLoaded := lastFrameLoaded s; currentFrame := currentFrame s;
     maxFrames := maxFrames s; width := width s; height := height s;
     filenames := filenames s; sequence := sequence s;
     folderToLoad := folderToLoad s; extension := extension s;
     texture := texture s; minFilter := v; magFilter := magFilter s;
     thread := thread s; listening := listening s |}.

Definition set_magFilter (v : Z) (s : state) : state :=
  {| loaded := loaded s; loading := loading s; useThread := useThread s;
     cancelLoading := cancelLoading s; frameRate := frameRate s;
     lastFrameLoaded := lastFrameLoaded s; currentFrame := currentFrame s;
     maxFrames := maxFrames s; width := width s; height := height s;
     filenames := filenames s; sequence := sequence s;
     folderToLoad := folderToLoad s; extension := extension s;
     texture := texture s; minFilter := minFilter s; magFilter := v;
     thread := thread s; listening := listening s |}.

Definition set_thread (v : thread_pc) (s : state) : state :=
  {| loaded := loaded s; loading := loading s; useThread := useThread s;
     cancelLoading := cancelLoading s; frameRate := frameRate s;
     lastFrameLoaded := lastFrameLoaded s; currentFrame := currentFrame s;
     maxFrames := maxFrames s; width := width s; height := height s;
     filenames := filenames s; sequence := sequence s;
     folderToLoad := folderToLoad s; extension := extension s;
     texture := texture s; minFilter := minFilter s;
     magFilter := magFilter s; thread := v; listening := listening s |}.

Definition set_listening (v : bool) (s : state) : state :=
  {| loaded := loaded s; loading := loading s; useThread := useThread s;
     cancelLoading := cancelLoading s; frameRate := frameRate s;
     lastFrameLoaded := lastFrameLoaded s; currentFrame := currentFrame s;
     maxFrames := maxFrames s; width := width s; height := height s;
     filenames := filenames s; sequence := sequence s;
     folderToLoad := folderToLoad s; extension := extension s;
     texture := texture s; minFilter := minFilter s;
     magFilter := magFilter s; thread := thread s; listening := v |}.

(** The object as the constructor leaves it.  [width], [height], [minFilter]
    and [magFilter] are not initialised there: they start with whatever the
    memory holds. *)
Definition construct (width0 height0 minFilter0 magFilter0 : Z) : state :=
  {| loaded := false; loading := false; useThread := false;
     cancelLoading := false; frameRate := of_int 30;
     lastFrameLoaded := -1; currentFrame := 0; maxFrames := 0;
     width := width0; height := height0; filenames := []; sequence := [];
     folderToLoad := ""; extension := ""; texture := fresh_texture;
     minFilter := minFilter0; magFilter := magFilter0;
     thread := NotRunning; listening := false |}.

(** ** Programs over the object *)

(** A method reads and writes the object, leaves a trace, and either returns
    or runs into a [fault]. *)
Definition M (A : Type) : Type := state -> result state A.

Definition ret {A} (a : A) : M A := fun s => Done a s [].

Definition bind {A B} (m : M A) (k : A -> M B) : M B :=
  fun s =>
    match m s with
    | Done a s' out =>
        match k a s' with
        | Done b s'' out' => Done b s'' (out ++ out')
        | Fault f => Fault f
        end
    | Fault f => Fault f
    end.

Definition gets {A} (f : state -> A) : M A := fun s => Done (f s) s [].
Definition modify (f : state -> state) : M unit := fun s => Done tt (f s) [].
Definition emit (e : event) : M unit := fun s => Done tt s [e].
Definition raise {A} (f : fault) : M A := fun _ => Fault f.

Notation "x <- m ;; k" := (bind m (fun x => k))
  (at level 61, m at next level, right associativity).
Notation "m ;; k" := (bind m (fun _ => k))
  (at level 61, right associativity).

(** [v[i]] of a [std::vector]. *)
Definition vector_at {A} (v : state -> list A) (i : nat) : M A :=
  fun s =>
    match nth_error (v s) i with
    | Some a => Done a s []
    | None => Fault VectorOutOfRange
    end.

Fixpoint vector_set {A} (v : list A) (i : nat) (a : A) : list A :=
  match v, i with
  | [], _ => []
  | _ :: v', O => a :: v'
  | x :: v', S i' => x :: vector_set v' i' a
  end.

Definition push_back {A} (a : A) (v : list A) : list A := v ++ [a].

Definition size : M Z := gets (fun s => Z.of_nat (List.length (sequence s))).

Variable W : World.

(** [ofLoadImage(sequence[i], filenames[i])]. *)
Definition ofLoadImage_at (i : nat) : M bool :=
  _ <- vector_at sequence i ;;
  name <- vector_at filenames i ;;
  match ofLoadImage W name with
  | Some img =>
      modify (fun s => set_sequence (vector_set (sequence s) i (Some img)) s) ;;
      ret true
  | None => ret false
  end.

(** [texture.loadData(px)]. *)
Definition texture_upload (img : Image) : M unit :=
  modify (fun s =>
    set_texture {| tex_pixels := Some img;
                   tex_minFilter := tex_minFilter (texture s);
                   tex_magFilter := tex_magFilter (texture s) |} s) ;;
  emit (texture_loadData img).

(** [loadFrame], lines 276-300.  In the bounds test [imageIndex] is not
    negative when it is compared with the unsigned [sequence.size()]. *)
Definition loadFrame (imageIndex : Z) : M unit :=
  last <- gets lastFrameLoaded ;;
  if last =? imageIndex then ret tt
  else
    n <- size ;;
    if (imageIndex <? 0) || (n <=? imageIndex) then
      emit (ofLogError "ofxImageSequence::loadFrame"
              ("Calling a frame out of bounds: " ++ string_of_Z imageIndex))
    else
      let i := Z.to_nat imageIndex in
      px <- vector_at sequence i ;;
      (if isAllocated px then ret false else ofLoadImage_at i) ;;
      px <- vector_at sequence i ;;
      match px with
      | None =>
          name <- vector_at filenames i ;;
          emit (ofLogError "ofxImageSequence::loadFrame"
                  ("Pixels not allocated: " ++ name))
      | Some img =>
          texture_upload img ;;
          modify (set_lastFrameLoaded imageIndex)
      end.

(** [preloadAllFilenames], lines 145-180.  [dir.listDir] returns an [int]. *)
Fixpoint push_paths (files : list string) (count i : nat) : M unit :=
  match count with
  | O => ret tt
  | S count' =>
      match nth_error files i with
      | Some path =>
          modify (fun s => set_filenames (push_back path (filenames s)) s) ;;
          modify (fun s => set_sequence (push_back None (sequence s)) s) ;;
          push_paths files count' (S i)
      | None => raise VectorOutOfRange
      end
  end.

Definition preloadAllFilenames : M bool :=
  ext <- gets extension ;;
  folder <- gets folderToLoad ;;
  if negb (file_exists W folder) then
    emit (ofLogError "ofxImageSequence::loadSequence"
            ("Could not find folder " ++ folder)) ;;
    ret false
  else
    most <- gets maxFrames ;;
    let listing := dir_listDir W ext folder in
    let listed := wrap_int (Z.of_nat (List.length listing)) in
    let numFiles := if 0 <? most then Z.min listed most else listed in
    if numFiles =? 0 then
      emit (ofLogError "ofxImageSequence::loadSequence"
              ("No image files found in " ++ folder)) ;;
      ret false
    else
      let files := if TARGET_LINUX W then dir_sort W listing else listing in
      push_paths files (Z.to_nat numFiles) 0 ;;
      ret true.

(** One turn of the loop of [preloadAllFrames], lines 261-273, from the test
    of the loop on: [true] when the loop goes on with [i + 1], [false] when
    it is left, by its condition or by the [return] of line 266.
    [ofSleepMillis] has no effect on the object. *)
Definition preloadAllFrames_turn (i : nat) : M bool :=
  n <- size ;;
  if Z.of_nat i <? n then
    threaded <- gets useThread ;;
    cancel <- gets cancelLoading ;;
    if threaded && cancel then ret false
    else
      ok <- ofLoadImage_at i ;;
      (if ok then ret tt
       else
         name <- vector_at filenames i ;;
         emit (ofLogError "ofxImageSequence::loadFrame"
                 ("Image failed to load: " ++ name))) ;;
      ret true
  else ret false.

Fixpoint preloadAllFrames_loop (turns i : nat) : M unit :=
  match turns with
  | O => ret tt
  | S turns' =>
      again <- preloadAllFrames_turn i ;;
      if again then preloadAllFrames_loop turns' (S i) else ret tt
  end.

(** [preloadAllFrames], lines 254-274.  The loop is left after at most
    [sequence.size() + 1] tests. *)
Definition preloadAllFrames : M unit :=
  n <- size ;;
  if n =? 0 then
    emit (ofLogError "ofxImageSequence::loadFrame"
            "Calling preloadAllFrames on unitialized image sequence.")
  else
    len <- gets (fun s => List.length (sequence s)) ;;
    preloadAllFrames_loop (S len) 0.

(** One atomic step of [threadedFunction], lines 182-204. *)
Definition thread_step : M unit :=
  pc <- gets thread ;;
  match pc with
  | NotRunning => ret tt
  | AtEntry =>
      modify (set_loading true) ;;
      modify (set_cancelLoading false) ;;
      modify (set_listening true) ;;
      modify (set_thread AtPreloadFilenames)
  | AtPreloadFilenames =>
      ok <- preloadAllFilenames ;;
      if ok then modify (set_thread AtCancelCheck)
      else modify (set_loading false) ;; modify (set_thread NotRunning)
  | AtCancelCheck =>
      cancel <- gets cancelLoading ;;
      if cancel then
        modify (set_loading false) ;;
        modify (set_cancelLoading false) ;;
        modify (set_thread NotRunning)
      else
        n <- size ;;
        if n =? 0 then
          emit (ofLogError "ofxImageSequence::loadFrame"
                  "Calling preloadAllFrames on unitialized image sequence.") ;;
          modify (set_loading false) ;;
          modify (set_thread NotRunning)
        else modify (set_thread (AtLoopHead 0))
  | AtLoopHead i =>
      again <- preloadAllFrames_turn i ;;
      if again then modify (set_thread (AtLoopHead (S i)))
      else modify (set_loading false) ;; modify (set_thread NotRunning)
  end.

(** [waitForThread(true)]: the caller is blocked while the thread runs to its
    end.  [threadedFunction] does not look at the stop request.  The thread
    needs at most three steps to reach the loop and one step for each test of
    the loop. *)
Fixpoint run_thread (steps : nat) : M unit :=
  match steps with
  | O => ret tt
  | S steps' =>
      pc <- gets thread ;;
      match pc with
      | NotRunning => ret tt
      | _ => thread_step ;; run_thread steps'
      end
  end.

Definition thread_budget (s : state) : nat :=
  (4 + List.length (sequence s)
     + List.length (dir_listDir W (extension s) (folderToLoad s)))%nat.

Definition waitForThread : M unit :=
  steps <- gets thread_budget ;;
  run_thread steps.

(** [startThread(true)]: a thread that is already running is not started
    again. *)
Definition startThread : M unit :=
  pc <- gets thread ;;
  match pc with
  | NotRunning => modify (set_thread AtEntry)
  | _ => ret tt
  end.

(** [unloadSequence], lines 317-329. *)
Definition unloadSequence : M unit :=
  waitForThread ;;
  modify (set_sequence []) ;;
  modify (set_filenames []) ;;
  modify (set_loaded false) ;;
  modify (set_width 0) ;;
  modify (set_height 0).

(** The common end of both ways to load, lines 98-104 and 136-141. *)
Definition show_first_frame : M unit :=
  modify (set_loaded true) ;;
  modify (set_lastFrameLoaded (-1)) ;;
  loadFrame 0 ;;
  px <- vector_at sequence 0 ;;
  modify (set_width (getWidth_px px)) ;;
  px <- vector_at sequence 0 ;;
  modify (set_height (getHeight_px px)).

(** [completeLoading], lines 128-143. *)
Definition completeLoading : M unit :=
  n <- size ;;
  if n =? 0 then
    emit (ofLogError "ofxImageSequence::completeLoading"
            "load failed with empty image sequence")
  else show_first_frame.

(** The loop of lines 92-96.  [turns] bounds the number of turns by the
    number of values from [startDigit] to [endDigit]; the loop takes more
    only when [i++] wraps around, and then it takes them for ever. *)
Fixpoint pattern_loop (format : string) (endDigit : Z) (turns : nat) (i : Z)
  : M unit :=
  if endDigit <? i then ret tt
  else
    match turns with
    | O => raise LoopNeverExits
    | S turns' =>
        match sprintf format i with
        | None => raise FormatOutsideModel
        | Some imagename =>
            if (1024 <=? String.length imagename)%nat then raise BufferOverrun
            else
              modify (fun s => set_filenames (push_back imagename (filenames s)) s) ;;
              modify (fun s => set_sequence (push_back None (sequence s)) s) ;;
              pattern_loop format endDigit turns' (wrap_int (i + 1))
        end
    end.

Definition pattern_format (prefix filetype : string) (numDigits : Z) : string :=
  if negb (numDigits =? 0) then
    (prefix ++ "%0" ++ string_of_Z numDigits ++ "d." ++ filetype)%string
  else (prefix ++ "%d." ++ filetype)%string.

(** [loadSequence(prefix, filetype, startDigit, endDigit, numDigits)],
    lines 74-106. *)
Definition loadSequence (prefix filetype : string)
    (startDigit endDigit numDigits : Z) : M bool :=
  unloadSequence ;;
  let numFiles := wrap_int (wrap_int (endDigit - startDigit) + 1) in
  if numFiles <=? 0 then
    emit (ofLogError "ofxImageSequence::loadSequence" "No image files found.") ;;
    ret false
  else
    pattern_loop (pattern_format prefix filetype numDigits) endDigit
                 (Z.to_nat (endDigit - startDigit + 1)) startDigit ;;
    show_first_frame ;;
    ret true.

(** [loadSequence(prefix, filetype, startDigit, endDigit)], lines 69-72. *)
Definition loadSequence_4 (prefix filetype : string) (startDigit endDigit : Z)
  : M bool :=
  loadSequence prefix filetype startDigit endDigit 0.

(** [loadSequence(_folder)], lines 108-126. *)
Definition loadSequence_folder (_folder : string) : M bool :=
  unloadSequence ;;
  modify (set_folderToLoad _folder) ;;
  threaded <- gets useThread ;;
  if threaded then startThread ;; ret true
  else
    ok <- preloadAllFilenames ;;
    if ok then completeLoading ;; ret true else ret false.

(** [updateThreadedLoad], lines 206-216. *)
Definition updateThreadedLoad : M unit :=
  busy <- gets loading ;;
  if busy then ret tt
  else
    modify (set_listening false) ;;
    n <- size ;;
    if 0 <? n then completeLoading else ret tt.

(** [ofEvents().update] is notified: the listeners registered are called. *)
Definition notify_update : M unit :=
  on <- gets listening ;;
  if on then updateThreadedLoad else ret tt.

(** [setMaxFrames], lines 219-225. *)
Definition setMaxFrames (newMaxFrames : Z) : M unit :=
  modify (set_maxFrames (Z.max newMaxFrames 0)) ;;
  busy <- gets loaded ;;
  if busy then
    emit (ofLogError "ofxImageSequence::setMaxFrames"
            "Max frames must be called before load")
  else ret tt.

Definition setExtension (ext : string) : M unit := modify (set_extension ext).

(** [enableThreadedLoad], lines 232-238. *)
Definition enableThreadedLoad (enable : bool) : M unit :=
  busy <- gets loaded ;;
  (if busy then
     emit (ofLogError "ofxImageSequence::enableThreadedLoad"
             "Need to enable threaded loading before calling load")
   else ret tt) ;;
  modify (set_useThread enable).

(** [cancelLoad], lines 240-245. *)
Definition cancelLoad : M unit :=
  threaded <- gets useThread ;;
  busy <- gets loading ;;
  if threaded && busy then modify (set_cancelLoading true) else ret tt.

(** [setMinMagFilter], lines 247-252. *)
Definition setMinMagFilter (newMinFilter newMagFilter : Z) : M unit :=
  modify (set_minFilter newMinFilter) ;;
  modify (set_magFilter newMagFilter) ;;
  modify (fun s =>
    set_texture {| tex_pixels := tex_pixels (texture s);
                   tex_minFilter := minFilter s;
                   tex_magFilter := magFilter s |} s).

Definition setFrameRate (rate : F) : M unit := modify (set_frameRate rate).

(** [getTotalFrames], lines 432-435: [sequence.size()] returned as [int]. *)
Definition getTotalFrames : M Z :=
  n <- size ;;
  ret (wrap_int n).

Definition isLoading : M bool := gets loading.
Definition getWidth : M Z := gets width.
Definition getHeight : M Z := gets height.
Definition getTexture : M ofTexture := gets texture.


(** [getFrameIndexAtPercent], lines 336-341. *)
Definition getFrameIndexAtPercent (percent : F) : M Z :=
  let percent :=
    if fltb percent (of_int 0) || fltb (of_int 1) percent
    then fsub percent (ffloor percent)
    else percent in
  n <- size ;;
  match int_of_float (fmul percent (of_int n)) with
  | Some x => ret (MIN_int_size_t x (wrap_size_t (n - 1)))
  | None => raise FloatToIntUndefined
  end.

(** [setFrame], lines 387-403.  [index] is not negative at the [%], so the
    remainder of C++ is [Z.rem]. *)
Definition setFrame (index : Z) : M unit :=
  ready <- gets loaded ;;
  if negb ready then
    emit (ofLogError "ofxImageSequence::setFrame"
            "Calling getFrame on unitialized image sequence.")
  else if index <? 0 then
    emit (ofLogError "ofxImageSequence::setFrame" "Asking for negative index.")
  else
    total <- getTotalFrames ;;
    if total =? 0 then raise DivideByZero
    else
      let index := Z.rem index total in
      loadFrame index ;;
      modify (set_currentFrame index).

(** [setFrameAtPercent], lines 412-415. *)
Definition setFrameAtPercent (percent : F) : M unit :=
  index <- getFrameIndexAtPercent percent ;;
  setFrame index.

(** [setFrameForTime], lines 405-410. *)
Definition setFrameForTime (time : F) : M unit :=
  n <- size ;;
  rate <- gets frameRate ;;
  let totalTime := fdiv (of_int n) rate in
  let percent := fdiv time totalTime in
  setFrameAtPercent percent.

(** [getLengthInSeconds], lines 427-430. *)
Definition getLengthInSeconds : M F :=
  total <- getTotalFrames ;;
  rate <- gets frameRate ;;
  ret (fdiv (of_int total) rate).

(** [getTextureForFrame], [getTextureForTime] and [getTextureForPercent],
    lines 370-385; the deprecated [getFrame], [getFrameForTime] and
    [getFrameAtPercent] do the same. *)
Definition getTextureForFrame (index : Z) : M ofTexture :=
  setFrame index ;; getTexture.

Definition getTextureForTime (time : F) : M ofTexture :=
  setFrameForTime time ;; getTexture.

Definition getTextureForPercent (percent : F) : M ofTexture :=
  setFrameAtPercent percent ;; getTexture.

(** ** Histories *)

(** What can happen to an object: a call of a public method by its owner, a
    notification of [ofEvents().update], or a step of the background
    thread. *)
Inductive call :=
| LoadSequence (prefix filetype : string) (startDigit endDigit numDigits : Z)
| LoadSequence4 (prefix filetype : string) (startDigit endDigit : Z)
| LoadSequenceFolder (folder : string)
| UnloadSequence
| SetMaxFrames (newMaxFrames : Z)
| SetExtension (ext : string)
| EnableThreadedLoad (enable : bool)
| CancelLoad
| SetMinMagFilter (newMinFilter newMagFilter : Z)
| SetFrameRate (rate : F)
| PreloadAllFrames
| LoadFrame (imageIndex : Z)
| SetFrame (index : Z)
| SetFrameForTime (time : F)
| SetFrameAtPercent (percent : F)
| Update
| ThreadStep.

Definition discard {A} (m : M A) : M unit := _ <- m ;; ret tt.

Definition run_call (c : call) : M unit :=
  match c with
  | LoadSequence p t a b d => discard (loadSequence p t a b d)
  | LoadSequence4 p t a b => discard (loadSequence_4 p t a b)
  | LoadSequenceFolder f => discard (loadSequence_folder f)
  | UnloadSequence => unloadSequence
  | SetMaxFrames n => setMaxFrames n
  | SetExtension e => setExtension e
  | EnableThreadedLoad b => enableThreadedLoad b
  | CancelLoad => cancelLoad
  | SetMinMagFilter a b => setMinMagFilter a b
  | SetFrameRate r => setFrameRate r
  | PreloadAllFrames => preloadAllFrames
  | LoadFrame i => loadFrame i
  | SetFrame i => setFrame i
  | SetFrameForTime t => setFrameForTime t
  | SetFrameAtPercent p => setFrameAtPercent p
  | Update => notify_update
  | ThreadStep => thread_step
  end.

(** The arguments declared [int] hold [int] values. *)
Definition well_typed (c : call) : Prop :=
  match c with
  | LoadSequence _ _ a b d => is_int a /\ is_int b /\ is_int d
  | LoadSequence4 _ _ a b => is_int a /\ is_int b
  | SetMaxFrames n => is_int n
  | SetMinMagFilter a b => is_int a /\ is_int b
  | LoadFrame i => is_int i
  | SetFrame i => is_int i
  | _ => True
  end.

(** A sequence of calls, run from a given state; the traces are joined. *)
Fixpoint run_calls (cs : list call) : M unit :=
  match cs with
  | [] => ret tt
  | c :: cs' => run_call c ;; run_calls cs'
  end.

(** The states an object can be in: those a history of well typed calls that
    return leads to, from a freshly constructed object. *)
Inductive reachable : state -> Prop :=
| reachable_construct w0 h0 f0 g0 : reachable (construct w0 h0 f0 g0)
| reachable_call s c s' out :
    reachable s -> well_typed c -> run_call c s = Done tt s' out ->
    reachable s'.

End Methods.

Notation "x <- m ;; k" := (bind m (fun x => k))
  (at level 61, m at next level, right associativity).
Notation "m ;; k" := (bind m (fun _ => k))
  (at level 61, right associativity).

(** ** Percent and index as functions of the number of frames *)






(** ** Invariants of the object *)

Section Invariants.

Context {F : Type} `{FloatOps F}.
Variable W : World.

Abbreviation state := (ofxImageSequence (F := F)).

(** The thread is past its first step, and not yet at its end. *)
Definition in_flight (pc : thread_pc) : bool :=
  match pc with
  | AtPreloadFilenames | AtCancelCheck | AtLoopHead _ => true
  | NotRunning | AtEntry => false
  end.

(** The thread has not listed the folder yet. *)
Definition before_listing (pc : thread_pc) : bool :=
  match pc with
  | AtEntry | AtPreloadFilenames => true
  | NotRunning | AtCancelCheck | AtLoopHead _ => false
  end.

(** What holds of every state an object can be in. *)
Record Inv (s : state) : Prop := {
  inv_names : List.length (filenames s) = List.length (sequence s);
  inv_size : Z.of_nat (List.length (sequence s)) <= INT_MAX;
  inv_loaded : loaded s = true -> sequence s <> [];
  inv_thread : thread s <> NotRunning -> loaded s = false;
  inv_in_flight :
    in_flight (thread s) = true -> loading s = true /\ listening s = true;
  inv_before_listing : before_listing (thread s) = true -> sequence s = [];
  inv_loop : forall i, thread s = AtLoopHead i -> sequence s <> [];
  inv_current : 0 <= currentFrame s
}.

(** The part of the object that [Inv] looks at. *)
Definition shape (s : state)
  : nat * nat * bool * thread_pc * bool * bool * Z :=
  (List.length (filenames s), List.length (sequence s), loaded s, thread s,
   loading s, listening s, currentFrame s).

(** A bound on the steps the thread still takes. *)
Definition steps_left (s : state) : nat :=
  match thread s with
  | NotRunning => 0
  | AtEntry =>
      4 + List.length (dir_listDir W (extension s) (folderToLoad s))
  | AtPreloadFilenames =>
      3 + List.length (dir_listDir W (extension s) (folderToLoad s))
  | AtCancelCheck => 2 + List.length (sequence s)
  | AtLoopHead i => 1 + (List.length (sequence s) - i)
  end.

(** The object after [texture.loadData(img)]. *)
Definition upload_into (img : Image) (s : state) : state :=
  set_texture {| tex_pixels := Some img;
                 tex_minFilter := tex_minFilter (texture s);
                 tex_magFilter := tex_magFilter (texture s) |} s.

(** What [preloadAllFilenames] finds: the paths listed, in the order
    [dir.getPath] gives them, and the number of them it takes. *)
Definition listing (s : state) : list string :=
  dir_listDir W (extension s) (folderToLoad s).

Definition listed_paths (s : state) : list string :=
  if TARGET_LINUX W then dir_sort W (listing s) else listing s.

Definition numFiles (s : state) : Z :=
  let listed := wrap_int (Z.of_nat (List.length (listing s))) in
  if 0 <? maxFrames s then Z.min listed (maxFrames s) else listed.

(** The object after the loop of [preloadAllFilenames]. *)
Definition with_paths (paths : list string) (s : state) : state :=
  set_sequence (sequence s ++ repeat None (List.length paths))
    (set_filenames (filenames s ++ paths) s).

(** The members the background thread writes; it leaves the others as they
    are. *)
Definition thread_writes (s s' : state) : Prop :=
  s' = set_thread (thread s')
         (set_listening (listening s')
            (set_loading (loading s')
               (set_cancelLoading (cancelLoading s')
                  (set_sequence (sequence s')
                     (set_filenames (filenames s') s))))).

(** The members [loadFrame] writes. *)
Definition frame_writes (s s' : state) : Prop :=
  s' = set_lastFrameLoaded (lastFrameLoaded s')
         (set_texture (texture s') (set_sequence (sequence s') s)).


(** The object after [unloadSequence], when no thread runs. *)
Definition unloaded (s : state) : state :=
  set_height 0 (set_width 0 (set_loaded false
    (set_filenames [] (set_sequence [] s)))).

End Invariants.

(** The calls that can end with a sequence newly marked loaded. *)
Definition completes_a_load {F} (c : call (F := F)) : bool :=
  match c with
  | LoadSequence _ _ _ _ _ | LoadSequence4 _ _ _ _ | LoadSequenceFolder _
  | Update => true
  | _ => false
  end.

(** [currentFrame] is the index of a slot, when the object is loaded. *)
Definition cursor_ok {F} (s : ofxImageSequence (F := F)) : Prop :=
  loaded s = true -> sequence s <> [] ->
  0 <= currentFrame s < Z.of_nat (List.length (sequence s)).

(** The frame last presented, if any, is one whose slot holds pixels. *)
Definition presented_ok {F} (s : ofxImageSequence (F := F)) : Prop :=
  loaded s = true ->
  lastFrameLoaded s = -1 \/
  exists img,
    nth_error (sequence s) (Z.to_nat (lastFrameLoaded s)) = Some (Some img) /\
    0 <= lastFrameLoaded s.

(** [width] and [height] are those of the pixels of slot 0. *)
Definition sized_from_slot_0 {F} (s : ofxImageSequence (F := F)) : Prop :=
  exists px rest,
    sequence s = px :: rest /\
    width s = getWidth_px px /\ height s = getHeight_px px.

(** The state a run ends in, if it returns. *)
Definition final {S A} (r : result S A) : option S :=
  match r with
  | Done _ s _ => Some s
  | Fault _ => None
  end.



(** ** The rest of the class *)

Section Rest.

Context {F : Type} `{FloatOps F}.
Variable W : World.

(** [~ofxImageSequence], lines 58-67. *)
Definition destructor : M (F := F) unit :=
  threaded <- gets useThread ;;
  busy <- gets loading ;;
  (if threaded && busy then cancelLoad else ret tt) ;;
  waitForThread W ;;
  unloadSequence W.

(** The deprecated accessors, lines 343-368: each does what the accessor
    that replaced it does. *)
Definition getTextureReference : M (F := F) ofTexture := getTexture.

Definition getFrameAtPercent (percent : F) : M (F := F) ofTexture :=
  setFrameAtPercent W percent ;; getTexture.

Definition getFrameForTime (time : F) : M (F := F) ofTexture :=
  setFrameForTime W time ;; getTexture.

Definition getFrame (index : Z) : M (F := F) ofTexture :=
  setFrame W index ;; getTexture.

(** The slots after every file was handed to the decoder once: a slot whose
    file decodes holds the pixels decoded, the others are as they were. *)
Fixpoint decode_slots (names : list string) (slots : list ofPixels)
  : list ofPixels :=
  match names, slots with
  | name :: names', px :: slots' =>
      match ofLoadImage W name with
      | Some img => Some img
      | None => px
      end :: decode_slots names' slots'
  | _, _ => slots
  end.

(** The errors [preloadAllFrames] logs for the files that do not decode. *)
Fixpoint decode_errors (names : list string) : list event :=
  match names with
  | [] => []
  | name :: names' =>
      match ofLoadImage W name with
      | Some _ => decode_errors names'
      | None =>
          ofLogError "ofxImageSequence::loadFrame"
            ("Image failed to load: " ++ name) :: decode_errors names'
      end
  end.

(** What holds besides [Inv] of every state an object can be in: a slot that
    holds pixels holds those its file decodes to; on a loaded object the
    texture holds the pixels of the slot [lastFrameLoaded], if there is one;
    and [loading] is set only while the thread is past its first step. *)
Record Coherent (s : ofxImageSequence (F := F)) : Prop := {
  coh_slots : forall k img,
    nth_error (sequence s) k = Some (Some img) ->
    exists name,
      nth_error (filenames s) k = Some name /\ ofLoadImage W name = Some img;
  coh_texture :
    loaded s = true -> 0 <= lastFrameLoaded s ->
    exists img,
      nth_error (sequence s) (Z.to_nat (lastFrameLoaded s)) = Some (Some img) /\
      tex_pixels (texture s) = Some img;
  coh_idle : in_flight (thread s) = false -> loading s = false
}.

(** No slot is left unallocated whose file decodes. *)
Definition saturated_slots (s : ofxImageSequence (F := F)) : Prop :=
  forall k name,
    nth_error (sequence s) k = Some None ->
    nth_error (filenames s) k = Some name -> ofLoadImage W name = None.

(** The calls that release the pixels decoded: [unloadSequence], and the
    loads, which start with it. *)
Definition releases (c : call (F := F)) : bool :=
  match c with
  | LoadSequence _ _ _ _ _ | LoadSequence4 _ _ _ _ | LoadSequenceFolder _
  | UnloadSequence => true
  | _ => false
  end.

(** The calls that go through [sprintf] or through the conversion of a
    [float] to an [int], which can run into undefined behaviour. *)
Definition formats_or_converts (c : call (F := F)) : bool :=
  match c with
  | LoadSequence _ _ _ _ _ | LoadSequence4 _ _ _ _
  | SetFrameForTime _ | SetFrameAtPercent _ => true
  | _ => false
  end.

(** The slots of [s] that hold pixels hold them in [s'] too. *)
Definition keeps_slots (s s' : ofxImageSequence (F := F)) : Prop :=
  forall k img,
    nth_error (sequence s) k = Some (Some img) ->
    nth_error (sequence s') k = Some (Some img).

(** The paths a folder load takes, once [folderToLoad] is set. *)
Definition folder_paths (folder : string) (s : ofxImageSequence (F := F))
  : list string :=
  firstn (Z.to_nat (numFiles W (set_folderToLoad folder s)))
         (listed_paths W (set_folderToLoad folder s)).

End Rest.

(** ** A small scene

    A folder [seq] with two pictures, a decoder that reads every file but
    [f002.png], and objects with the arithmetic of [float]. *)
Module Scene.

Import Binary32 Exact.

Definition picture (name : string) : Image :=
  {| img_width := 640; img_height := 480; img_data := name |}.

Definition world : World :=
  {| file_exists := fun folder => String.eqb folder "seq";
     dir_listDir := fun _ folder =>
       if String.eqb folder "seq" then ["seq/a.png"; "seq/b.png"] else [];
     dir_sort := fun paths => paths;
     dir_sort_length := fun paths => eq_refl;
     TARGET_LINUX := true;
     ofLoadImage := fun path =>
       if String.eqb path "f002.png" then None else Some (picture path) |}.

Definition fresh : ofxImageSequence (F := float32) := construct 0 0 0 0.

(** The object after [loadSequence("f", "png", 1, 3, 3)]. *)
Definition three_frames : ofxImageSequence (F := float32) :=
  Eval vm_compute in
    match final (loadSequence world "f" "png" 1 3 3 fresh) with
    | Some s => s
    | None => fresh
    end.



(** The object a history of calls leaves, from a fresh one. *)
Definition after (cs : list call) : ofxImageSequence (F := float32) :=
  match final (run_calls world cs fresh) with
  | Some s => s
  | None => fresh
  end.

(** A threaded load of the folder, cancelled when the thread has decoded the
    first of the two pictures and stands at the head of the loop again. *)
Definition cancelled_mid_load : list (call (F := float32)) :=
  [EnableThreadedLoad true; LoadSequenceFolder "seq";
   ThreadStep; ThreadStep; ThreadStep; ThreadStep; CancelLoad].

End Scene.

(** * Facts *)

(** ** Machine integers *)


Lemma wrap_int_id z : is_int z -> wrap_int z = z.
Proof.
  unfold is_int, INT_MIN, INT_MAX, wrap_int. intros Hz.
  rewrite Z.mod_small by lia. lia.
Qed.

Lemma wrap_int_range z : is_int (wrap_int z).
Proof.
  unfold is_int, INT_MIN, INT_MAX, wrap_int.
  pose proof (Z.mod_pos_bound (z + 2147483648) 4294967296 eq_refl). lia.
Qed.

Lemma wrap_int_le z : 0 <= z -> wrap_int z <= z.
Proof.
  unfold wrap_int. intros Hz.
  pose proof (Z.mod_le (z + 2147483648) 4294967296). lia.
Qed.


(** A range that passes the test [numFiles <= 0] of [loadSequence] is either
    inverted or has at most [INT_MAX] values. *)
Lemma numFiles_positive a b :
  is_int a -> is_int b -> 0 < wrap_int (wrap_int (b - a) + 1) ->
  b - a + 1 <= INT_MAX.
Proof.
  unfold is_int, INT_MIN, INT_MAX, wrap_int. intros Ha Hb Hn.
  Z.to_euclidean_division_equations. lia.
Qed.

(** ** Vectors *)

Lemma vector_set_length {A} (v : list A) i a :
  List.length (vector_set v i a) = List.length v.
Proof.
  revert i. induction v as [|x v IH]; intros [|i]; simpl; auto.
Qed.

Lemma vector_set_same {A} (v : list A) i a x :
  nth_error v i = Some x -> nth_error (vector_set v i a) i = Some a.
Proof.
  revert i. induction v as [|y v IH]; intros [|i]; simpl; try discriminate; auto.
Qed.

Lemma vector_set_other {A} (v : list A) i j a :
  i <> j -> nth_error (vector_set v i a) j = nth_error v j.
Proof.
  revert i j. induction v as [|y v IH]; intros [|i] [|j] Hij; simpl; auto.
  congruence.
Qed.

Lemma vector_set_nonempty {A} (v : list A) i a : v <> [] -> vector_set v i a <> [].
Proof. destruct v, i; simpl; congruence. Qed.

Lemma nth_error_in_range {A} (v : list A) i :
  (i < List.length v)%nat -> exists a, nth_error v i = Some a.
Proof.
  intros Hi. destruct (nth_error v i) eqn:E; eauto.
  apply nth_error_None in E. lia.
Qed.

(** ** Text *)

Lemma append_empty (s : string) : (s ++ "")%string = s.
Proof. induction s as [|c s IH]; simpl; congruence. Qed.

Lemma append_assoc (a b c : string) : ((a ++ b) ++ c)%string = (a ++ b ++ c)%string.
Proof. induction a as [|x a IH]; simpl; congruence. Qed.








Lemma format_d_unpadded minus zero i : format_d minus zero 0 i = string_of_Z i.
Proof.
  unfold format_d, string_of_Z. simpl.
  destruct (i <? 0); destruct minus, zero; simpl; now rewrite ?append_empty.
Qed.


(** ** Programs *)

Section MonadFacts.

Context {F : Type} `{FloatOps F}.

Implicit Types s : ofxImageSequence (F := F).

Lemma bind_Done {A B} (m : M A) (k : A -> M B) s a s1 out1 :
  m s = Done a s1 out1 ->
  bind m k s = match k a s1 with
               | Done b s2 out2 => Done b s2 (out1 ++ out2)
               | Fault f => Fault f
               end.
Proof. intros E. unfold bind. now rewrite E. Qed.

Lemma bind_inv {A B} (m : M A) (k : A -> M B) s b s2 out :
  bind m k s = Done b s2 out ->
  exists a s1 out1 out2,
    m s = Done a s1 out1 /\ k a s1 = Done b s2 out2 /\ out = out1 ++ out2.
Proof.
  unfold bind. destruct (m s) as [a s1 out1|]; [|discriminate].
  destruct (k a s1) as [b' s2' out2|] eqn:E; [|discriminate].
  intros [= <- <- <-]. now exists a, s1, out1, out2.
Qed.

Lemma result_eta {A} (r : result (ofxImageSequence (F := F)) A) :
  match r with
  | Done b s2 out2 => Done b s2 out2
  | Fault f => Fault f
  end = r.
Proof. now destruct r. Qed.

Lemma bind_ret {A B} (a : A) (k : A -> M B) s : bind (ret a) k s = k a s.
Proof. unfold bind, ret. apply result_eta. Qed.

Lemma bind_gets {A B} (f : ofxImageSequence -> A) (k : A -> M B) s :
  bind (gets f) k s = k (f s) s.
Proof. unfold bind, gets. apply result_eta. Qed.

Lemma bind_modify {B} f (k : unit -> M B) s : bind (modify f) k s = k tt (f s).
Proof. unfold bind, modify. apply result_eta. Qed.

Lemma bind_emit {B} e (k : unit -> M B) s :
  bind (emit e) k s = match k tt s with
                      | Done b s2 out2 => Done b s2 (e :: out2)
                      | Fault f => Fault f
                      end.
Proof. reflexivity. Qed.

Lemma bind_vector_at {A B} (v : ofxImageSequence -> list A) i (k : A -> M B) s :
  bind (vector_at v i) k s = match nth_error (v s) i with
                             | Some a => k a s
                             | None => Fault VectorOutOfRange
                             end.
Proof.
  unfold bind, vector_at. destruct (nth_error (v s) i); [apply result_eta|reflexivity].
Qed.

Lemma bind_assoc {A B C} (m : M A) (k : A -> M B) (h : B -> M C) s :
  bind (bind m k) h s = bind m (fun a => bind (k a) h) s.
Proof.
  unfold bind. destruct (m s) as [a s1 out1|]; [|reflexivity].
  destruct (k a s1) as [b s2 out2|]; [|reflexivity].
  destruct (h b s2) as [c s3 out3|]; [|reflexivity].
  now rewrite app_assoc.
Qed.

End MonadFacts.

(** Running the simple statements at the head of a program. *)
Ltac run_head :=
  repeat (rewrite bind_ret || rewrite bind_gets || rewrite bind_modify
          || rewrite bind_vector_at || rewrite bind_assoc);
  cbv beta.

(** Case analysis on the tests of a computed result, innermost first. *)
Ltac split_result E :=
  repeat (match type of E with
          | context [match ?x with _ => _ end] =>
              lazymatch x with
              | context [match _ with _ => _ end] => fail
              | _ => destruct x eqn:?
              end
          end; try discriminate).

(** Opening an invariant at a known program counter, and closing one. *)
Ltac inv_open I Epc :=
  let Hn := fresh "Hn" in let Hz := fresh "Hz" in let Hl := fresh "Hl" in
  let Ht := fresh "Ht" in let Hf := fresh "Hf" in let Hb := fresh "Hb" in
  let Hp := fresh "Hp" in let Hc := fresh "Hc" in
  destruct I as [Hn Hz Hl Ht Hf Hb Hp Hc];
  rewrite ?Epc in Ht, Hf, Hb, Hp; simpl in Ht, Hf, Hb, Hp;
  try specialize (Ht ltac:(discriminate));
  try specialize (Hf eq_refl);
  try specialize (Hb eq_refl);
  match type of Hf with
  | _ /\ _ => destruct Hf as [? ?]
  | _ => clear Hf
  end.

Ltac inv_close :=
  constructor; simpl; intros;
  try match goal with
      | E : thread _ = _ |- _ => rewrite E in *; simpl in *
      end;
  try discriminate; try congruence; try lia; try tauto; auto.

Section MethodFacts.

Context {F : Type} `{FloatOps F}.
Variable W : World.

Implicit Types s : ofxImageSequence (F := F).

Lemma shape_Inv s s' : shape s' = shape s -> Inv s -> Inv s'.
Proof.
  unfold shape.
  intros [= Hn Hq Hl Ht Hg Hi Hc]
         [Hnames Hsize Hloaded Hthread Hflight Hbefore Hloop Hcur].
  assert (Hnil : forall t : ofxImageSequence (F := F),
             sequence t = [] <-> List.length (sequence t) = 0%nat)
    by (intros t; destruct (sequence t); simpl; split; congruence).
  constructor; rewrite ?Hn, ?Hq, ?Hl, ?Ht, ?Hg, ?Hi, ?Hc; auto.
  - intros Hld E. apply Hnil in E. rewrite Hq in E. apply Hnil in E.
    exact (Hloaded Hld E).
  - intros Hb. apply Hnil. rewrite Hq. apply Hnil. auto.
  - intros i Hi' E. apply Hnil in E. rewrite Hq in E. apply Hnil in E.
    exact (Hloop i Hi' E).
Qed.

(** *** [loadFrame] *)

Lemma loadFrame_eq i s :
  loadFrame W i s =
  if lastFrameLoaded s =? i then Done tt s []
  else if (i <? 0) || (Z.of_nat (List.length (sequence s)) <=? i) then
    Done tt s [ofLogError "ofxImageSequence::loadFrame"
                 ("Calling a frame out of bounds: " ++ string_of_Z i)]
  else
    match nth_error (sequence s) (Z.to_nat i) with
    | None => Fault VectorOutOfRange
    | Some (Some img) =>
        Done tt (set_lastFrameLoaded i (upload_into img s)) [texture_loadData img]
    | Some None =>
        match nth_error (filenames s) (Z.to_nat i) with
        | None => Fault VectorOutOfRange
        | Some name =>
            match ofLoadImage W name with
            | Some img =>
                Done tt
                  (set_lastFrameLoaded i
                     (upload_into img
                        (set_sequence
                           (vector_set (sequence s) (Z.to_nat i) (Some img)) s)))
                  [texture_loadData img]
            | None =>
                Done tt s [ofLogError "ofxImageSequence::loadFrame"
                             ("Pixels not allocated: " ++ name)]
            end
        end
    end.
Proof.
  unfold loadFrame, bind, gets, size. simpl.
  destruct (lastFrameLoaded s =? i); [reflexivity|].
  destruct ((i <? 0) || (Z.of_nat (List.length (sequence s)) <=? i)); [reflexivity|].
  unfold vector_at at 1.
  destruct (nth_error (sequence s) (Z.to_nat i)) as [[img|]|] eqn:E; simpl.
  - unfold ret, vector_at. rewrite E. reflexivity.
  - unfold ofLoadImage_at, bind, vector_at. rewrite E.
    destruct (nth_error (filenames s) (Z.to_nat i)) as [name|] eqn:En; [|reflexivity].
    destruct (ofLoadImage W name) eqn:Ed; simpl.
    + rewrite (vector_set_same _ _ _ _ E). reflexivity.
    + rewrite E, En. reflexivity.
  - reflexivity.
Qed.

Lemma loadFrame_shape i s s' out :
  loadFrame W i s = Done tt s' out -> shape s' = shape s.
Proof.
  rewrite loadFrame_eq. intros E.
  repeat match type of E with
         | (if ?c then _ else _) = _ => destruct c
         | match ?x with _ => _ end = _ => destruct x
         end;
    inversion E; subst; unfold shape; simpl; try reflexivity.
  now rewrite vector_set_length.
Qed.

(** *** Listing the folder *)

Lemma firstn_skipn_cons {A} (l : list A) i c x :
  nth_error l i = Some x ->
  firstn (S c) (skipn i l) = x :: firstn c (skipn (S i) l).
Proof.
  revert i. induction l as [|y l IH]; intros [|i]; cbn [nth_error];
    try discriminate.
  - now intros [= ->].
  - intros E. apply (IH i E).
Qed.

Lemma with_paths_nil s : with_paths [] s = s.
Proof. destruct s. unfold with_paths. simpl. now rewrite !app_nil_r. Qed.

Lemma with_paths_cons x paths s :
  with_paths paths
    (set_sequence (push_back None (sequence s))
       (set_filenames (push_back x (filenames s)) s))
  = with_paths (x :: paths) s.
Proof.
  unfold with_paths, push_back. simpl. now rewrite <- !app_assoc.
Qed.

Lemma push_paths_eq files count i s :
  (i + count <= List.length files)%nat ->
  push_paths files count i s
  = Done tt (with_paths (firstn count (skipn i files)) s) [].
Proof.
  revert i s. induction count as [|c IH]; intros i s Hi.
  - simpl. unfold ret. now rewrite with_paths_nil.
  - cbn [push_paths].
    destruct (nth_error_in_range files i) as [x Ex]; [lia|].
    rewrite Ex, (firstn_skipn_cons _ _ _ _ Ex).
    unfold bind, modify.
    rewrite IH by lia. rewrite <- with_paths_cons. reflexivity.
Qed.

Lemma numFiles_le s : (Z.to_nat (numFiles W s) <= List.length (listed_paths W s))%nat.
Proof.
  unfold numFiles, listed_paths.
  assert (Hlen : List.length (if TARGET_LINUX W then dir_sort W (listing W s)
                              else listing W s) = List.length (listing W s))
    by (destruct (TARGET_LINUX W); [apply dir_sort_length | reflexivity]).
  rewrite Hlen.
  pose proof (wrap_int_le (Z.of_nat (List.length (listing W s))) (Nat2Z.is_nonneg _)).
  destruct (0 <? maxFrames s); lia.
Qed.

Lemma numFiles_int s : numFiles W s <= INT_MAX.
Proof.
  unfold numFiles.
  pose proof (wrap_int_range (Z.of_nat (List.length (listing W s)))) as [_ Hr].
  destruct (0 <? maxFrames s); lia.
Qed.

Lemma preloadAllFilenames_eq s :
  preloadAllFilenames W s =
  if negb (file_exists W (folderToLoad s)) then
    Done false s [ofLogError "ofxImageSequence::loadSequence"
                    ("Could not find folder " ++ folderToLoad s)]
  else if numFiles W s =? 0 then
    Done false s [ofLogError "ofxImageSequence::loadSequence"
                    ("No image files found in " ++ folderToLoad s)]
  else
    Done true
      (with_paths (firstn (Z.to_nat (numFiles W s)) (listed_paths W s)) s) [].
Proof.
  unfold preloadAllFilenames, bind, gets. simpl.
  destruct (negb (file_exists W (folderToLoad s))); [reflexivity|].
  fold (listing W s). fold (numFiles W s). fold (listed_paths W s).
  destruct (numFiles W s =? 0); [reflexivity|].
  rewrite push_paths_eq by (pose proof (numFiles_le s); simpl; lia).
  reflexivity.
Qed.

(** *** One turn of the decoding loop *)

Lemma preloadAllFrames_turn_eq i s :
  preloadAllFrames_turn W i s =
  if Z.of_nat i <? Z.of_nat (List.length (sequence s)) then
    if useThread s && cancelLoading s then Done false s []
    else
      match nth_error (sequence s) i with
      | None => Fault VectorOutOfRange
      | Some _ =>
          match nth_error (filenames s) i with
          | None => Fault VectorOutOfRange
          | Some name =>
              match ofLoadImage W name with
              | Some img =>
                  Done true
                    (set_sequence (vector_set (sequence s) i (Some img)) s) []
              | None =>
                  Done true s [ofLogError "ofxImageSequence::loadFrame"
                                 ("Image failed to load: " ++ name)]
              end
          end
      end
  else Done false s [].
Proof.
  unfold preloadAllFrames_turn, bind, gets, size. simpl.
  destruct (Z.of_nat i <? Z.of_nat (List.length (sequence s))); [|reflexivity].
  destruct (useThread s && cancelLoading s); [reflexivity|].
  unfold ofLoadImage_at, bind, vector_at.
  destruct (nth_error (sequence s) i); [|reflexivity].
  destruct (nth_error (filenames s) i) as [name|] eqn:En; [|reflexivity].
  destruct (ofLoadImage W name); simpl; [reflexivity|].
  rewrite En. reflexivity.
Qed.

Lemma preloadAllFrames_turn_shape i s again s' out :
  preloadAllFrames_turn W i s = Done again s' out -> shape s' = shape s.
Proof.
  rewrite preloadAllFrames_turn_eq. intros E.
  repeat match type of E with
         | (if ?c then _ else _) = _ => destruct c
         | match ?x with _ => _ end = _ => destruct x
         end;
    inversion E; subst; unfold shape; simpl; try reflexivity.
  now rewrite vector_set_length.
Qed.

(** *** The background thread *)

Lemma thread_step_eq s :
  thread_step W s =
  match thread s with
  | NotRunning => Done tt s []
  | AtEntry =>
      Done tt (set_thread AtPreloadFilenames
                 (set_listening true
                    (set_cancelLoading false (set_loading true s)))) []
  | AtPreloadFilenames =>
      match preloadAllFilenames W s with
      | Done true s1 out => Done tt (set_thread AtCancelCheck s1) out
      | Done false s1 out =>
          Done tt (set_thread NotRunning (set_loading false s1)) out
      | Fault f => Fault f
      end
  | AtCancelCheck =>
      if cancelLoading s then
        Done tt (set_thread NotRunning
                   (set_cancelLoading false (set_loading false s))) []
      else if Z.of_nat (List.length (sequence s)) =? 0 then
        Done tt (set_thread NotRunning (set_loading false s))
          [ofLogError "ofxImageSequence::loadFrame"
             "Calling preloadAllFrames on unitialized image sequence."]
      else Done tt (set_thread (AtLoopHead 0) s) []
  | AtLoopHead i =>
      match preloadAllFrames_turn W i s with
      | Done true s1 out => Done tt (set_thread (AtLoopHead (S i)) s1) out
      | Done false s1 out =>
          Done tt (set_thread NotRunning (set_loading false s1)) out
      | Fault f => Fault f
      end
  end.
Proof.
  unfold thread_step, bind at 1, gets. simpl.
  destruct (thread s); try reflexivity.
  - unfold bind. destruct (preloadAllFilenames W s) as [[|] s1 out|]; simpl;
      now rewrite ?app_nil_r.
  - unfold bind, gets, size. simpl.
    destruct (cancelLoading s); [reflexivity|].
    destruct (Z.of_nat (List.length (sequence s)) =? 0); reflexivity.
  - unfold bind. destruct (preloadAllFrames_turn W i s) as [[|] s1 out|]; simpl;
      now rewrite ?app_nil_r.
Qed.

Lemma length_zero_nil {A} (l : list A) :
  (Z.of_nat (List.length l) =? 0) = true -> l = [].
Proof.
  intros E. apply Z.eqb_eq in E. destruct l; [reflexivity | simpl in E; lia].
Qed.

Lemma length_nonzero {A} (l : list A) :
  (Z.of_nat (List.length l) =? 0) = false -> l <> [].
Proof.
  intros E. apply Z.eqb_neq in E. destruct l; [simpl in E; lia | congruence].
Qed.

Lemma thread_step_Inv s s' out :
  Inv s -> thread_step W s = Done tt s' out -> Inv s'.
Proof.
  intros I. rewrite thread_step_eq.
  destruct (thread s) eqn:Epc.
  - intros [= <- _]. exact I.
  - intros [= <- _]. inv_open I Epc. inv_close.
  - rewrite preloadAllFilenames_eq. intros E. split_result E.
    + injection E as <- _. inv_open I Epc. inv_close.
    + injection E as <- _. inv_open I Epc. inv_close.
    + injection E as <- _. inv_open I Epc.
      assert (Hfn : filenames s = [])
        by (rewrite Hb in Hn; now destruct (filenames s)).
      pose proof (numFiles_le s) as Hle. pose proof (numFiles_int s) as Hint.
      constructor; simpl; rewrite ?Hb, ?Hfn; simpl;
        rewrite ?repeat_length, ?length_firstn; intros;
        try discriminate; try congruence; try lia; auto.
  - intros E. split_result E; injection E as <- _; inv_open I Epc; inv_close.
    now apply length_nonzero.
  - intros E.
    destruct (preloadAllFrames_turn W i s) as [again s1 out1|] eqn:Et;
      [|discriminate].
    pose proof (preloadAllFrames_turn_shape _ _ _ _ _ Et) as Hsh.
    pose proof (shape_Inv _ _ Hsh I) as I1.
    injection Hsh as Hn1 Hq1 Hl1 Ht1 Hg1 Hi1 Hc1.
    rewrite Epc in Ht1.
    destruct again; injection E as <- _; inv_open I1 Ht1; inv_close.
    now apply (Hp i).
Qed.

Lemma thread_writes_refl s : thread_writes s s.
Proof. now destruct s. Qed.

Lemma thread_writes_trans s1 s2 s3 :
  thread_writes s1 s2 -> thread_writes s2 s3 -> thread_writes s1 s3.
Proof.
  unfold thread_writes. intros E12 E23. rewrite E23 at 1. rewrite E12 at 1.
  reflexivity.
Qed.

Lemma listed_paths_length s :
  List.length (listed_paths W s) = List.length (listing W s).
Proof.
  unfold listed_paths.
  destruct (TARGET_LINUX W); [apply dir_sort_length | reflexivity].
Qed.

(** A step of a running thread returns, keeps the invariant, writes only the
    members of the thread, and brings the thread nearer to its end. *)
Lemma thread_step_progress s :
  Inv s -> thread s <> NotRunning ->
  exists s' out,
    thread_step W s = Done tt s' out /\ Inv s' /\ thread_writes s s' /\
    (steps_left W s' < steps_left W s)%nat.
Proof.
  intros I Hrun.
  destruct (thread_step W s) as [[] s' out|f] eqn:E.
  - exists s', out. split; [reflexivity|].
    split; [exact (thread_step_Inv _ _ _ I E)|].
    rewrite thread_step_eq in E. unfold steps_left, listing.
    destruct (thread s) eqn:Epc; [congruence| | | |].
    + injection E as <- _. split; [now destruct s|]. simpl. lia.
    + rewrite preloadAllFilenames_eq in E.
      pose proof (numFiles_le s) as Hle. rewrite listed_paths_length in Hle.
      inv_open I Epc.
      split_result E; injection E as <- _;
        (split; [now destruct s|]); simpl; rewrite ?Epc; try lia.
      rewrite Hb, length_app, repeat_length, length_firstn. simpl.
      unfold listing in Hle. lia.
    + split_result E; injection E as <- _;
        (split; [now destruct s|]); simpl; lia.
    + rewrite preloadAllFrames_turn_eq in E.
      split_result E; injection E as <- _;
        (split; [now destruct s|]); simpl; rewrite ?vector_set_length;
        try lia;
        match goal with
        | Hlt : (Z.of_nat i <? _) = true |- _ => apply Z.ltb_lt in Hlt; lia
        end.
  - exfalso. rewrite thread_step_eq in E.
    destruct (thread s) eqn:Epc; try discriminate.
    + rewrite preloadAllFilenames_eq in E. split_result E.
    + split_result E.
    + rewrite preloadAllFrames_turn_eq in E. inv_open I Epc.
      split_result E;
        match goal with
        | Hlt : (Z.of_nat i <? _) = true |- _ => apply Z.ltb_lt in Hlt
        end;
        match goal with
        | Hnone : nth_error _ i = None |- _ => apply nth_error_None in Hnone
        end; lia.
Qed.

(** [waitForThread]: the thread comes to its end. *)
Lemma run_thread_ends steps s :
  Inv s -> (steps_left W s <= steps)%nat ->
  exists s' out,
    run_thread W steps s = Done tt s' out /\ Inv s' /\ thread_writes s s' /\
    thread s' = NotRunning.
Proof.
  revert s. induction steps as [|n IH]; intros s I Hn.
  - exists s, []. unfold steps_left in Hn.
    assert (Epc : thread s = NotRunning)
      by (destruct (thread s); try reflexivity; simpl in Hn; lia).
    split; [reflexivity|]. split; [exact I|].
    split; [apply thread_writes_refl | exact Epc].
  - destruct (Bool.bool_dec (in_flight (thread s) || before_listing (thread s)) true)
      as [Hrun|Hidle].
    + assert (Hpc : thread s <> NotRunning)
        by (intros E; rewrite E in Hrun; discriminate).
      destruct (thread_step_progress s I Hpc)
        as (s1 & out1 & E1 & I1 & W1 & D1).
      destruct (IH s1 I1 ltac:(lia)) as (s2 & out2 & E2 & I2 & W2 & N2).
      exists s2, (out1 ++ out2).
      split; [|split; [exact I2|split; [exact (thread_writes_trans _ _ _ W1 W2)|exact N2]]].
      cbn [run_thread]. unfold bind at 1, gets.
      destruct (thread s); try congruence;
        cbn; rewrite (bind_Done _ _ _ _ _ _ E1), E2; reflexivity.
    + assert (Epc : thread s = NotRunning)
        by (destruct (thread s); simpl in Hidle; congruence).
      exists s, []. cbn [run_thread]. unfold bind, gets. rewrite Epc.
      split; [reflexivity|]. split; [exact I|].
      split; [apply thread_writes_refl | reflexivity].
Qed.

Lemma steps_left_budget s : (steps_left W s <= thread_budget W s)%nat.
Proof.
  unfold steps_left, thread_budget, listing. destruct (thread s); lia.
Qed.

(** *** [unloadSequence] *)

Lemma Inv_unloaded s : Inv s -> thread s = NotRunning -> Inv (unloaded s).
Proof. intros I Epc. inv_open I Epc. inv_close. Qed.

(** [unloadSequence] returns from every state of an object: the thread is
    at its end, the vectors are empty, and apart from what the thread wrote
    only [loaded], [width] and [height] have changed. *)
Lemma unloadSequence_spec s :
  Inv s ->
  exists s1 out,
    unloadSequence W s = Done tt (unloaded s1) out /\
    thread_writes s s1 /\ thread s1 = NotRunning /\ Inv (unloaded s1).
Proof.
  intros I.
  destruct (run_thread_ends (thread_budget W s) s I (steps_left_budget s))
    as (s1 & out & E & I1 & W1 & N1).
  exists s1, out. split; [|split; [exact W1|split; [exact N1|]]].
  - unfold unloadSequence, waitForThread.
    unfold bind at 1. unfold bind at 1. unfold gets at 1. rewrite E.
    unfold bind, modify. cbn. now rewrite !app_nil_r.
  - now apply Inv_unloaded.
Qed.

Lemma unloadSequence_idle s :
  thread s = NotRunning -> unloadSequence W s = Done tt (unloaded s) [].
Proof.
  intros Epc. unfold unloadSequence, waitForThread, thread_budget.
  unfold bind at 1. unfold bind at 1. unfold gets at 1.
  cbn [plus run_thread]. unfold bind at 1. unfold gets at 1. rewrite Epc.
  reflexivity.
Qed.

(** *** The first frame *)

Lemma show_first_frame_eq s :
  show_first_frame W s =
  match loadFrame W 0 (set_lastFrameLoaded (-1) (set_loaded true s)) with
  | Done _ s1 out =>
      match nth_error (sequence s1) 0 with
      | Some px =>
          Done tt (set_height (getHeight_px px)
                     (set_width (getWidth_px px) s1)) out
      | None => Fault VectorOutOfRange
      end
  | Fault f => Fault f
  end.
Proof.
  unfold show_first_frame. run_head. unfold bind at 1.
  destruct (loadFrame W 0 _) as [[] s1 out|]; [|reflexivity].
  run_head. destruct (nth_error (sequence s1) 0) as [px|] eqn:E; [|reflexivity].
  run_head. change (sequence (set_width (getWidth_px px) s1)) with (sequence s1).
  rewrite E. unfold modify. now rewrite app_nil_r.
Qed.

Lemma loadFrame_writes i s s' out :
  loadFrame W i s = Done tt s' out -> frame_writes s s'.
Proof.
  rewrite loadFrame_eq. intros E.
  split_result E; injection E as <- _; now destruct s.
Qed.

(** After [show_first_frame] the object is loaded, and [width] and [height]
    are those of slot 0, decoded or not. *)
Lemma show_first_frame_Done s s' out :
  show_first_frame W s = Done tt s' out ->
  exists px rest,
    sequence s' = px :: rest /\ loaded s' = true /\
    width s' = getWidth_px px /\ height s' = getHeight_px px /\
    List.length (sequence s') = List.length (sequence s) /\
    filenames s' = filenames s /\ thread s' = thread s /\
    loading s' = loading s /\ listening s' = listening s /\
    currentFrame s' = currentFrame s.
Proof.
  rewrite show_first_frame_eq.
  destruct (loadFrame W 0 _) as [[] s1 out1|] eqn:E; [|discriminate].
  destruct (sequence s1) as [|px rest] eqn:Es; cbn; [discriminate|].
  intros [= <- _]. exists px, rest. cbn.
  pose proof (loadFrame_shape _ _ _ _ E) as Hs.
  injection Hs as Hn Hq Hl Ht Hg Hi Hc.
  apply loadFrame_writes in E. rewrite E. cbn.
  repeat split; assumption.
Qed.

Lemma show_first_frame_Inv s s' out :
  Inv s -> thread s = NotRunning ->
  show_first_frame W s = Done tt s' out -> Inv s'.
Proof.
  intros I Epc E.
  destruct (show_first_frame_Done _ _ _ E)
    as (px & rest & Es & Hl & _ & _ & Hq & Hf & Ht & Hg & Hi & Hc).
  inv_open I Epc.
  constructor; rewrite ?Hq, ?Hf, ?Ht, ?Hg, ?Hi, ?Hc, ?Epc; simpl; intros;
    try discriminate; try congruence; try lia; auto.
Qed.

(** [show_first_frame] returns when there is a slot 0 with its name. *)
Lemma show_first_frame_total s :
  sequence s <> [] -> List.length (filenames s) = List.length (sequence s) ->
  exists s' out, show_first_frame W s = Done tt s' out.
Proof.
  intros Hne Hlen. rewrite show_first_frame_eq, loadFrame_eq. cbn.
  destruct (sequence s) as [|px rest] eqn:Es; [congruence|].
  destruct (filenames s) as [|name names] eqn:Ef; [discriminate|].
  cbn. destruct px as [img|]; cbn; [rewrite Es; cbn; eauto|].
  destruct (ofLoadImage W name); cbn; rewrite ?Es; cbn; eauto.
Qed.

(** *** The numbered pattern *)

Lemma with_paths_app xs ys s :
  with_paths ys (with_paths xs s) = with_paths (xs ++ ys) s.
Proof.
  unfold with_paths. simpl.
  now rewrite length_app, repeat_app, <- !app_assoc.
Qed.

Lemma with_paths_Inv names s :
  Inv s -> thread s = NotRunning -> loaded s = false ->
  Z.of_nat (List.length (sequence s) + List.length names) <= INT_MAX ->
  Inv (with_paths names s).
Proof.
  intros I Epc Hl Hlen. inv_open I Epc.
  constructor; simpl; rewrite ?length_app, ?repeat_length; intros;
    try (rewrite Epc in *; simpl in *);
    try discriminate; try congruence; try lia; auto.
Qed.

Lemma pattern_loop_Done format endDigit turns i s s' out :
  pattern_loop format endDigit turns i s = Done tt s' out ->
  out = [] /\
  exists names, s' = with_paths names s /\ (List.length names <= turns)%nat.
Proof.
  revert i s out. induction turns as [|n IH]; intros i s out; cbn [pattern_loop].
  - destruct (endDigit <? i); [|discriminate].
    intros [= <- <-]. split; [reflexivity|].
    exists []. now rewrite with_paths_nil.
  - destruct (endDigit <? i).
    + intros [= <- <-]. split; [reflexivity|].
      exists []. rewrite with_paths_nil. split; [reflexivity|simpl; lia].
    + destruct (sprintf format i) as [imagename|]; [|discriminate].
      destruct (1024 <=? String.length imagename)%nat; [discriminate|].
      run_head. intros E. apply IH in E as (-> & names & -> & Hlen).
      split; [reflexivity|]. exists (imagename :: names).
      split; [|simpl; lia].
      rewrite <- with_paths_cons. reflexivity.
Qed.


(** *** The calls keep the invariant *)

Lemma loadSequence_Inv prefix filetype a b d s r s' out :
  Inv s -> is_int a -> is_int b ->
  loadSequence W prefix filetype a b d s = Done r s' out -> Inv s'.
Proof.
  intros I Ha Hb E.
  destruct (unloadSequence_spec s I) as (s1 & o1 & E1 & _ & N1 & I1).
  unfold loadSequence in E. rewrite (bind_Done _ _ _ _ _ _ E1) in E.
  destruct (wrap_int (wrap_int (b - a) + 1) <=? 0) eqn:Eg.
  - cbn in E. injection E as _ <- _. exact I1.
  - destruct (bind _ _ (unloaded s1)) as [r2 s2 o2|] eqn:E2; [|discriminate].
    injection E as _ <- _.
    apply bind_inv in E2 as ([] & s3 & o3 & o4 & Ep & E2 & _).
    apply bind_inv in E2 as ([] & s4 & o5 & o6 & Ef & E2 & _).
    injection E2 as _ <- _.
    apply pattern_loop_Done in Ep as (_ & names & -> & Hlen).
    refine (show_first_frame_Inv _ _ _ _ _ Ef); [|exact N1].
    apply with_paths_Inv; auto.
    apply Z.leb_gt in Eg. pose proof (numFiles_positive a b Ha Hb Eg).
    unfold unloaded, INT_MAX in *. simpl. lia.
Qed.

Lemma completeLoading_eq s :
  completeLoading W s =
  if Z.of_nat (List.length (sequence s)) =? 0 then
    Done tt s [ofLogError "ofxImageSequence::completeLoading"
                 "load failed with empty image sequence"]
  else show_first_frame W s.
Proof.
  unfold completeLoading, size. run_head.
  now destruct (Z.of_nat (List.length (sequence s)) =? 0).
Qed.

Lemma completeLoading_Inv s s' out :
  Inv s -> thread s = NotRunning ->
  completeLoading W s = Done tt s' out -> Inv s'.
Proof.
  intros I Epc. rewrite completeLoading_eq.
  destruct (_ =? 0).
  - intros [= <- _]. exact I.
  - now apply show_first_frame_Inv.
Qed.

Lemma loadSequence_folder_Inv folder s r s' out :
  Inv s -> loadSequence_folder W folder s = Done r s' out -> Inv s'.
Proof.
  intros I E.
  destruct (unloadSequence_spec s I) as (s1 & o1 & E1 & _ & N1 & I1).
  unfold loadSequence_folder in E. rewrite (bind_Done _ _ _ _ _ _ E1) in E.
  destruct (bind _ _ (unloaded s1)) as [r2 s2 o2|] eqn:E2; [|discriminate].
  injection E as _ <- _. revert E2. run_head.
  set (u := set_folderToLoad folder (unloaded s1)).
  assert (Iu : Inv u) by (apply (shape_Inv (unloaded s1) u); [reflexivity|exact I1]).
  assert (Nu : thread u = NotRunning) by exact N1.
  destruct (useThread u).
  - unfold startThread. run_head. rewrite Nu. run_head.
    intros [= _ <-]. inv_open Iu Nu. inv_close.
  - intros E2. apply bind_inv in E2 as (ok & s3 & o3 & o4 & Ep & E2 & _).
    rewrite preloadAllFilenames_eq in Ep.
    pose proof (numFiles_le u) as Hle. pose proof (numFiles_int u) as Hint.
    assert (I3 : Inv s3 /\ thread s3 = NotRunning).
    { split_result Ep; injection Ep as _ <- _; auto.
      split; [|exact Nu].
      apply with_paths_Inv; auto. rewrite length_firstn.
      unfold u, unloaded, INT_MAX in *. simpl. lia. }
    destruct I3 as [I3 N3].
    destruct ok.
    + apply bind_inv in E2 as ([] & s4 & o5 & o6 & Ec & E2 & _).
      injection E2 as _ <- _. exact (completeLoading_Inv _ _ _ I3 N3 Ec).
    + injection E2 as _ <- _. exact I3.
Qed.

Lemma setFrame_eq index s :
  setFrame W index s =
  if negb (loaded s) then
    Done tt s [ofLogError "ofxImageSequence::setFrame"
                 "Calling getFrame on unitialized image sequence."]
  else if index <? 0 then
    Done tt s [ofLogError "ofxImageSequence::setFrame" "Asking for negative index."]
  else
    let total := wrap_int (Z.of_nat (List.length (sequence s))) in
    if total =? 0 then Fault DivideByZero
    else
      match loadFrame W (Z.rem index total) s with
      | Done _ s1 out => Done tt (set_currentFrame (Z.rem index total) s1) out
      | Fault f => Fault f
      end.
Proof.
  unfold setFrame, getTotalFrames, size. run_head.
  destruct (negb (loaded s)); [reflexivity|].
  destruct (index <? 0); [reflexivity|]. run_head. cbv zeta.
  destruct (_ =? 0); [reflexivity|].
  unfold bind. destruct (loadFrame W _ s) as [[] s1 out|]; [|reflexivity].
  unfold modify. now rewrite app_nil_r.
Qed.

Lemma setFrame_Inv index s s' out :
  Inv s -> setFrame W index s = Done tt s' out -> Inv s'.
Proof.
  intros I. rewrite setFrame_eq.
  destruct (negb (loaded s)); [intros [= <- _]; exact I|].
  destruct (Z.ltb_spec index 0) as [|Hi]; [intros [= <- _]; exact I|].
  cbv zeta. destruct (Z.eqb_spec (wrap_int (Z.of_nat (List.length (sequence s)))) 0)
    as [|Hne]; [discriminate|].
  destruct (loadFrame W _ s) as [[] s1 out1|] eqn:E; [|discriminate].
  intros [= <- _].
  pose proof (shape_Inv _ _ (loadFrame_shape _ _ _ _ E) I) as I1.
  pose proof (Z.rem_nonneg index _ Hne Hi) as Hr.
  destruct I1. constructor; simpl; auto.
Qed.

Lemma getFrameIndexAtPercent_pure percent s x s' out :
  getFrameIndexAtPercent percent s = Done x s' out -> s' = s /\ out = [].
Proof.
  unfold getFrameIndexAtPercent, size. run_head.
  destruct (int_of_float _); [|discriminate].
  now intros [= _ <- <-].
Qed.

Lemma setFrameAtPercent_Inv percent s s' out :
  Inv s -> setFrameAtPercent W percent s = Done tt s' out -> Inv s'.
Proof.
  intros I E. unfold setFrameAtPercent in E.
  apply bind_inv in E as (x & s1 & o1 & o2 & Ex & E & _).
  apply getFrameIndexAtPercent_pure in Ex as [-> _].
  exact (setFrame_Inv _ _ _ _ I E).
Qed.

Lemma setFrameForTime_Inv time s s' out :
  Inv s -> setFrameForTime W time s = Done tt s' out -> Inv s'.
Proof.
  intros I. unfold setFrameForTime, size. run_head.
  apply setFrameAtPercent_Inv, I.
Qed.

Lemma preloadAllFrames_loop_shape turns i s s' out :
  preloadAllFrames_loop W turns i s = Done tt s' out -> shape s' = shape s.
Proof.
  revert i s out. induction turns as [|n IH]; intros i s out; cbn [preloadAllFrames_loop].
  - now intros [= <- _].
  - intros E. apply bind_inv in E as (again & s1 & o1 & o2 & Et & E & _).
    apply preloadAllFrames_turn_shape in Et.
    destruct again.
    + apply IH in E. congruence.
    + injection E as <- _. exact Et.
Qed.

Lemma preloadAllFrames_shape s s' out :
  preloadAllFrames W s = Done tt s' out -> shape s' = shape s.
Proof.
  unfold preloadAllFrames, size. run_head.
  destruct (_ =? 0); [now intros [= <- _]|].
  run_head. apply preloadAllFrames_loop_shape.
Qed.

Lemma Inv_stop_listening s :
  Inv s -> loading s = false -> Inv (set_listening false s).
Proof.
  intros [Hn Hz Hl Ht Hf Hb Hp Hc] Eg.
  constructor; simpl; auto.
  intros Hin. destruct (Hf Hin). congruence.
Qed.

Lemma notify_update_Inv s s' out :
  Inv s -> notify_update W s = Done tt s' out -> Inv s'.
Proof.
  intros I. unfold notify_update, updateThreadedLoad, size. run_head.
  destruct (listening s); [|now intros [= <- _]].
  run_head. destruct (loading s) eqn:Eg; [now intros [= <- _]|].
  run_head. cbn [sequence set_listening].
  pose proof (Inv_stop_listening s I Eg) as I1.
  destruct (Z.ltb_spec 0 (Z.of_nat (List.length (sequence s)))) as [Hpos|Hzero];
    [|now intros [= <- _]].
  apply completeLoading_Inv; [exact I1|]. simpl.
  destruct I as [_ _ _ _ Hf Hb _ _].
  destruct (thread s); simpl in *; try reflexivity;
    try (destruct (Hf eq_refl); congruence).
  rewrite (Hb eq_refl) in Hpos. simpl in Hpos. lia.
Qed.

Lemma construct_Inv w0 h0 f0 g0 : Inv (construct w0 h0 f0 g0).
Proof. constructor; simpl; intros; try discriminate; try congruence; unfold INT_MAX; lia. Qed.

Lemma run_call_Inv c s s' out :
  Inv s -> well_typed c -> run_call W c s = Done tt s' out -> Inv s'.
Proof.
  intros I Hc E. destruct c; cbn [run_call well_typed] in *.
  - unfold discard in E. apply bind_inv in E as (r & s1 & o1 & o2 & E & [= <-] & _).
    destruct Hc as (Ha & Hb & _). exact (loadSequence_Inv _ _ _ _ _ _ _ _ _ I Ha Hb E).
  - unfold discard in E. apply bind_inv in E as (r & s1 & o1 & o2 & E & [= <-] & _).
    destruct Hc as (Ha & Hb). exact (loadSequence_Inv _ _ _ _ _ _ _ _ _ I Ha Hb E).
  - unfold discard in E. apply bind_inv in E as (r & s1 & o1 & o2 & E & [= <-] & _).
    exact (loadSequence_folder_Inv _ _ _ _ _ I E).
  - destruct (unloadSequence_spec s I) as (s1 & o1 & E1 & _ & _ & I1).
    rewrite E1 in E. now injection E as <- _.
  - revert E. unfold setMaxFrames. run_head.
    destruct (loaded _); intros [= <- _]; apply (shape_Inv s); auto.
  - revert E. unfold setExtension, modify. intros [= <- _].
    apply (shape_Inv s); auto.
  - revert E. unfold enableThreadedLoad. rewrite bind_gets.
    destruct (loaded s); intros [= <- _]; apply (shape_Inv s); auto.
  - revert E. unfold cancelLoad. run_head.
    destruct (_ && _); intros [= <- _]; apply (shape_Inv s); auto.
  - revert E. unfold setMinMagFilter. run_head. intros [= <- _].
    apply (shape_Inv s); auto.
  - revert E. unfold setFrameRate, modify. intros [= <- _].
    apply (shape_Inv s); auto.
  - exact (shape_Inv _ _ (preloadAllFrames_shape _ _ _ E) I).
  - exact (shape_Inv _ _ (loadFrame_shape _ _ _ _ E) I).
  - exact (setFrame_Inv _ _ _ _ I E).
  - exact (setFrameForTime_Inv _ _ _ _ I E).
  - exact (setFrameAtPercent_Inv _ _ _ _ I E).
  - exact (notify_update_Inv _ _ _ I E).
  - exact (thread_step_Inv _ _ _ I E).
Qed.

(** Every state an object can be in satisfies the invariant. *)
Lemma reachable_Inv s : reachable W s -> Inv s.
Proof.
  induction 1 as [w0 h0 f0 g0|s c s' out _ IH Hc E].
  - apply construct_Inv.
  - exact (run_call_Inv _ _ _ _ IH Hc E).
Qed.

Lemma reachable_history cs s s' :
  reachable W s -> Forall well_typed cs ->
  final (run_calls W cs s) = Some s' -> reachable W s'.
Proof.
  revert s. induction cs as [|c cs IH]; intros s R Hcs; cbn [run_calls].
  - unfold ret. cbn. now intros [= <-].
  - inversion Hcs as [|? ? Hc Hrest]; subst.
    unfold bind. destruct (run_call W c s) as [[] s1 out1|] eqn:E; [|discriminate].
    intros Hf. apply (IH s1); [exact (reachable_call W s c s1 out1 R Hc E)|exact Hrest|].
    destruct (run_calls W cs s1); [exact Hf|discriminate].
Qed.

(** *** [loadFrame] and [setFrame] return *)

Lemma loadFrame_total i s :
  List.length (filenames s) = List.length (sequence s) ->
  exists s' out, loadFrame W i s = Done tt s' out.
Proof.
  intros Hn. rewrite loadFrame_eq.
  destruct (lastFrameLoaded s =? i); [eauto|].
  destruct (Z.ltb_spec i 0) as [|Hi]; [cbn; eauto|].
  destruct (Z.leb_spec (Z.of_nat (List.length (sequence s))) i) as [|Hlt]; [cbn; eauto|].
  cbn [orb].
  destruct (nth_error_in_range (sequence s) (Z.to_nat i)) as [px ->]; [lia|].
  destruct (nth_error_in_range (filenames s) (Z.to_nat i)) as [name ->]; [lia|].
  destruct px; [eauto|]. destruct (ofLoadImage W name); eauto.
Qed.

(** On a loaded object [setFrame] with an index that is not negative shows
    the frame [index % total] and makes it the current one. *)
Lemma setFrame_loaded index s :
  Inv s -> loaded s = true -> 0 <= index ->
  let total := Z.of_nat (List.length (sequence s)) in
  0 < total /\
  exists s1 out,
    loadFrame W (Z.rem index total) s = Done tt s1 out /\
    setFrame W index s = Done tt (set_currentFrame (Z.rem index total) s1) out.
Proof.
  intros I Hl Hi total.
  assert (Hpos : 0 < total).
  { destruct I as [_ _ Hne _ _ _ _ _]. specialize (Hne Hl).
    unfold total. destruct (sequence s); [congruence|simpl; lia]. }
  split; [exact Hpos|].
  assert (Hw : wrap_int total = total).
  { apply wrap_int_id. destruct I as [_ Hz _ _ _ _ _ _].
    unfold is_int, INT_MIN. fold total in Hz. lia. }
  destruct (loadFrame_total (Z.rem index total) s (inv_names _ I))
    as (s1 & out & E).
  exists s1, out. split; [exact E|].
  rewrite setFrame_eq, Hl. cbn [negb].
  destruct (Z.ltb_spec index 0); [lia|]. cbv zeta. fold total. rewrite Hw.
  destruct (Z.eqb_spec total 0); [lia|]. now rewrite E.
Qed.

(** *** The cursor *)

Lemma setFrame_cursor index s s' out :
  Inv s -> setFrame W index s = Done tt s' out ->
  s' = s \/
  (loaded s = true /\
   List.length (sequence s') = List.length (sequence s) /\ loaded s' = true /\
   0 <= currentFrame s' < Z.of_nat (List.length (sequence s'))).
Proof.
  intros I E. destruct (loaded s) eqn:Hl.
  - destruct (Z.ltb_spec index 0) as [Hneg|Hi].
    + rewrite setFrame_eq, Hl in E. cbn [negb] in E.
      apply Z.ltb_lt in Hneg. rewrite Hneg in E. injection E as <- _. now left.
    + destruct (setFrame_loaded index s I Hl Hi) as (Hpos & s1 & out1 & E1 & E2).
      rewrite E2 in E. injection E as <- _. right.
      injection (loadFrame_shape _ _ _ _ E1) as _ Hq Hl1 _ _ _ _.
      cbn. rewrite Hq. repeat split; try congruence;
        apply Z.rem_bound_pos; lia.
  - rewrite setFrame_eq, Hl in E. injection E as <- _. now left.
Qed.

Lemma thread_writes_loaded s s' :
  thread_writes s s' ->
  loaded s' = loaded s /\ currentFrame s' = currentFrame s.
Proof. intros E. rewrite E. now cbn. Qed.

(** A call that completes no load keeps the cursor on a slot. *)
Lemma call_keeps_cursor c s s' out :
  Inv s -> completes_a_load c = false ->
  run_call W c s = Done tt s' out -> cursor_ok s -> cursor_ok s'.
Proof.
  intros I Hc E Hok.
  assert (Hshape : shape s' = shape s -> cursor_ok s').
  { intros [= _ Hq Hl _ _ _ Hcur] Hl' Hne. unfold cursor_ok in Hok.
    rewrite Hq, Hcur. apply Hok; [congruence|].
    intros E0. apply Hne. destruct (sequence s'); [reflexivity|].
    rewrite E0 in Hq. discriminate. }
  destruct c; try discriminate; cbn [run_call] in E.
  - destruct (unloadSequence_spec s I) as (s1 & o1 & E1 & _ & _ & _).
    rewrite E1 in E. injection E as <- _. intros Hl. discriminate.
  - revert E. unfold setMaxFrames. run_head.
    destruct (loaded _); intros [= <- _]; now apply Hshape.
  - revert E. unfold setExtension, modify. intros [= <- _]. now apply Hshape.
  - revert E. unfold enableThreadedLoad. rewrite bind_gets.
    destruct (loaded s); intros [= <- _]; now apply Hshape.
  - revert E. unfold cancelLoad. run_head.
    destruct (_ && _); intros [= <- _]; now apply Hshape.
  - revert E. unfold setMinMagFilter. run_head. intros [= <- _]. now apply Hshape.
  - revert E. unfold setFrameRate, modify. intros [= <- _]. now apply Hshape.
  - exact (Hshape (preloadAllFrames_shape _ _ _ E)).
  - exact (Hshape (loadFrame_shape _ _ _ _ E)).
  - destruct (setFrame_cursor _ _ _ _ I E) as [->|(_ & _ & _ & Hin)]; [exact Hok|].
    intros _ _. exact Hin.
  - revert E. unfold setFrameForTime, setFrameAtPercent, size. run_head.
    intros E. apply bind_inv in E as (x & s1 & o1 & o2 & Ex & E & _).
    apply getFrameIndexAtPercent_pure in Ex as [-> _].
    destruct (setFrame_cursor _ _ _ _ I E) as [->|(_ & _ & _ & Hin)]; [exact Hok|].
    intros _ _. exact Hin.
  - unfold setFrameAtPercent in E.
    apply bind_inv in E as (x & s1 & o1 & o2 & Ex & E & _).
    apply getFrameIndexAtPercent_pure in Ex as [-> _].
    destruct (setFrame_cursor _ _ _ _ I E) as [->|(_ & _ & _ & Hin)]; [exact Hok|].
    intros _ _. exact Hin.
  - destruct (thread s) eqn:Epc.
    + rewrite thread_step_eq, Epc in E. now injection E as <- _.
    + destruct (thread_step_progress s I ltac:(congruence))
        as (s2 & o2 & E2 & _ & W2 & _).
      rewrite E2 in E. injection E as <- _.
      destruct (thread_writes_loaded _ _ W2) as [Hl _].
      intros Hl'. rewrite Hl, (inv_thread _ I) in Hl'; [discriminate|congruence].
    + destruct (thread_step_progress s I ltac:(congruence))
        as (s2 & o2 & E2 & _ & W2 & _).
      rewrite E2 in E. injection E as <- _.
      destruct (thread_writes_loaded _ _ W2) as [Hl _].
      intros Hl'. rewrite Hl, (inv_thread _ I) in Hl'; [discriminate|congruence].
    + destruct (thread_step_progress s I ltac:(congruence))
        as (s2 & o2 & E2 & _ & W2 & _).
      rewrite E2 in E. injection E as <- _.
      destruct (thread_writes_loaded _ _ W2) as [Hl _].
      intros Hl'. rewrite Hl, (inv_thread _ I) in Hl'; [discriminate|congruence].
    + destruct (thread_step_progress s I ltac:(congruence))
        as (s2 & o2 & E2 & _ & W2 & _).
      rewrite E2 in E. injection E as <- _.
      destruct (thread_writes_loaded _ _ W2) as [Hl _].
      intros Hl'. rewrite Hl, (inv_thread _ I) in Hl'; [discriminate|congruence].
Qed.

(** *** The same frame twice *)



(** *** The frame last presented *)

Lemma presented_ok_view s s' :
  loaded s' = loaded s -> lastFrameLoaded s' = lastFrameLoaded s ->
  sequence s' = sequence s -> presented_ok s -> presented_ok s'.
Proof. unfold presented_ok. intros -> -> ->. auto. Qed.

Lemma loadFrame_presented i s s' out :
  loadFrame W i s = Done tt s' out -> presented_ok s -> presented_ok s'.
Proof.
  rewrite loadFrame_eq. intros E Hok.
  destruct (lastFrameLoaded s =? i); [now injection E as <- _|].
  destruct (Z.ltb_spec i 0); [now injection E as <- _|].
  destruct (Z.leb_spec (Z.of_nat (List.length (sequence s))) i);
    [now injection E as <- _|].
  cbn [orb] in E.
  destruct (nth_error (sequence s) (Z.to_nat i)) as [[img|]|] eqn:Epx;
    [| |discriminate].
  - injection E as <- _. intros _. right. exists img. cbn. now split.
  - destruct (nth_error (filenames s) (Z.to_nat i)) as [name|]; [|discriminate].
    destruct (ofLoadImage W name) as [img|]; [|now injection E as <- _].
    injection E as <- _. intros _. right. exists img. cbn.
    split; [|assumption]. exact (vector_set_same _ _ _ _ Epx).
Qed.

Lemma preloadAllFrames_turn_presented i s again s' out :
  preloadAllFrames_turn W i s = Done again s' out ->
  presented_ok s -> presented_ok s'.
Proof.
  rewrite preloadAllFrames_turn_eq. intros E Hok.
  destruct (_ <? _); [|now injection E as _ <- _].
  destruct (_ && _); [now injection E as _ <- _|].
  destruct (nth_error (sequence s) i) as [px|] eqn:Epx; [|discriminate].
  destruct (nth_error (filenames s) i) as [name|]; [|discriminate].
  destruct (ofLoadImage W name) as [img|]; [|now injection E as _ <- _].
  injection E as _ <- _. intros Hl. cbn in *.
  destruct (Hok Hl) as [Hnone|(img0 & E0 & Hpos)]; [now left|]. right.
  destruct (Nat.eq_dec i (Z.to_nat (lastFrameLoaded s))) as [<-|Hne].
  - exists img. split; [exact (vector_set_same _ _ _ _ Epx)|exact Hpos].
  - exists img0. now rewrite vector_set_other.
Qed.

Lemma preloadAllFrames_presented s s' out :
  preloadAllFrames W s = Done tt s' out -> presented_ok s -> presented_ok s'.
Proof.
  unfold preloadAllFrames, size. run_head.
  destruct (_ =? 0); [now intros [= <- _]|]. run_head.
  generalize (S (List.length (sequence s))) as turns. generalize 0%nat as i.
  intros i turns. revert i s out.
  induction turns as [|n IH]; intros i s out; cbn [preloadAllFrames_loop].
  - now intros [= <- _].
  - intros E Hok. apply bind_inv in E as (again & s1 & o1 & o2 & Et & E & _).
    apply preloadAllFrames_turn_presented in Et; [|exact Hok].
    destruct again; [exact (IH _ _ _ E Et)|now injection E as <- _].
Qed.

Lemma show_first_frame_presented s s' out :
  show_first_frame W s = Done tt s' out -> presented_ok s'.
Proof.
  rewrite show_first_frame_eq.
  destruct (loadFrame W 0 _) as [[] s1 out1|] eqn:E; [|discriminate].
  destruct (nth_error (sequence s1) 0); [|discriminate].
  intros [= <- _].
  apply (presented_ok_view s1); try reflexivity.
  apply (loadFrame_presented _ _ _ _ E). intros _. now left.
Qed.

Lemma setFrame_presented index s s' out :
  setFrame W index s = Done tt s' out -> presented_ok s -> presented_ok s'.
Proof.
  rewrite setFrame_eq.
  destruct (negb (loaded s)); [now intros [= <- _]|].
  destruct (index <? 0); [now intros [= <- _]|]. cbv zeta.
  destruct (_ =? 0); [discriminate|].
  destruct (loadFrame W _ s) as [[] s1 out1|] eqn:E; [|discriminate].
  intros [= <- _] Hok.
  apply (presented_ok_view s1); try reflexivity.
  exact (loadFrame_presented _ _ _ _ E Hok).
Qed.

Lemma not_loaded_presented s : loaded s = false -> presented_ok s.
Proof. intros Hl Hl'. congruence. Qed.

Lemma loadSequence_presented prefix filetype a b d s r s' out :
  Inv s -> loadSequence W prefix filetype a b d s = Done r s' out ->
  presented_ok s'.
Proof.
  intros I E.
  destruct (unloadSequence_spec s I) as (s1 & o1 & E1 & _ & _ & _).
  unfold loadSequence in E. rewrite (bind_Done _ _ _ _ _ _ E1) in E.
  destruct (_ <=? 0).
  - cbn in E. injection E as _ <- _. now apply not_loaded_presented.
  - destruct (bind _ _ (unloaded s1)) as [r2 s2 o2|] eqn:E2; [|discriminate].
    injection E as _ <- _.
    apply bind_inv in E2 as ([] & s3 & o3 & o4 & _ & E2 & _).
    apply bind_inv in E2 as ([] & s4 & o5 & o6 & Ef & E2 & _).
    injection E2 as _ <- _. exact (show_first_frame_presented _ _ _ Ef).
Qed.

Lemma completeLoading_presented s s' out :
  completeLoading W s = Done tt s' out -> presented_ok s -> presented_ok s'.
Proof.
  rewrite completeLoading_eq. destruct (_ =? 0).
  - now intros [= <- _].
  - intros E _. exact (show_first_frame_presented _ _ _ E).
Qed.

Lemma loadSequence_folder_presented folder s r s' out :
  Inv s -> loadSequence_folder W folder s = Done r s' out -> presented_ok s'.
Proof.
  intros I E.
  destruct (unloadSequence_spec s I) as (s1 & o1 & E1 & _ & N1 & _).
  unfold loadSequence_folder in E. rewrite (bind_Done _ _ _ _ _ _ E1) in E.
  destruct (bind _ _ (unloaded s1)) as [r2 s2 o2|] eqn:E2; [|discriminate].
  injection E as _ <- _. revert E2. run_head.
  set (u := set_folderToLoad folder (unloaded s1)).
  destruct (useThread u).
  - unfold startThread. run_head. change (thread u) with (thread s1).
    rewrite N1. run_head. intros [= _ <-]. now apply not_loaded_presented.
  - intros E2. apply bind_inv in E2 as (ok & s3 & o3 & o4 & Ep & E2 & _).
    rewrite preloadAllFilenames_eq in Ep.
    assert (H3 : presented_ok s3)
      by (split_result Ep; injection Ep as _ <- _; now apply not_loaded_presented).
    destruct ok.
    + apply bind_inv in E2 as ([] & s4 & o5 & o6 & Ec & E2 & _).
      injection E2 as _ <- _. exact (completeLoading_presented _ _ _ Ec H3).
    + now injection E2 as _ <- _.
Qed.

Lemma run_call_presented c s s' out :
  Inv s -> run_call W c s = Done tt s' out -> presented_ok s -> presented_ok s'.
Proof.
  intros I E Hok. destruct c; cbn [run_call] in E.
  - unfold discard in E. apply bind_inv in E as (r & s1 & o1 & o2 & E & [= <-] & _).
    exact (loadSequence_presented _ _ _ _ _ _ _ _ _ I E).
  - unfold discard in E. apply bind_inv in E as (r & s1 & o1 & o2 & E & [= <-] & _).
    exact (loadSequence_presented _ _ _ _ _ _ _ _ _ I E).
  - unfold discard in E. apply bind_inv in E as (r & s1 & o1 & o2 & E & [= <-] & _).
    exact (loadSequence_folder_presented _ _ _ _ _ I E).
  - destruct (unloadSequence_spec s I) as (s1 & o1 & E1 & _ & _ & _).
    rewrite E1 in E. injection E as <- _. now apply not_loaded_presented.
  - revert E. unfold setMaxFrames. run_head.
    destruct (loaded _); intros [= <- _]; now apply (presented_ok_view s).
  - revert E. unfold setExtension, modify. intros [= <- _].
    now apply (presented_ok_view s).
  - revert E. unfold enableThreadedLoad. rewrite bind_gets.
    destruct (loaded s); intros [= <- _]; now apply (presented_ok_view s).
  - revert E. unfold cancelLoad. run_head.
    destruct (_ && _); intros [= <- _]; now apply (presented_ok_view s).
  - revert E. unfold setMinMagFilter. run_head. intros [= <- _].
    now apply (presented_ok_view s).
  - revert E. unfold setFrameRate, modify. intros [= <- _].
    now apply (presented_ok_view s).
  - exact (preloadAllFrames_presented _ _ _ E Hok).
  - exact (loadFrame_presented _ _ _ _ E Hok).
  - exact (setFrame_presented _ _ _ _ E Hok).
  - revert E. unfold setFrameForTime, setFrameAtPercent, size. run_head.
    intros E. apply bind_inv in E as (x & s1 & o1 & o2 & Ex & E & _).
    apply getFrameIndexAtPercent_pure in Ex as [-> _].
    exact (setFrame_presented _ _ _ _ E Hok).
  - unfold setFrameAtPercent in E.
    apply bind_inv in E as (x & s1 & o1 & o2 & Ex & E & _).
    apply getFrameIndexAtPercent_pure in Ex as [-> _].
    exact (setFrame_presented _ _ _ _ E Hok).
  - revert E. unfold notify_update, updateThreadedLoad, size. run_head.
    destruct (listening s); [|now intros [= <- _]].
    run_head. destruct (loading s); [now intros [= <- _]|].
    run_head. cbn [sequence set_listening].
    destruct (0 <? _).
    + intros E. apply (completeLoading_presented _ _ _ E).
      now apply (presented_ok_view s).
    + intros [= <- _]. now apply (presented_ok_view s).
  - destruct (Bool.bool_dec (in_flight (thread s) || before_listing (thread s)) true)
      as [Hrun|Hidle].
    + assert (Hpc : thread s <> NotRunning)
        by (intros E0; rewrite E0 in Hrun; discriminate).
      destruct (thread_step_progress s I Hpc) as (s2 & o2 & E2 & _ & W2 & _).
      rewrite E2 in E. injection E as <- _.
      destruct (thread_writes_loaded _ _ W2) as [Hl _].
      apply not_loaded_presented. rewrite Hl. exact (inv_thread _ I Hpc).
    + assert (Epc : thread s = NotRunning)
        by (destruct (thread s); simpl in Hidle; congruence).
      rewrite thread_step_eq, Epc in E. now injection E as <- _.
Qed.

Lemma reachable_presented s : reachable W s -> presented_ok s.
Proof.
  induction 1 as [w0 h0 f0 g0|s c s' out R IH Hc E].
  - now apply not_loaded_presented.
  - exact (run_call_presented _ _ _ _ (reachable_Inv s R) E IH).
Qed.

(** *** [width] and [height] *)

Lemma show_first_frame_sized s s' out :
  show_first_frame W s = Done tt s' out -> sized_from_slot_0 s'.
Proof.
  intros E.
  destruct (show_first_frame_Done _ _ _ E) as (px & rest & Es & _ & Hw & Hh & _).
  now exists px, rest.
Qed.

Lemma completeLoading_sized s s' out :
  completeLoading W s = Done tt s' out -> s' = s \/ sized_from_slot_0 s'.
Proof.
  rewrite completeLoading_eq. destruct (_ =? 0).
  - intros [= <- _]. now left.
  - intros E. right. exact (show_first_frame_sized _ _ _ E).
Qed.

Lemma loadSequence_sized prefix filetype a b d s r s' out :
  Inv s -> loadSequence W prefix filetype a b d s = Done r s' out ->
  loaded s' = false \/ sized_from_slot_0 s'.
Proof.
  intros I E.
  destruct (unloadSequence_spec s I) as (s1 & o1 & E1 & _ & _ & _).
  unfold loadSequence in E. rewrite (bind_Done _ _ _ _ _ _ E1) in E.
  destruct (_ <=? 0).
  - cbn in E. injection E as _ <- _. now left.
  - destruct (bind _ _ (unloaded s1)) as [r2 s2 o2|] eqn:E2; [|discriminate].
    injection E as _ <- _.
    apply bind_inv in E2 as ([] & s3 & o3 & o4 & _ & E2 & _).
    apply bind_inv in E2 as ([] & s4 & o5 & o6 & Ef & E2 & _).
    injection E2 as _ <- _. right. exact (show_first_frame_sized _ _ _ Ef).
Qed.

Lemma loadSequence_folder_sized folder s r s' out :
  Inv s -> loadSequence_folder W folder s = Done r s' out ->
  loaded s' = false \/ sized_from_slot_0 s'.
Proof.
  intros I E.
  destruct (unloadSequence_spec s I) as (s1 & o1 & E1 & _ & N1 & _).
  unfold loadSequence_folder in E. rewrite (bind_Done _ _ _ _ _ _ E1) in E.
  destruct (bind _ _ (unloaded s1)) as [r2 s2 o2|] eqn:E2; [|discriminate].
  injection E as _ <- _. revert E2. run_head.
  set (u := set_folderToLoad folder (unloaded s1)).
  destruct (useThread u).
  - unfold startThread. run_head. change (thread u) with (thread s1).
    rewrite N1. run_head. intros [= _ <-]. now left.
  - intros E2. apply bind_inv in E2 as (ok & s3 & o3 & o4 & Ep & E2 & _).
    rewrite preloadAllFilenames_eq in Ep.
    assert (H3 : loaded s3 = false)
      by (split_result Ep; now injection Ep as _ <- _).
    destruct ok.
    + apply bind_inv in E2 as ([] & s4 & o5 & o6 & Ec & E2 & _).
      injection E2 as _ <- _.
      destruct (completeLoading_sized _ _ _ Ec) as [->|Hs]; [now left|now right].
    + injection E2 as _ <- _. now left.
Qed.

Lemma notify_update_sized s s' out :
  Inv s -> notify_update W s = Done tt s' out ->
  s' = s \/ loaded s' = false \/ sized_from_slot_0 s'.
Proof.
  intros I. unfold notify_update, updateThreadedLoad, size. run_head.
  destruct (listening s); [|intros [= <- _]; now left].
  run_head. destruct (loading s); [intros [= <- _]; now left|].
  run_head. cbn [sequence set_listening].
  destruct (Z.ltb_spec 0 (Z.of_nat (List.length (sequence s)))) as [Hpos|Hzero].
  - rewrite completeLoading_eq. cbn [sequence set_listening].
    destruct (Z.eqb_spec (Z.of_nat (List.length (sequence s))) 0); [lia|].
    intros E. right. right. exact (show_first_frame_sized _ _ _ E).
  - intros [= <- _]. right. left. cbn.
    destruct (loaded s) eqn:Hl; [|reflexivity].
    destruct (sequence s) eqn:Es; [now destruct (inv_loaded _ I Hl)|].
    simpl in Hzero. lia.
Qed.

Lemma preloadAllFrames_turn_size i s again s' out :
  preloadAllFrames_turn W i s = Done again s' out ->
  width s' = width s /\ height s' = height s.
Proof.
  rewrite preloadAllFrames_turn_eq. intros E.
  split_result E; now injection E as _ <- _.
Qed.

Lemma preloadAllFrames_size s s' out :
  preloadAllFrames W s = Done tt s' out ->
  width s' = width s /\ height s' = height s.
Proof.
  unfold preloadAllFrames, size. run_head.
  destruct (_ =? 0); [now intros [= <- _]|]. run_head.
  generalize (S (List.length (sequence s))) as turns. generalize 0%nat as i.
  intros i turns. revert i s out.
  induction turns as [|n IH]; intros i s out; cbn [preloadAllFrames_loop].
  - now intros [= <- _].
  - intros E. apply bind_inv in E as (again & s1 & o1 & o2 & Et & E & _).
    apply preloadAllFrames_turn_size in Et as [Hw Hh].
    destruct again.
    + apply IH in E as [Hw' Hh']. split; congruence.
    + injection E as <- _. now split.
Qed.

Lemma setFrame_size index s s' out :
  setFrame W index s = Done tt s' out ->
  width s' = width s /\ height s' = height s.
Proof.
  rewrite setFrame_eq.
  destruct (negb (loaded s)); [now intros [= <- _]|].
  destruct (index <? 0); [now intros [= <- _]|]. cbv zeta.
  destruct (_ =? 0); [discriminate|].
  destruct (loadFrame W _ s) as [[] s1 o1|] eqn:El; [|discriminate].
  intros [= <- _]. apply loadFrame_writes in El. rewrite El. now cbn.
Qed.

Lemma thread_step_size s s' out :
  thread_step W s = Done tt s' out ->
  width s' = width s /\ height s' = height s.
Proof.
  rewrite thread_step_eq. intros E.
  destruct (thread s).
  - now injection E as <- _.
  - now injection E as <- _.
  - rewrite preloadAllFilenames_eq in E.
    split_result E; now injection E as <- _.
  - split_result E; now injection E as <- _.
  - destruct (preloadAllFrames_turn W i s) as [again s1 o1|] eqn:Et; [|discriminate].
    apply preloadAllFrames_turn_size in Et as [Hw Hh].
    destruct again; injection E as <- _; now cbn.
Qed.

End MethodFacts.

(** ** Percent and index *)

Section PercentFacts.

Context {F : Type} `{FloatOps F}.

Implicit Types s : ofxImageSequence (F := F).






End PercentFacts.

(** *** Exact arithmetic *)

Section ExactFacts.

Import Exact.














End ExactFacts.

(** * The claims *)

Section Claims.

Context {F : Type} `{FloatOps F}.
Variable W : World.

Implicit Types s : ofxImageSequence (F := F).

(** C10 (confirmed).  In every state an object can be in, a loaded object
    has at least one slot, the divisor [getTotalFrames()] of [setFrame] is not
    zero, and [setFrame] never runs into the division by zero. *)
Theorem C10_setFrame_divisor_not_zero s :
  reachable W s ->
  (loaded s = true ->
   sequence s <> [] /\ wrap_int (Z.of_nat (List.length (sequence s))) <> 0) /\
  (forall index, setFrame W index s <> Fault DivideByZero).
Proof.
  intros R. pose proof (reachable_Inv W s R) as I.
  assert (Hdiv : loaded s = true ->
                 sequence s <> [] /\
                 wrap_int (Z.of_nat (List.length (sequence s))) <> 0).
  { intros Hl. split; [exact (inv_loaded _ I Hl)|].
    destruct (setFrame_loaded W 0 s I Hl (Z.le_refl 0)) as [Hpos _].
    rewrite wrap_int_id; [lia|].
    pose proof (inv_size _ I). unfold is_int, INT_MIN. lia. }
  split; [exact Hdiv|].
  intros index. rewrite setFrame_eq.
  destruct (loaded s) eqn:Hl; cbn [negb]; [|discriminate].
  destruct (index <? 0); [discriminate|]. cbv zeta.
  destruct (Z.eqb_spec (wrap_int (Z.of_nat (List.length (sequence s)))) 0) as [E|_].
  - now destruct (Hdiv eq_refl).
  - destruct (loadFrame_total W (Z.rem index (wrap_int (Z.of_nat (List.length (sequence s))))) s
                (inv_names _ I)) as (s1 & out & ->).
    discriminate.
Qed.

(** C2 (confirmed).  On a loaded object, [setFrame(index)] with
    [index >= total] does what [setFrame(index % total)] does and leaves
    [currentFrame = index % total]; with [index < 0] it logs an error and
    leaves the whole object as it was. *)
Theorem C2_setFrame_wraps_high_rejects_negative s index :
  reachable W s -> loaded s = true ->
  let total := Z.of_nat (List.length (sequence s)) in
  (total <= index ->
   setFrame W index s = setFrame W (Z.rem index total) s /\
   exists s' out,
     setFrame W index s = Done tt s' out /\
     currentFrame s' = Z.rem index total) /\
  (index < 0 ->
   setFrame W index s
   = Done tt s [ofLogError "ofxImageSequence::setFrame"
                  "Asking for negative index."]).
Proof.
  intros R Hl total. pose proof (reachable_Inv W s R) as I. split.
  - intros Hhigh.
    destruct (setFrame_loaded W index s I Hl) as (Hpos & s1 & out & E1 & E2);
      [fold total in Hhigh; destruct (setFrame_loaded W 0 s I Hl); lia|].
    fold total in Hpos, E1, E2.
    assert (Hr : 0 <= Z.rem index total < total) by (apply Z.rem_bound_pos; lia).
    destruct (setFrame_loaded W (Z.rem index total) s I Hl) as (_ & s2 & out2 & E3 & E4);
      [lia|].
    fold total in E3, E4.
    rewrite (Z.rem_small (Z.rem index total) total) in E3, E4 by lia.
    split.
    + rewrite E2, E4. rewrite E1 in E3. now injection E3 as <- <-.
    + exists (set_currentFrame (Z.rem index total) s1), out. now split.
  - intros Hneg. rewrite setFrame_eq, Hl. cbn [negb].
    now destruct (Z.ltb_spec index 0); [|lia].
Qed.

(** C5 (corrected).  No load resets [currentFrame].  What holds: in every
    state an object can be in [currentFrame] is not negative; right after a
    [setFrame] that is accepted (object loaded, index not negative) it is the
    index of a slot; and every call that completes no load keeps it on a
    slot.  A load that completes keeps the old [currentFrame], whatever the
    new number of slots. *)
Theorem C5_currentFrame_on_a_slot_between_loads s :
  reachable W s ->
  0 <= currentFrame s /\
  (forall index,
     loaded s = true -> 0 <= index ->
     exists s' out,
       setFrame W index s = Done tt s' out /\ loaded s' = true /\
       0 <= currentFrame s' < Z.of_nat (List.length (sequence s'))) /\
  (forall c s' out,
     completes_a_load c = false -> run_call W c s = Done tt s' out ->
     cursor_ok s -> cursor_ok s').
Proof.
  intros R. pose proof (reachable_Inv W s R) as I.
  split; [exact (inv_current _ I)|]. split.
  - intros index Hl Hi.
    destruct (setFrame_loaded W index s I Hl Hi) as (Hpos & s1 & out & E1 & E).
    eexists _, out. split; [exact E|].
    injection (loadFrame_shape W _ _ _ _ E1) as _ Hq Hl1 _ _ _ _.
    cbn. rewrite Hq. split; [congruence|]. apply Z.rem_bound_pos; lia.
  - intros c s' out Hc E. exact (call_keeps_cursor W _ _ _ _ I Hc E).
Qed.



(** C9 (corrected).  [width] and [height] come from slot 0, not from the
    first slot that decodes.  A call that completes a load leaves the object
    as it was, or not loaded, or with [width] and [height] equal to those of
    the pixels of slot 0, which are 0 when slot 0 did not decode.  Every
    other call but [unloadSequence], the addressing and decoding calls among
    them, leaves [width] and [height] as they were. *)
Theorem C9_width_height_from_slot_0 s c s' out :
  reachable W s -> run_call W c s = Done tt s' out ->
  (completes_a_load c = true ->
   s' = s \/ loaded s' = false \/ sized_from_slot_0 s') /\
  (completes_a_load c = false -> c <> UnloadSequence ->
   width s' = width s /\ height s' = height s).
Proof.
  intros R E. pose proof (reachable_Inv W s R) as I. split.
  - intros Hc. destruct c; try discriminate; cbn [run_call] in E.
    + unfold discard in E. apply bind_inv in E as (r & s1 & o1 & o2 & E & [= <-] & _).
      right. exact (loadSequence_sized W _ _ _ _ _ _ _ _ _ I E).
    + unfold discard in E. apply bind_inv in E as (r & s1 & o1 & o2 & E & [= <-] & _).
      right. exact (loadSequence_sized W _ _ _ _ _ _ _ _ _ I E).
    + unfold discard in E. apply bind_inv in E as (r & s1 & o1 & o2 & E & [= <-] & _).
      right. exact (loadSequence_folder_sized W _ _ _ _ _ I E).
    + exact (notify_update_sized W _ _ _ I E).
  - intros Hc Hun. destruct c; try discriminate; try contradiction;
      cbn [run_call] in E.
    + revert E. unfold setMaxFrames. run_head.
      destruct (loaded _); now intros [= <- _].
    + revert E. unfold setExtension, modify. now intros [= <- _].
    + revert E. unfold enableThreadedLoad. rewrite bind_gets.
      destruct (loaded s); now intros [= <- _].
    + revert E. unfold cancelLoad. run_head.
      destruct (_ && _); now intros [= <- _].
    + revert E. unfold setMinMagFilter. run_head. now intros [= <- _].
    + revert E. unfold setFrameRate, modify. now intros [= <- _].
    + exact (preloadAllFrames_size W _ _ _ E).
    + apply loadFrame_writes in E. rewrite E. now cbn.
    + exact (setFrame_size W _ _ _ _ E).
    + revert E. unfold setFrameForTime, setFrameAtPercent, size. run_head.
      intros E. apply bind_inv in E as (x & s1 & o1 & o2 & Ex & E & _).
      apply getFrameIndexAtPercent_pure in Ex as [-> _].
      exact (setFrame_size W _ _ _ _ E).
    + unfold setFrameAtPercent in E.
      apply bind_inv in E as (x & s1 & o1 & o2 & Ex & E & _).
      apply getFrameIndexAtPercent_pure in Ex as [-> _].
      exact (setFrame_size W _ _ _ _ E).
    + exact (thread_step_size W _ _ _ E).
Qed.



End Claims.

(** ** The claims on percent and index *)

Section PercentClaims.

Import Binary32 Exact.




End PercentClaims.

(** * The claims on the scene *)

Section OnScene.

Import Binary32 Exact Scene.

Ltac typed :=
  repeat constructor; unfold is_int, INT_MIN, INT_MAX; lia.

Lemma after_reachable cs :
  Forall well_typed cs -> reachable world (after cs).
Proof.
  intros Hcs. unfold after.
  destruct (final (run_calls world cs fresh)) as [s|] eqn:E.
  - exact (reachable_history world cs fresh s
             (reachable_construct world 0 0 0 0) Hcs E).
  - apply reachable_construct.
Qed.

Lemma three_frames_reachable : reachable world three_frames.
Proof.
  change three_frames with (after [LoadSequence "f" "png" 1 3 3]).
  apply after_reachable. typed.
Qed.

(** ** The theorems at work on the scene *)

(** C10 on the three frames. *)
Lemma C10_three_frames_witness :
  reachable world three_frames /\
  (loaded three_frames = true ->
   sequence three_frames <> [] /\
   wrap_int (Z.of_nat (List.length (sequence three_frames))) <> 0) /\
  (forall index, setFrame world index three_frames <> Fault DivideByZero).
Proof.
  split; [exact three_frames_reachable|].
  exact (C10_setFrame_divisor_not_zero world three_frames three_frames_reachable).
Defined.

(** C2 on the three frames: index 4 shows frame 1, index -1 is refused. *)
Lemma C2_three_frames_witness :
  reachable world three_frames /\ loaded three_frames = true /\
  setFrame world 4 three_frames = setFrame world 1 three_frames /\
  (exists s' out,
     setFrame world 4 three_frames = Done tt s' out /\ currentFrame s' = 1) /\
  setFrame world (-1) three_frames
  = Done tt three_frames
      [ofLogError "ofxImageSequence::setFrame" "Asking for negative index."].
Proof.
  pose proof (C2_setFrame_wraps_high_rejects_negative world three_frames 4
                three_frames_reachable eq_refl) as [High _].
  pose proof (C2_setFrame_wraps_high_rejects_negative world three_frames (-1)
                three_frames_reachable eq_refl) as [_ Negative].
  split; [exact three_frames_reachable|]. split; [reflexivity|].
  split; [exact (proj1 (High ltac:(cbn; lia)))|].
  split; [exact (proj2 (High ltac:(cbn; lia)))|].
  exact (Negative ltac:(lia)).
Defined.

(** C5 on the three frames: index 7 leaves [currentFrame] on a slot. *)
Lemma C5_three_frames_witness :
  reachable world three_frames /\
  0 <= currentFrame three_frames /\
  exists s' out,
    setFrame world 7 three_frames = Done tt s' out /\ loaded s' = true /\
    0 <= currentFrame s' < Z.of_nat (List.length (sequence s')).
Proof.
  pose proof (C5_currentFrame_on_a_slot_between_loads world three_frames
                three_frames_reachable) as (Low & Moves & _).
  split; [exact three_frames_reachable|]. split; [exact Low|].
  exact (Moves 7 eq_refl ltac:(lia)).
Defined.



(** C9 for the load of the three frames, and for showing frame 2 after it. *)
Lemma C9_three_frames_witness :
  reachable world fresh /\
  run_call world (LoadSequence "f" "png" 1 3 3) fresh
  = Done tt three_frames [texture_loadData (picture "f001.png")] /\
  (three_frames = fresh \/ loaded three_frames = false \/
   sized_from_slot_0 three_frames) /\
  run_call world (SetFrame 2) three_frames
  = Done tt (after [LoadSequence "f" "png" 1 3 3; SetFrame 2])
      [texture_loadData (picture "f003.png")] /\
  width (after [LoadSequence "f" "png" 1 3 3; SetFrame 2]) = width three_frames /\
  height (after [LoadSequence "f" "png" 1 3 3; SetFrame 2]) = height three_frames.
Proof.
  assert (Load : run_call world (LoadSequence "f" "png" 1 3 3) fresh
                 = Done tt three_frames [texture_loadData (picture "f001.png")])
    by (vm_compute; reflexivity).
  assert (Shows : run_call world (SetFrame 2) three_frames
                 = Done tt (after [LoadSequence "f" "png" 1 3 3; SetFrame 2])
                     [texture_loadData (picture "f003.png")])
    by (vm_compute; reflexivity).
  split; [apply reachable_construct|]. split; [exact Load|].
  split.
  - exact (proj1 (C9_width_height_from_slot_0 world fresh _ _ _
                    (reachable_construct world 0 0 0 0) Load) eq_refl).
  - split; [exact Shows|].
    exact (proj2 (C9_width_height_from_slot_0 world three_frames _ _ _
                    three_frames_reachable Shows) eq_refl
             ltac:(discriminate)).
Defined.





(** ** Where the claims as worded fail *)




(** C5 as worded fails: [currentFrame] survives [unloadSequence], so a
    shorter sequence loaded after frame 9 of a longer one was shown is loaded
    with [currentFrame] beyond its last slot. *)
Lemma C5_cursor_beyond_shorter_sequence :
  exists s,
    final (run_calls world [LoadSequence "f" "png" 1 10 0; SetFrame 9;
                            LoadSequence "f" "png" 1 3 0] fresh) = Some s /\
    reachable world s /\
    loaded s = true /\ List.length (sequence s) = 3%nat /\ currentFrame s = 9.
Proof.
  exists (after [LoadSequence "f" "png" 1 10 0; SetFrame 9;
                 LoadSequence "f" "png" 1 3 0]).
  split; [vm_compute; reflexivity|].
  split; [apply after_reachable; typed|].
  repeat split; vm_compute; reflexivity.
Qed.


(** With the wrap-around of two's complement, the range from [INT_MAX] down
    to [INT_MIN] has [numFiles = 2]: the test for an empty range lets it
    through, the loop makes no name and [sequence[0]] does not exist. *)
Lemma loadSequence_widest_inverted_range :
  loadSequence world "f" "png" 2147483647 (-2147483648) 3 fresh
  = Fault VectorOutOfRange.
Proof. vm_compute. reflexivity. Qed.


(** C9 as worded fails: [width] and [height] are those of slot 0 whether it
    decoded or not.  Here slot 0 is [f002.png], which does not decode: the
    load succeeds with [width] and [height] 0, and they stay 0 when slot 1
    decodes to 640 by 480. *)
Lemma C9_size_of_undecoded_slot_0 :
  exists s s',
    loadSequence world "f" "png" 2 4 3 fresh
    = Done true s [ofLogError "ofxImageSequence::loadFrame"
                     "Pixels not allocated: f002.png"] /\
    loaded s = true /\ nth_error (sequence s) 0 = Some None /\
    width s = 0 /\ height s = 0 /\
    setFrame world 1 s = Done tt s' [texture_loadData (picture "f003.png")] /\
    nth_error (sequence s') 1 = Some (Some (picture "f003.png")) /\
    getWidth_px (Some (picture "f003.png")) = 640 /\
    loaded s' = true /\ width s' = 0 /\ height s' = 0.
Proof.
  eexists. eexists. split; [vm_compute; reflexivity|].
  repeat (split; [vm_compute; reflexivity|]). vm_compute. reflexivity.
Qed.

End OnScene.

(** * More facts *)

(** ** The slots and the texture *)

Section CoherenceFacts.

Context {F : Type} `{FloatOps F}.
Variable W : World.

(** [Coherent] looks at these members only. *)
Lemma Coherent_view (s s' : ofxImageSequence (F := F)) :
  sequence s' = sequence s -> filenames s' = filenames s ->
  loaded s' = loaded s -> lastFrameLoaded s' = lastFrameLoaded s ->
  tex_pixels (texture s') = tex_pixels (texture s) ->
  thread s' = thread s -> loading s' = loading s ->
  Coherent W s -> Coherent W s'.
Proof.
  intros Es En El Ela Et Eth Elo [C1 C2 C3].
  split; rewrite ?Es, ?En, ?El, ?Ela, ?Et, ?Eth, ?Elo; assumption.
Qed.

Lemma construct_Coherent w0 h0 f0 g0 :
  Coherent W (construct (F := F) w0 h0 f0 g0).
Proof.
  split; cbn.
  - intros [|k] img; discriminate.
  - discriminate.
  - reflexivity.
Qed.

(** A slot that holds pixels is decoded again to the same pixels. *)
Lemma Coherent_redecode (s : ofxImageSequence (F := F)) i name img :
  Coherent W s -> nth_error (filenames s) i = Some name ->
  ofLoadImage W name = Some img ->
  forall k px,
    nth_error (sequence s) k = Some (Some px) ->
    nth_error (vector_set (sequence s) i (Some img)) k = Some (Some px).
Proof.
  intros C En Ed k px Ek.
  destruct (Nat.eq_dec i k) as [<-|Hne].
  - destruct (coh_slots W s C i px Ek) as (name' & En' & Ed').
    rewrite (vector_set_same _ _ _ _ Ek).
    rewrite En in En'. injection En' as <-. rewrite Ed in Ed'.
    now injection Ed' as <-.
  - now rewrite vector_set_other.
Qed.

Lemma Coherent_decoded (s : ofxImageSequence (F := F)) i px name img :
  Coherent W s -> nth_error (sequence s) i = Some px ->
  nth_error (filenames s) i = Some name -> ofLoadImage W name = Some img ->
  Coherent W (set_sequence (vector_set (sequence s) i (Some img)) s).
Proof.
  intros C Ei En Ed. split; cbn.
  - intros k img' Ek. destruct (Nat.eq_dec i k) as [<-|Hne].
    + rewrite (vector_set_same _ _ _ _ Ei) in Ek. injection Ek as <-. eauto.
    + rewrite vector_set_other in Ek by assumption. exact (coh_slots W s C k img' Ek).
  - intros Hl Hlast. destruct (coh_texture W s C Hl Hlast) as (img' & Es & Et).
    exists img'. split; [|exact Et].
    exact (Coherent_redecode s i name img C En Ed _ _ Es).
  - exact (coh_idle W s C).
Qed.

Lemma loadFrame_Coherent i (s s' : ofxImageSequence (F := F)) out :
  Coherent W s -> loadFrame W i s = Done tt s' out -> Coherent W s'.
Proof.
  intros C. rewrite loadFrame_eq.
  destruct (lastFrameLoaded s =? i); [now intros [= <- _]|].
  destruct ((i <? 0) || _) eqn:Hr; [now intros [= <- _]|].
  apply orb_false_iff in Hr as [Hneg Hhigh]. apply Z.ltb_ge in Hneg.
  destruct (nth_error (sequence s) (Z.to_nat i)) as [[img|]|] eqn:Ei;
    [| |discriminate].
  - intros [= <- _]. split; cbn.
    + exact (coh_slots W s C).
    + intros _ _. exists img. rewrite Ei. auto.
    + exact (coh_idle W s C).
  - destruct (nth_error (filenames s) (Z.to_nat i)) as [name|] eqn:En;
      [|discriminate].
    destruct (ofLoadImage W name) as [img|] eqn:Ed; [|now intros [= <- _]].
    intros [= <- _].
    pose proof (Coherent_decoded s _ _ _ _ C Ei En Ed) as C'.
    split; cbn.
    + exact (coh_slots W _ C').
    + intros _ _. exists img. rewrite (vector_set_same _ _ _ _ Ei). auto.
    + exact (coh_idle W s C).
Qed.

Lemma preloadAllFrames_turn_Coherent i (s : ofxImageSequence (F := F)) again s' out :
  Coherent W s -> preloadAllFrames_turn W i s = Done again s' out ->
  Coherent W s'.
Proof.
  intros C. rewrite preloadAllFrames_turn_eq.
  destruct (_ <? _); [|now intros [= _ <- _]].
  destruct (_ && _); [now intros [= _ <- _]|].
  destruct (nth_error (sequence s) i) as [px|] eqn:Ei; [|discriminate].
  destruct (nth_error (filenames s) i) as [name|] eqn:En; [|discriminate].
  destruct (ofLoadImage W name) as [img|] eqn:Ed; intros [= _ <- _];
    [|exact C].
  exact (Coherent_decoded s _ _ _ _ C Ei En Ed).
Qed.

Lemma preloadAllFrames_loop_Coherent turns i (s : ofxImageSequence (F := F)) s' out :
  Coherent W s -> preloadAllFrames_loop W turns i s = Done tt s' out ->
  Coherent W s'.
Proof.
  revert i s out. induction turns as [|n IH]; intros i s out C;
    cbn [preloadAllFrames_loop].
  - now intros [= <- _].
  - intros E. apply bind_inv in E as (again & s1 & o1 & o2 & E1 & E2 & _).
    pose proof (preloadAllFrames_turn_Coherent _ _ _ _ _ C E1) as C1.
    destruct again; [exact (IH _ _ _ C1 E2)|].
    now injection E2 as <- _.
Qed.

Lemma preloadAllFrames_Coherent (s : ofxImageSequence (F := F)) s' out :
  Coherent W s -> preloadAllFrames W s = Done tt s' out -> Coherent W s'.
Proof.
  intros C. unfold preloadAllFrames, size. run_head.
  destruct (_ =? 0); [now intros [= <- _]|].
  run_head. apply preloadAllFrames_loop_Coherent. exact C.
Qed.

Lemma with_paths_Coherent names (s : ofxImageSequence (F := F)) :
  Coherent W s -> loaded s = false -> Coherent W (with_paths names s).
Proof.
  intros C Hl. split; cbn.
  - intros k img Ek.
    assert (Hk : (k < List.length (sequence s))%nat).
    { destruct (Nat.lt_ge_cases k (List.length (sequence s))) as [|Hge]; [assumption|].
      rewrite nth_error_app2 in Ek by assumption.
      apply nth_error_In, repeat_spec in Ek. discriminate. }
    rewrite nth_error_app1 in Ek by assumption.
    destruct (coh_slots W s C k img Ek) as (name & En & Ed).
    exists name. split; [|exact Ed].
    rewrite nth_error_app1; [exact En|].
    apply nth_error_Some. congruence.
  - congruence.
  - exact (coh_idle W s C).
Qed.

Lemma unloaded_Coherent (s : ofxImageSequence (F := F)) :
  Coherent W s -> Coherent W (unloaded s).
Proof.
  intros C. split; cbn.
  - intros [|k] img; discriminate.
  - discriminate.
  - exact (coh_idle W s C).
Qed.

(** The thread's own members apart, [Coherent] is kept when [loading] is
    cleared as the thread leaves. *)
Lemma Coherent_pc (s s' : ofxImageSequence (F := F)) :
  sequence s' = sequence s -> filenames s' = filenames s ->
  loaded s' = loaded s -> lastFrameLoaded s' = lastFrameLoaded s ->
  tex_pixels (texture s') = tex_pixels (texture s) ->
  (in_flight (thread s') = false -> loading s' = false) ->
  Coherent W s -> Coherent W s'.
Proof.
  intros Es En El Ela Et Hidle [C1 C2 C3].
  split; rewrite ?Es, ?En, ?El, ?Ela, ?Et; assumption.
Qed.

Lemma thread_step_Coherent (s : ofxImageSequence (F := F)) s' out :
  Inv s -> Coherent W s -> thread_step W s = Done tt s' out -> Coherent W s'.
Proof.
  intros I C. rewrite thread_step_eq.
  destruct (thread s) as [| | | |i] eqn:Epc.
  - now intros [= <- _].
  - intros [= <- _]. apply (Coherent_pc s); auto; discriminate.
  - assert (Hl : loaded s = false)
      by (apply (inv_thread _ I); rewrite Epc; discriminate).
    rewrite preloadAllFilenames_eq.
    destruct (negb _).
    { intros [= <- _]. apply (Coherent_pc s); auto. }
    destruct (_ =? 0).
    { intros [= <- _]. apply (Coherent_pc s); auto. }
    intros [= <- _].
    apply (Coherent_pc (with_paths
             (firstn (Z.to_nat (numFiles W s)) (listed_paths W s)) s));
      auto; try discriminate.
    now apply with_paths_Coherent.
  - destruct (cancelLoading s).
    { intros [= <- _]. apply (Coherent_pc s); auto. }
    destruct (_ =? 0); intros [= <- _]; apply (Coherent_pc s); auto;
      discriminate.
  - destruct (preloadAllFrames_turn W i s) as [again s1 o1|] eqn:E1;
      [|discriminate].
    pose proof (preloadAllFrames_turn_Coherent _ _ _ _ _ C E1) as C1.
    destruct again; intros [= <- _]; apply (Coherent_pc s1); auto;
      discriminate.
Qed.

Lemma run_thread_Coherent steps (s : ofxImageSequence (F := F)) s' out :
  Inv s -> Coherent W s -> run_thread W steps s = Done tt s' out ->
  Coherent W s'.
Proof.
  revert s out. induction steps as [|n IH]; intros s out I C;
    cbn [run_thread].
  - now intros [= <- _].
  - rewrite bind_gets.
    destruct (thread s) eqn:Epc; try (now intros [= <- _]);
      intros E; apply bind_inv in E as ([] & s1 & o1 & o2 & E1 & E2 & _);
      exact (IH _ _ (thread_step_Inv W _ _ _ I E1)
               (thread_step_Coherent _ _ _ I C E1) E2).
Qed.

(** [unloadSequence] in full: the thread is run to its end, then the lists
    and the size are cleared. *)
Lemma unloadSequence_full (s : ofxImageSequence (F := F)) :
  Inv s -> Coherent W s ->
  exists s1 out,
    waitForThread W s = Done tt s1 out /\
    unloadSequence W s = Done tt (unloaded s1) out /\
    thread_writes s s1 /\ thread s1 = NotRunning /\ loading s1 = false /\
    Inv s1 /\ Inv (unloaded s1) /\ Coherent W s1 /\ Coherent W (unloaded s1).
Proof.
  intros I C.
  destruct (run_thread_ends W (thread_budget W s) s I (steps_left_budget W s))
    as (s1 & out & E & I1 & W1 & N1).
  pose proof (run_thread_Coherent _ _ _ _ I C E) as C1.
  exists s1, out.
  assert (Ew : waitForThread W s = Done tt s1 out)
    by (unfold waitForThread; now rewrite bind_gets).
  split; [exact Ew|]. split.
  { unfold unloadSequence. rewrite (bind_Done _ _ _ _ _ _ Ew).
    unfold bind, modify. cbn. now rewrite !app_nil_r. }
  split; [exact W1|]. split; [exact N1|]. split.
  { apply (coh_idle W s1 C1). now rewrite N1. }
  split; [exact I1|]. split; [now apply Inv_unloaded|].
  split; [exact C1|now apply unloaded_Coherent].
Qed.

Lemma show_first_frame_Coherent (s : ofxImageSequence (F := F)) s' out :
  Coherent W s -> show_first_frame W s = Done tt s' out -> Coherent W s'.
Proof.
  intros C. rewrite show_first_frame_eq.
  destruct (loadFrame W 0 _) as [[] s1 o1|] eqn:E1; [|discriminate].
  destruct (nth_error (sequence s1) 0) as [px|]; [|discriminate].
  intros [= <- _].
  assert (C0 : Coherent W (set_lastFrameLoaded (-1) (set_loaded true s))).
  { split; cbn; [exact (coh_slots W s C)|lia|exact (coh_idle W s C)]. }
  pose proof (loadFrame_Coherent _ _ _ _ C0 E1) as C1.
  now apply (Coherent_view s1).
Qed.

Lemma completeLoading_Coherent (s : ofxImageSequence (F := F)) s' out :
  Coherent W s -> completeLoading W s = Done tt s' out -> Coherent W s'.
Proof.
  intros C. rewrite completeLoading_eq.
  destruct (_ =? 0); [now intros [= <- _]|].
  now apply show_first_frame_Coherent.
Qed.

Lemma loadSequence_Coherent prefix filetype a b d
    (s : ofxImageSequence (F := F)) r s' out :
  Inv s -> Coherent W s ->
  loadSequence W prefix filetype a b d s = Done r s' out -> Coherent W s'.
Proof.
  intros I C E.
  destruct (unloadSequence_full s I C)
    as (s1 & o1 & _ & E1 & _ & N1 & _ & _ & _ & _ & C1).
  unfold loadSequence in E. rewrite (bind_Done _ _ _ _ _ _ E1) in E.
  destruct (wrap_int (wrap_int (b - a) + 1) <=? 0).
  - cbn in E. injection E as _ <- _. exact C1.
  - destruct (bind _ _ (unloaded s1)) as [r2 s2 o2|] eqn:E2; [|discriminate].
    injection E as _ <- _.
    apply bind_inv in E2 as ([] & s3 & o3 & o4 & Ep & E2 & _).
    apply bind_inv in E2 as ([] & s4 & o5 & o6 & Ef & E2 & _).
    injection E2 as _ <- _.
    apply pattern_loop_Done in Ep as (_ & names & -> & _).
    refine (show_first_frame_Coherent _ _ _ _ Ef).
    now apply with_paths_Coherent.
Qed.

Lemma loadSequence_folder_Coherent folder
    (s : ofxImageSequence (F := F)) r s' out :
  Inv s -> Coherent W s ->
  loadSequence_folder W folder s = Done r s' out -> Coherent W s'.
Proof.
  intros I C E.
  destruct (unloadSequence_full s I C)
    as (s1 & o1 & _ & E1 & _ & N1 & L1 & _ & _ & _ & C1).
  unfold loadSequence_folder in E. rewrite (bind_Done _ _ _ _ _ _ E1) in E.
  destruct (bind _ _ (unloaded s1)) as [r2 s2 o2|] eqn:E2; [|discriminate].
  injection E as _ <- _. revert E2. run_head.
  set (u := set_folderToLoad folder (unloaded s1)).
  assert (Cu : Coherent W u) by now apply (Coherent_view (unloaded s1)).
  destruct (useThread u).
  - unfold startThread. run_head.
    replace (thread u) with (@NotRunning) by (symmetry; exact N1).
    run_head. intros [= _ <-]. apply (Coherent_pc u); auto.
  - intros E2. apply bind_inv in E2 as (ok & s3 & o3 & o4 & Ep & E2 & _).
    rewrite preloadAllFilenames_eq in Ep.
    assert (C3 : Coherent W s3).
    { split_result Ep; injection Ep as _ <- _; auto.
      now apply with_paths_Coherent. }
    destruct ok.
    + apply bind_inv in E2 as ([] & s4 & o5 & o6 & Ec & E2 & _).
      injection E2 as _ <- _. exact (completeLoading_Coherent _ _ _ C3 Ec).
    + injection E2 as _ <- _. exact C3.
Qed.

Lemma setFrame_Coherent index (s : ofxImageSequence (F := F)) s' out :
  Coherent W s -> setFrame W index s = Done tt s' out -> Coherent W s'.
Proof.
  intros C. rewrite setFrame_eq.
  destruct (negb _); [now intros [= <- _]|].
  destruct (index <? 0); [now intros [= <- _]|]. cbv zeta.
  destruct (_ =? 0); [discriminate|].
  destruct (loadFrame W _ s) as [[] s1 o1|] eqn:E1; [|discriminate].
  intros [= <- _].
  apply (Coherent_view s1); auto.
  exact (loadFrame_Coherent _ _ _ _ C E1).
Qed.

Lemma setFrameAtPercent_Coherent percent (s : ofxImageSequence (F := F)) s' out :
  Coherent W s -> setFrameAtPercent W percent s = Done tt s' out ->
  Coherent W s'.
Proof.
  intros C E. unfold setFrameAtPercent in E.
  apply bind_inv in E as (x & s1 & o1 & o2 & Ex & E & _).
  apply getFrameIndexAtPercent_pure in Ex as [-> _].
  exact (setFrame_Coherent _ _ _ _ C E).
Qed.

Lemma notify_update_Coherent (s : ofxImageSequence (F := F)) s' out :
  Coherent W s -> notify_update W s = Done tt s' out -> Coherent W s'.
Proof.
  intros C. unfold notify_update, updateThreadedLoad, size. run_head.
  destruct (listening s); [|now intros [= <- _]].
  run_head. destruct (loading s); [now intros [= <- _]|].
  run_head. cbn [sequence set_listening].
  assert (C0 : Coherent W (set_listening false s))
    by now apply (Coherent_view s).
  destruct (0 <? _).
  - now apply completeLoading_Coherent.
  - now intros [= <- _].
Qed.

Lemma run_call_Coherent c (s : ofxImageSequence (F := F)) s' out :
  Inv s -> Coherent W s -> run_call W c s = Done tt s' out -> Coherent W s'.
Proof.
  intros I C E. destruct c; cbn [run_call] in E.
  - unfold discard in E. apply bind_inv in E as (r & s1 & o1 & o2 & E & [= <-] & _).
    exact (loadSequence_Coherent _ _ _ _ _ _ _ _ _ I C E).
  - unfold discard in E. apply bind_inv in E as (r & s1 & o1 & o2 & E & [= <-] & _).
    exact (loadSequence_Coherent _ _ _ _ _ _ _ _ _ I C E).
  - unfold discard in E. apply bind_inv in E as (r & s1 & o1 & o2 & E & [= <-] & _).
    exact (loadSequence_folder_Coherent _ _ _ _ _ I C E).
  - destruct (unloadSequence_full s I C)
      as (s1 & o1 & _ & E1 & _ & _ & _ & _ & _ & _ & C1).
    rewrite E1 in E. now injection E as <- _.
  - revert E. unfold setMaxFrames. run_head.
    destruct (loaded _); intros [= <- _]; now apply (Coherent_view s).
  - revert E. unfold setExtension, modify. intros [= <- _].
    now apply (Coherent_view s).
  - revert E. unfold enableThreadedLoad. rewrite bind_gets.
    destruct (loaded s); intros [= <- _]; now apply (Coherent_view s).
  - revert E. unfold cancelLoad. run_head.
    destruct (_ && _); intros [= <- _]; now apply (Coherent_view s).
  - revert E. unfold setMinMagFilter. run_head. intros [= <- _].
    now apply (Coherent_view s).
  - revert E. unfold setFrameRate, modify. intros [= <- _].
    now apply (Coherent_view s).
  - exact (preloadAllFrames_Coherent _ _ _ C E).
  - exact (loadFrame_Coherent _ _ _ _ C E).
  - exact (setFrame_Coherent _ _ _ _ C E).
  - revert E. unfold setFrameForTime, size. run_head.
    apply setFrameAtPercent_Coherent. exact C.
  - exact (setFrameAtPercent_Coherent _ _ _ _ C E).
  - exact (notify_update_Coherent _ _ _ C E).
  - exact (thread_step_Coherent _ _ _ I C E).
Qed.

(** Every state an object can be in is coherent. *)
Lemma reachable_Coherent (s : ofxImageSequence (F := F)) :
  reachable W s -> Coherent W s.
Proof.
  induction 1 as [w0 h0 f0 g0|s c s' out R IH Hc E].
  - apply construct_Coherent.
  - exact (run_call_Coherent _ _ _ _ (reachable_Inv W _ R) IH E).
Qed.

End CoherenceFacts.

(** * Further properties *)

(** ** The thread, unloading and the destructor *)

Section LifeCycle.

Context {F : Type} `{FloatOps F}.
Variable W : World.

(** What the thread leaves as it was. *)
Lemma thread_writes_keeps (s s' : ofxImageSequence (F := F)) :
  thread_writes s s' ->
  loaded s' = loaded s /\ useThread s' = useThread s /\
  frameRate s' = frameRate s /\ lastFrameLoaded s' = lastFrameLoaded s /\
  currentFrame s' = currentFrame s /\ maxFrames s' = maxFrames s /\
  width s' = width s /\ height s' = height s /\
  folderToLoad s' = folderToLoad s /\ extension s' = extension s /\
  texture s' = texture s /\ minFilter s' = minFilter s /\
  magFilter s' = magFilter s.
Proof. intros E. rewrite E. cbn. repeat split; reflexivity. Qed.

Lemma uploads_app (o1 o2 : list event) :
  uploads (o1 ++ o2) = (uploads o1 + uploads o2)%nat.
Proof. unfold uploads. now rewrite filter_app, length_app. Qed.

(** A step of the thread uploads nothing. *)
Lemma thread_step_no_upload (s : ofxImageSequence (F := F)) s' out :
  thread_step W s = Done tt s' out -> uploads out = 0%nat.
Proof.
  rewrite thread_step_eq. destruct (thread s) as [| | | |i].
  - now intros [= _ <-].
  - now intros [= _ <-].
  - rewrite preloadAllFilenames_eq.
    destruct (negb _); [now intros [= _ <-]|].
    destruct (_ =? 0); now intros [= _ <-].
  - destruct (cancelLoading s); [now intros [= _ <-]|].
    destruct (_ =? 0); now intros [= _ <-].
  - rewrite preloadAllFrames_turn_eq.
    destruct (_ <? _); [|now intros [= _ <-]].
    destruct (_ && _); [now intros [= _ <-]|].
    destruct (nth_error (sequence s) i); [|discriminate].
    destruct (nth_error (filenames s) i) as [name|]; [|discriminate].
    destruct (ofLoadImage W name); now intros [= _ <-].
Qed.

Lemma run_thread_no_upload steps (s : ofxImageSequence (F := F)) s' out :
  run_thread W steps s = Done tt s' out -> uploads out = 0%nat.
Proof.
  revert s out. induction steps as [|n IH]; intros s out; cbn [run_thread].
  - now intros [= _ <-].
  - rewrite bind_gets.
    destruct (thread s); try (now intros [= _ <-]);
      intros E; apply bind_inv in E as ([] & s1 & o1 & o2 & E1 & E2 & ->);
      rewrite uploads_app, (thread_step_no_upload _ _ _ E1), (IH _ _ E2);
      reflexivity.
Qed.

Lemma waitForThread_idle (s : ofxImageSequence (F := F)) :
  thread s = NotRunning -> waitForThread W s = Done tt s [].
Proof.
  intros Epc. unfold waitForThread. rewrite bind_gets.
  unfold thread_budget. cbn [plus run_thread]. now rewrite bind_gets, Epc.
Qed.

(** X1: The background thread always comes to its end: waiting for it returns,
    with the thread stopped and [loading] cleared.  The thread has written
    nothing but [filenames], [sequence], [loading], [cancelLoading] and the
    registration of the listener, and it has uploaded no texture. *)
Theorem waitForThread_returns s :
  reachable W s ->
  exists s' out,
    waitForThread W s = Done tt s' out /\
    thread s' = NotRunning /\ loading s' = false /\
    thread_writes s s' /\ uploads out = 0%nat /\
    (thread s = NotRunning -> s' = s /\ out = []).
Proof.
  intros R.
  pose proof (reachable_Inv W s R) as I.
  pose proof (reachable_Coherent W s R) as C.
  destruct (unloadSequence_full W s I C)
    as (s1 & out & Ew & _ & W1 & N1 & L1 & _).
  exists s1, out. split; [exact Ew|]. split; [exact N1|].
  split; [exact L1|]. split; [exact W1|]. split.
  - revert Ew. unfold waitForThread. rewrite bind_gets.
    apply run_thread_no_upload.
  - intros Epc. rewrite (waitForThread_idle s Epc) in Ew.
    now injection Ew as <- <-.
Qed.

(** X2: [unloadSequence] returns from every state: the lists are empty, the
    object is not loaded, its size is zero and no thread runs.  It leaves
    [currentFrame], [lastFrameLoaded] and the texture as they were, and a
    second [unloadSequence] changes nothing more. *)
Theorem unloadSequence_clears s :
  reachable W s ->
  exists s' out,
    unloadSequence W s = Done tt s' out /\
    sequence s' = [] /\ filenames s' = [] /\ loaded s' = false /\
    width s' = 0 /\ height s' = 0 /\
    thread s' = NotRunning /\ loading s' = false /\
    currentFrame s' = currentFrame s /\
    lastFrameLoaded s' = lastFrameLoaded s /\ texture s' = texture s /\
    uploads out = 0%nat /\
    unloadSequence W s' = Done tt s' [].
Proof.
  intros R.
  pose proof (reachable_Inv W s R) as I.
  pose proof (reachable_Coherent W s R) as C.
  destruct (unloadSequence_full W s I C)
    as (s1 & out & Ew & Eu & W1 & N1 & L1 & _).
  destruct (thread_writes_keeps s s1 W1)
    as (_ & _ & _ & Hlast & Hcur & _ & _ & _ & _ & _ & Htex & _).
  exists (unloaded s1), out. split; [exact Eu|].
  repeat (split; [first [reflexivity | assumption]|]). split.
  - revert Ew. unfold waitForThread. rewrite bind_gets.
    apply run_thread_no_upload.
  - now rewrite unloadSequence_idle.
Qed.

(** The destructor asks for the cancellation when a threaded load is under
    way, then waits and unloads. *)
Lemma destructor_eq (s : ofxImageSequence (F := F)) :
  destructor W s
  = (waitForThread W ;; unloadSequence W)
      (if useThread s && loading s then set_cancelLoading true s else s).
Proof.
  unfold destructor, cancelLoad. rewrite !bind_gets.
  destruct (useThread s) eqn:Eu, (loading s) eqn:El; cbn [andb];
    run_head; rewrite ?Eu, ?El; cbn [andb]; run_head; reflexivity.
Qed.

Lemma set_cancelLoading_Inv (s : ofxImageSequence (F := F)) v :
  Inv s -> Inv (set_cancelLoading v s).
Proof. intros I. now apply (shape_Inv s). Qed.

Lemma set_cancelLoading_Coherent (s : ofxImageSequence (F := F)) v :
  Coherent W s -> Coherent W (set_cancelLoading v s).
Proof. intros C. now apply (Coherent_view W s). Qed.

(** A thread that ends at its next step. *)
Lemma waitForThread_one_step (s : ofxImageSequence (F := F)) s1 out :
  thread s <> NotRunning -> thread_step W s = Done tt s1 out ->
  thread s1 = NotRunning -> waitForThread W s = Done tt s1 out.
Proof.
  intros Hpc E1 N1. unfold waitForThread. rewrite bind_gets.
  unfold thread_budget. cbn [plus run_thread]. rewrite bind_gets.
  destruct (thread s); [congruence| | | |];
    rewrite (bind_Done _ _ _ _ _ _ E1), bind_gets, N1; cbn;
    now rewrite app_nil_r.
Qed.

(** X3: The destructor returns from every state, with no thread running and the
    lists empty.  When it finds a threaded load at the cancel check or in
    the decoding loop, it cancels it: the thread ends at its next step, no
    further file is decoded and nothing is logged. *)
Theorem destructor_returns s :
  reachable W s ->
  (exists s' out,
     destructor W s = Done tt s' out /\
     thread s' = NotRunning /\ loading s' = false /\ loaded s' = false /\
     sequence s' = [] /\ filenames s' = [] /\ uploads out = 0%nat) /\
  (useThread s = true ->
   thread s = AtCancelCheck \/ (exists i, thread s = AtLoopHead i) ->
   exists s1,
     (cancelLoad ;; waitForThread W) s = Done tt s1 [] /\
     sequence s1 = sequence s /\ thread s1 = NotRunning /\
     destructor W s = Done tt (unloaded s1) []).
Proof.
  intros R.
  pose proof (reachable_Inv W s R) as I.
  pose proof (reachable_Coherent W s R) as C.
  set (s0 := if useThread s && loading s then set_cancelLoading true s else s).
  assert (I0 : Inv s0)
    by (unfold s0; destruct (_ && _); [now apply set_cancelLoading_Inv|exact I]).
  assert (C0 : Coherent W s0)
    by (unfold s0; destruct (_ && _);
        [now apply set_cancelLoading_Coherent|exact C]).
  split.
  - destruct (unloadSequence_full W s0 I0 C0)
      as (s1 & o1 & Ew & _ & _ & N1 & L1 & I1 & _ & C1 & _).
    destruct (unloadSequence_full W s1 I1 C1)
      as (s2 & o2 & Ew2 & Eu2 & _ & N2 & L2 & _).
    rewrite (waitForThread_idle s1 N1) in Ew2. injection Ew2 as <- <-.
    exists (unloaded s1), (o1 ++ []).
    split.
    { rewrite destructor_eq. fold s0.
      now rewrite (bind_Done _ _ _ _ _ _ Ew), Eu2. }
    repeat (split; [first [reflexivity | assumption]|]).
    rewrite app_nil_r. revert Ew. unfold waitForThread. rewrite bind_gets.
    apply run_thread_no_upload.
  - intros Eu Hpc.
    assert (Hf : in_flight (thread s) = true)
      by (destruct Hpc as [->|[i ->]]; reflexivity).
    destruct (inv_in_flight _ I Hf) as [El _].
    assert (E0 : s0 = set_cancelLoading true s)
      by (unfold s0; now rewrite Eu, El).
    assert (Ecl : cancelLoad s = Done tt s0 []).
    { unfold cancelLoad. run_head. rewrite Eu, El. cbn [andb]. now rewrite E0. }
    assert (Es : exists s1,
               thread_step W s0 = Done tt s1 [] /\ thread s1 = NotRunning /\
               sequence s1 = sequence s).
    { rewrite thread_step_eq, E0. cbn [thread set_cancelLoading cancelLoading].
      destruct Hpc as [->|[i ->]].
      - eexists. split; [reflexivity|]. split; reflexivity.
      - rewrite preloadAllFrames_turn_eq.
        cbn [sequence useThread cancelLoading set_cancelLoading].
        rewrite Eu. cbn [andb].
        destruct (_ <? _); eexists; (split; [reflexivity|]); split; reflexivity. }
    destruct Es as (s1 & E1 & N1 & Hs1).
    assert (Hpc0 : thread s0 <> NotRunning).
    { rewrite E0. cbn. destruct Hpc as [->|[i ->]]; discriminate. }
    pose proof (waitForThread_one_step s0 s1 [] Hpc0 E1 N1) as Ew.
    exists s1. split; [|split; [exact Hs1|split; [exact N1|]]].
    + now rewrite (bind_Done _ _ _ _ _ _ Ecl), Ew.
    + rewrite destructor_eq. fold s0.
      now rewrite (bind_Done _ _ _ _ _ _ Ew), (unloadSequence_idle W s1 N1).
Qed.

(** X4: [cancelLoad] takes effect only while the thread is past its first step:
    before that, and once the thread has ended, it changes nothing; in
    between, on a threaded object, it sets [cancelLoading]. *)
Theorem cancelLoad_only_in_flight s :
  reachable W s ->
  (in_flight (thread s) = false -> cancelLoad s = Done tt s []) /\
  (in_flight (thread s) = true -> useThread s = true ->
   cancelLoad s = Done tt (set_cancelLoading true s) []) /\
  (thread s = AtEntry ->
   exists s1,
     (cancelLoad ;; thread_step W) s = Done tt s1 [] /\
     cancelLoading s1 = false /\ loading s1 = true /\
     thread s1 = AtPreloadFilenames).
Proof.
  intros R.
  pose proof (reachable_Inv W s R) as I.
  pose proof (reachable_Coherent W s R) as C.
  assert (Idle : in_flight (thread s) = false -> cancelLoad s = Done tt s []).
  { intros Hf. unfold cancelLoad. run_head.
    rewrite (coh_idle W s C Hf). now rewrite andb_false_r. }
  split; [exact Idle|]. split.
  - intros Hf Eu. destruct (inv_in_flight _ I Hf) as [El _].
    unfold cancelLoad. run_head. now rewrite Eu, El.
  - intros Epc.
    rewrite (bind_Done _ _ _ _ _ _ (Idle ltac:(now rewrite Epc))).
    rewrite thread_step_eq, Epc. eexists. split; [reflexivity|].
    repeat split.
Qed.

(** X5: In threaded mode [loadSequence(folder)] returns [true] whatever the
    folder is: it unloads, records the folder and starts the thread, and
    lists nothing itself. *)
Theorem loadSequence_folder_threaded s folder :
  reachable W s -> useThread s = true ->
  exists s' out,
    loadSequence_folder W folder s = Done true s' out /\
    loaded s' = false /\ loading s' = false /\
    sequence s' = [] /\ filenames s' = [] /\
    folderToLoad s' = folder /\ thread s' = AtEntry /\
    useThread s' = true /\ uploads out = 0%nat.
Proof.
  intros R Eu.
  pose proof (reachable_Inv W s R) as I.
  pose proof (reachable_Coherent W s R) as C.
  destruct (unloadSequence_full W s I C)
    as (s1 & o1 & Ew & E1 & W1 & N1 & L1 & _).
  destruct (thread_writes_keeps s s1 W1) as (_ & Eu1 & _).
  exists (set_thread AtEntry (set_folderToLoad folder (unloaded s1))), (o1 ++ []).
  split.
  - unfold loadSequence_folder. rewrite (bind_Done _ _ _ _ _ _ E1).
    run_head. cbn [useThread set_folderToLoad unloaded set_height set_width
                   set_loaded set_filenames set_sequence].
    rewrite Eu1, Eu. unfold startThread. run_head.
    cbn [thread set_folderToLoad unloaded set_height set_width
         set_loaded set_filenames set_sequence].
    rewrite N1. run_head. reflexivity.
  - cbn. repeat (split; [first [reflexivity | assumption | congruence]|]).
    rewrite app_nil_r. revert Ew. unfold waitForThread. rewrite bind_gets.
    apply run_thread_no_upload.
Qed.

(** X6: An update notification never fails, and a second one right after it
    changes nothing: the listener is removed when the load is completed, and
    while the thread is loading the notification is ignored. *)
Theorem notify_update_settles s :
  reachable W s ->
  exists s1 out,
    notify_update W s = Done tt s1 out /\
    notify_update W s1 = Done tt s1 [] /\
    (listening s = false \/ loading s = true -> s1 = s /\ out = []) /\
    (listening s = true -> loading s = false -> sequence s <> [] ->
     loaded s1 = true /\ listening s1 = false).
Proof.
  intros R.
  pose proof (reachable_Inv W s R) as I.
  unfold notify_update at 1. unfold updateThreadedLoad, size. run_head.
  destruct (listening s) eqn:Eli.
  2:{ exists s, []. split; [reflexivity|]. split.
      - unfold notify_update. run_head. now rewrite Eli.
      - split; [auto|discriminate]. }
  run_head. destruct (loading s) eqn:Elo.
  { exists s, []. split; [reflexivity|]. split.
    - unfold notify_update, updateThreadedLoad. run_head.
      rewrite Eli. run_head. now rewrite Elo.
    - split; [auto|discriminate]. }
  run_head. cbn [sequence set_listening].
  assert (Quiet : forall s1 : ofxImageSequence (F := F),
             listening s1 = false -> notify_update W s1 = Done tt s1 []).
  { intros s1 E1. unfold notify_update. run_head. now rewrite E1. }
  destruct (Z.ltb_spec 0 (Z.of_nat (List.length (sequence s)))) as [Hpos|Hzero].
  - rewrite completeLoading_eq. cbn [sequence set_listening].
    destruct (Z.eqb_spec (Z.of_nat (List.length (sequence s))) 0); [lia|].
    assert (Hne : sequence (set_listening false s) <> [])
      by (cbn; intros E0; rewrite E0 in Hpos; cbn in Hpos; lia).
    destruct (show_first_frame_total W (set_listening false s) Hne
                (inv_names _ I)) as (s1 & out & E1).
    destruct (show_first_frame_Done W _ _ _ E1)
      as (px & rest & _ & Hl & _ & _ & _ & _ & _ & _ & Hli & _).
    exists s1, out. split; [exact E1|]. split; [now apply Quiet|].
    split; [intros [?|?]; discriminate|]. intros _ _ _. split; assumption.
  - exists (set_listening false s), []. split; [reflexivity|].
    split; [now apply Quiet|].
    split; [intros [?|?]; discriminate|]. intros _ _ Hne.
    destruct (sequence s); [congruence|cbn in Hzero; lia].
Qed.

End LifeCycle.

(** ** Decoding every frame *)

Section Decoding.

Context {F : Type} `{FloatOps F}.
Variable W : World.

Lemma vector_set_app {A} (pre post : list A) x a :
  vector_set (pre ++ x :: post) (List.length pre) a = pre ++ a :: post.
Proof. induction pre as [|y pre IH]; simpl; [reflexivity|now rewrite IH]. Qed.

Lemma nth_error_middle {A} (pre post : list A) x :
  nth_error (pre ++ x :: post) (List.length pre) = Some x.
Proof. induction pre as [|y pre IH]; simpl; [reflexivity|exact IH]. Qed.

Lemma set_sequence_same (s : ofxImageSequence (F := F)) :
  set_sequence (sequence s) s = s.
Proof. now destruct s. Qed.

Lemma decode_slots_length names slots :
  List.length (decode_slots W names slots) = List.length slots.
Proof.
  revert slots. induction names as [|name names IH]; intros [|px slots];
    simpl; auto.
Qed.

(** From unallocated slots, what is left is what the decoder answers. *)
Lemma decode_slots_fresh names :
  decode_slots W names (repeat None (List.length names))
  = map (ofLoadImage W) names.
Proof.
  induction names as [|name names IH]; simpl; [reflexivity|].
  rewrite IH. now destruct (ofLoadImage W name).
Qed.

(** The turns of the loop from slot [length pre] on, when nothing cancels
    them. *)
Lemma preloadAllFrames_loop_decodes names :
  forall slots pre npre (s : ofxImageSequence (F := F)) turns,
    sequence s = pre ++ slots -> filenames s = npre ++ names ->
    List.length npre = List.length pre ->
    List.length names = List.length slots ->
    (List.length slots < turns)%nat ->
    useThread s && cancelLoading s = false ->
    preloadAllFrames_loop W turns (List.length pre) s
    = Done tt (set_sequence (pre ++ decode_slots W names slots) s)
        (decode_errors W names).
Proof.
  induction names as [|name names IH];
    intros slots pre npre s turns Es En Hpre Hlen Hturns Hflag;
    destruct slots as [|px slots]; try discriminate;
    (destruct turns as [|t]; [simpl in Hturns; lia|]);
    cbn [preloadAllFrames_loop decode_slots decode_errors].
  - rewrite (bind_Done _ _ _ false s []).
    + rewrite <- Es, set_sequence_same. reflexivity.
    + rewrite preloadAllFrames_turn_eq, Es, app_nil_r.
      now rewrite Z.ltb_irrefl.
  - assert (Hin : (Z.of_nat (List.length pre)
                   <? Z.of_nat (List.length (sequence s))) = true).
    { apply Z.ltb_lt. rewrite Es, length_app. simpl. lia. }
    assert (Ex : nth_error (sequence s) (List.length pre) = Some px)
      by (rewrite Es; apply nth_error_middle).
    assert (Ey : nth_error (filenames s) (List.length pre) = Some name)
      by (rewrite En, <- Hpre; apply nth_error_middle).
    pose proof (preloadAllFrames_turn_eq W (List.length pre) s) as Et.
    rewrite Hin, Hflag, Ex, Ey in Et.
    simpl in Hlen, Hturns.
    destruct (ofLoadImage W name) as [img|] eqn:Ed.
    + rewrite (bind_Done _ _ _ _ _ _ Et).
      replace (S (List.length pre)) with (List.length (pre ++ [Some img]))
        by (rewrite length_app; simpl; lia).
      rewrite (IH slots (pre ++ [Some img]) (npre ++ [name])).
      * cbn. now rewrite <- app_assoc.
      * cbn [sequence set_sequence]. rewrite Es, vector_set_app.
        now rewrite <- app_assoc.
      * cbn [filenames set_sequence]. rewrite En. now rewrite <- app_assoc.
      * rewrite !length_app. simpl. lia.
      * lia.
      * lia.
      * exact Hflag.
    + rewrite (bind_Done _ _ _ _ _ _ Et).
      replace (S (List.length pre)) with (List.length (pre ++ [px]))
        by (rewrite length_app; simpl; lia).
      rewrite (IH slots (pre ++ [px]) (npre ++ [name])).
      * cbn. now rewrite <- app_assoc.
      * rewrite Es. now rewrite <- app_assoc.
      * rewrite En. now rewrite <- app_assoc.
      * rewrite !length_app. simpl. lia.
      * lia.
      * lia.
      * exact Hflag.
Qed.

(** X7: [preloadAllFrames] hands every file to the decoder, in order: a slot
    whose file decodes holds the pixels decoded, the others are as they were,
    with one error logged for each file that does not decode.  Nothing is
    uploaded and nothing else changes.  On an empty sequence it logs an error
    and changes nothing. *)
Theorem preloadAllFrames_decodes_all s :
  reachable W s -> useThread s && cancelLoading s = false ->
  (sequence s <> [] ->
   preloadAllFrames W s
   = Done tt (set_sequence (decode_slots W (filenames s) (sequence s)) s)
       (decode_errors W (filenames s))) /\
  (sequence s = [] ->
   preloadAllFrames W s
   = Done tt s [ofLogError "ofxImageSequence::loadFrame"
                  "Calling preloadAllFrames on unitialized image sequence."]) /\
  uploads (decode_errors W (filenames s)) = 0%nat.
Proof.
  intros R Hflag. pose proof (reachable_Inv W s R) as I.
  split; [|split].
  - intros Hne. unfold preloadAllFrames, size. run_head.
    destruct (Z.eqb_spec (Z.of_nat (List.length (sequence s))) 0) as [E0|_].
    { destruct (sequence s); [congruence|discriminate]. }
    run_head.
    exact (preloadAllFrames_loop_decodes (filenames s) (sequence s) [] [] s
             (S (List.length (sequence s))) eq_refl eq_refl eq_refl
             (inv_names _ I) ltac:(lia) Hflag).
  - intros E0. unfold preloadAllFrames, size. run_head. now rewrite E0.
  - induction (filenames s) as [|name names IH]; [reflexivity|].
    simpl. now destruct (ofLoadImage W name).
Qed.

(** While [cancelLoading] is set on a threaded object, [preloadAllFrames]
    leaves the loop at its first turn. *)
Lemma preloadAllFrames_flagged (s : ofxImageSequence (F := F)) :
  sequence s <> [] -> useThread s = true -> cancelLoading s = true ->
  preloadAllFrames W s = Done tt s [].
Proof.
  intros Hne Eu Ec.
  unfold preloadAllFrames, size. run_head.
  destruct (Z.eqb_spec (Z.of_nat (List.length (sequence s))) 0) as [E0|_].
  { destruct (sequence s); [congruence|discriminate]. }
  run_head. cbn [preloadAllFrames_loop].
  rewrite (bind_Done _ _ _ false s []); [reflexivity|].
  rewrite preloadAllFrames_turn_eq, Eu, Ec.
  destruct (sequence s); [congruence|reflexivity].
Qed.

Lemma run_thread_idle steps (s : ofxImageSequence (F := F)) :
  thread s = NotRunning -> run_thread W steps s = Done tt s [].
Proof.
  intros Epc. destruct steps; cbn [run_thread]; [reflexivity|].
  now rewrite bind_gets, Epc.
Qed.

Lemma run_thread_step steps (s : ofxImageSequence (F := F)) s1 o1 :
  thread s <> NotRunning -> thread_step W s = Done tt s1 o1 ->
  run_thread W (S steps) s
  = match run_thread W steps s1 with
    | Done _ s2 o2 => Done tt s2 (o1 ++ o2)
    | Fault f => Fault f
    end.
Proof.
  intros Hpc E1. cbn [run_thread]. rewrite bind_gets.
  destruct (thread s); [congruence| | | |];
    rewrite (bind_Done _ _ _ _ _ _ E1);
    destruct (run_thread W steps s1) as [[] ? ?|]; reflexivity.
Qed.

(** The thread in the decoding loop, from slot [length pre] on, when nothing
    cancels it. *)
Lemma run_thread_decodes names :
  forall slots pre npre (s : ofxImageSequence (F := F)) steps,
    thread s = AtLoopHead (List.length pre) ->
    sequence s = pre ++ slots -> filenames s = npre ++ names ->
    List.length npre = List.length pre ->
    List.length names = List.length slots ->
    (List.length slots < steps)%nat ->
    useThread s && cancelLoading s = false ->
    run_thread W steps s
    = Done tt
        (set_thread NotRunning
           (set_loading false
              (set_sequence (pre ++ decode_slots W names slots) s)))
        (decode_errors W names).
Proof.
  induction names as [|name names IH];
    intros slots pre npre s steps Epc Es En Hpre Hlen Hsteps Hflag;
    destruct slots as [|px slots]; try discriminate;
    (destruct steps as [|t]; [simpl in Hsteps; lia|]);
    cbn [decode_slots decode_errors];
    assert (Hpc : thread s <> NotRunning) by (rewrite Epc; discriminate).
  - assert (E1 : thread_step W s
                 = Done tt (set_thread NotRunning (set_loading false s)) []).
    { rewrite thread_step_eq, Epc, preloadAllFrames_turn_eq, Es, app_nil_r.
      now rewrite Z.ltb_irrefl. }
    rewrite (run_thread_step _ _ _ _ Hpc E1), run_thread_idle by reflexivity.
    rewrite <- Es, set_sequence_same. reflexivity.
  - assert (Hin : (Z.of_nat (List.length pre)
                   <? Z.of_nat (List.length (sequence s))) = true).
    { apply Z.ltb_lt. rewrite Es, length_app. simpl. lia. }
    assert (Ex : nth_error (sequence s) (List.length pre) = Some px)
      by (rewrite Es; apply nth_error_middle).
    assert (Ey : nth_error (filenames s) (List.length pre) = Some name)
      by (rewrite En, <- Hpre; apply nth_error_middle).
    pose proof (thread_step_eq W s) as Et.
    rewrite Epc, preloadAllFrames_turn_eq, Hin, Hflag, Ex, Ey in Et.
    simpl in Hlen, Hsteps.
    destruct (ofLoadImage W name) as [img|] eqn:Ed.
    + rewrite (run_thread_step _ _ _ _ Hpc Et).
      rewrite (IH slots (pre ++ [Some img]) (npre ++ [name])).
      * cbn. now rewrite <- app_assoc.
      * cbn [thread set_thread]. rewrite length_app. simpl.
        f_equal. lia.
      * cbn [sequence set_sequence set_thread]. rewrite Es, vector_set_app.
        now rewrite <- app_assoc.
      * cbn [filenames set_sequence set_thread]. rewrite En.
        now rewrite <- app_assoc.
      * rewrite !length_app. simpl. lia.
      * lia.
      * lia.
      * exact Hflag.
    + rewrite (run_thread_step _ _ _ _ Hpc Et).
      rewrite (IH slots (pre ++ [px]) (npre ++ [name])).
      * cbn. now rewrite <- app_assoc.
      * cbn [thread set_thread]. rewrite length_app. simpl.
        f_equal. lia.
      * cbn [sequence set_thread]. rewrite Es. now rewrite <- app_assoc.
      * cbn [filenames set_thread]. rewrite En. now rewrite <- app_assoc.
      * rewrite !length_app. simpl. lia.
      * lia.
      * lia.
      * exact Hflag.
Qed.

End Decoding.

(** ** Loading a folder *)

Section FolderLoad.

Context {F : Type} `{FloatOps F}.
Variable W : World.

(** The listing depends on the extension, the folder and the limit only. *)
Lemma numFiles_view (s s' : ofxImageSequence (F := F)) :
  extension s' = extension s -> folderToLoad s' = folderToLoad s ->
  maxFrames s' = maxFrames s ->
  numFiles W s' = numFiles W s /\ listed_paths W s' = listed_paths W s.
Proof.
  intros Ee Ef Em. unfold numFiles, listed_paths, listing.
  now rewrite Ee, Ef, Em.
Qed.

Lemma folder_paths_length folder (s : ofxImageSequence (F := F)) :
  List.length (folder_paths W folder s)
  = Z.to_nat (numFiles W (set_folderToLoad folder s)).
Proof.
  unfold folder_paths. rewrite length_firstn.
  pose proof (numFiles_le W (set_folderToLoad folder s)). lia.
Qed.

(** The first frame of a sequence that was just listed: slot 0 is handed to
    the decoder, and no other. *)
Lemma show_first_frame_listed (s : ofxImageSequence (F := F)) name names :
  filenames s = name :: names ->
  sequence s = repeat None (S (List.length names)) ->
  exists s' out,
    show_first_frame W s = Done tt s' out /\
    sequence s' = ofLoadImage W name :: repeat None (List.length names) /\
    lastFrameLoaded s' = match ofLoadImage W name with
                         | Some _ => 0
                         | None => -1
                         end /\
    out = match ofLoadImage W name with
          | Some img => [texture_loadData img]
          | None => [ofLogError "ofxImageSequence::loadFrame"
                       ("Pixels not allocated: " ++ name)]
          end /\
    maxFrames s' = maxFrames s.
Proof.
  intros En Es. rewrite show_first_frame_eq.
  set (s0 := set_lastFrameLoaded (-1) (set_loaded true s)).
  assert (Es0 : sequence s0 = None :: repeat None (List.length names))
    by exact Es.
  assert (En0 : filenames s0 = name :: names) by exact En.
  pose proof (loadFrame_eq W 0 s0) as E.
  change (lastFrameLoaded s0 =? 0) with false in E.
  replace ((0 <? 0) || (Z.of_nat (List.length (sequence s0)) <=? 0))
    with false in E
    by (rewrite Es0; cbn [List.length]; symmetry; apply orb_false_iff;
        split; [reflexivity|apply Z.leb_gt; lia]).
  change (Z.to_nat 0) with 0%nat in E. rewrite Es0, En0 in E.
  cbn [nth_error] in E. rewrite E.
  destruct (ofLoadImage W name) as [img|] eqn:Ed.
  - cbn [sequence set_lastFrameLoaded upload_into set_texture set_sequence
         vector_set nth_error].
    eexists. eexists. split; [reflexivity|]. repeat split.
  - rewrite Es0. cbn [nth_error].
    eexists. eexists. split; [reflexivity|]. cbn. rewrite Es. repeat split.
Qed.

Lemma loadSequence_folder_direct_full (s : ofxImageSequence (F := F)) folder :
  reachable W s -> useThread s = false ->
  let s0 := set_folderToLoad folder s in
  (file_exists W folder = false ->
   exists s' out,
     loadSequence_folder W folder s
     = Done false s'
         (out ++ [ofLogError "ofxImageSequence::loadSequence"
                    ("Could not find folder " ++ folder)]) /\
     loaded s' = false /\ sequence s' = [] /\ filenames s' = [] /\
     uploads out = 0%nat) /\
  (file_exists W folder = true -> numFiles W s0 = 0 ->
   exists s' out,
     loadSequence_folder W folder s
     = Done false s'
         (out ++ [ofLogError "ofxImageSequence::loadSequence"
                    ("No image files found in " ++ folder)]) /\
     loaded s' = false /\ sequence s' = [] /\ filenames s' = [] /\
     uploads out = 0%nat) /\
  (file_exists W folder = true -> 0 < numFiles W s0 ->
   exists s' out name names,
     loadSequence_folder W folder s = Done true s' out /\
     folder_paths W folder s = name :: names /\
     loaded s' = true /\ filenames s' = name :: names /\
     sequence s' = ofLoadImage W name :: repeat None (List.length names) /\
     Z.of_nat (List.length (sequence s')) = numFiles W s0 /\
     width s' = getWidth_px (ofLoadImage W name) /\
     height s' = getHeight_px (ofLoadImage W name) /\
     (uploads out <= 1)%nat /\ maxFrames s' = maxFrames s).
Proof.
  intros R Eu s0. subst s0. set (s0 := set_folderToLoad folder s).
  pose proof (reachable_Inv W s R) as I.
  pose proof (reachable_Coherent W s R) as C.
  destruct (unloadSequence_full W s I C)
    as (s1 & o1 & Ew & E1 & W1 & N1 & L1 & _).
  destruct (thread_writes_keeps s s1 W1)
    as (_ & Eu1 & _ & _ & _ & Em & _ & _ & _ & Ee & _).
  assert (U1 : uploads o1 = 0%nat).
  { revert Ew. unfold waitForThread. rewrite bind_gets.
    apply run_thread_no_upload. }
  set (u := set_folderToLoad folder (unloaded s1)).
  destruct (numFiles_view s0 u Ee eq_refl Em) as [Hnum Hlist].
  assert (Eload : loadSequence_folder W folder s
                  = match (ok <- preloadAllFilenames W ;;
                           if ok then completeLoading W ;; ret true
                           else ret false) u with
                    | Done b s2 o2 => Done b s2 (o1 ++ o2)
                    | Fault f => Fault f
                    end).
  { unfold loadSequence_folder. rewrite (bind_Done _ _ _ _ _ _ E1).
    run_head. fold u.
    replace (useThread u) with false by (cbn; congruence).
    reflexivity. }
  pose proof (preloadAllFilenames_eq W u) as Ep.
  change (folderToLoad u) with folder in Ep. rewrite Hnum in Ep.
  split; [|split].
  - intros Hmissing. rewrite Hmissing in Ep. cbn [negb] in Ep.
    exists u, o1. rewrite Eload, (bind_Done _ _ _ _ _ _ Ep).
    split; [reflexivity|]. repeat split. exact U1.
  - intros Hthere Hnone. rewrite Hthere, Hnone in Ep. cbn [negb Z.eqb] in Ep.
    exists u, o1. rewrite Eload, (bind_Done _ _ _ _ _ _ Ep).
    split; [reflexivity|]. repeat split. exact U1.
  - intros Hthere Hsome. rewrite Hthere in Ep. cbn [negb] in Ep.
    destruct (Z.eqb_spec (numFiles W s0) 0) as [|_]; [lia|].
    rewrite Hlist in Ep.
    pose proof (folder_paths_length folder s) as Hlen. fold s0 in Hlen.
    destruct (folder_paths W folder s) as [|name names] eqn:Epaths;
      [simpl in Hlen; lia|].
    unfold folder_paths in Epaths. fold s0 in Epaths. rewrite Epaths in Ep.
    set (v := with_paths (name :: names) u) in Ep.
    destruct (show_first_frame_listed v name names eq_refl eq_refl)
      as (s' & out & Ef & Hseq & Hlast & Hout & Hmax).
    destruct (show_first_frame_Done W _ _ _ Ef)
      as (px & rest & Hpx & Hl & Hw & Hh & _ & Hn & _).
    rewrite Hseq in Hpx. injection Hpx as <- <-.
    exists s', (o1 ++ [] ++ out ++ []), name, names.
    split.
    { rewrite Eload, (bind_Done _ _ _ _ _ _ Ep).
      assert (Ec : completeLoading W v = Done tt s' out).
      { rewrite completeLoading_eq.
        destruct (Z.eqb_spec (Z.of_nat (List.length (sequence v))) 0) as [E0|_];
          [discriminate|exact Ef]. }
      now rewrite (bind_Done _ _ _ _ _ _ Ec). }
    split; [reflexivity|]. split; [exact Hl|]. split; [exact Hn|].
    split; [exact Hseq|]. split.
    { rewrite Hseq. cbn [List.length]. rewrite repeat_length.
      simpl in Hlen. lia. }
    split; [exact Hw|]. split; [exact Hh|]. split.
    { rewrite !uploads_app, U1, Hout.
      destruct (ofLoadImage W name); cbn; lia. }
    rewrite Hmax. exact Em.
Qed.

(** X8: Without a thread, [loadSequence(folder)] fails with an error, leaving
    the object unloaded and empty, when the folder does not exist or
    nothing is listed in it; otherwise it takes the first [numFiles] paths
    listed, decodes the first of them and no other, and marks the object
    loaded. *)
Theorem loadSequence_folder_direct s folder :
  reachable W s -> useThread s = false ->
  let s0 := set_folderToLoad folder s in
  (file_exists W folder = false ->
   exists s' out,
     loadSequence_folder W folder s
     = Done false s'
         (out ++ [ofLogError "ofxImageSequence::loadSequence"
                    ("Could not find folder " ++ folder)]) /\
     loaded s' = false /\ sequence s' = [] /\ filenames s' = [] /\
     uploads out = 0%nat) /\
  (file_exists W folder = true -> numFiles W s0 = 0 ->
   exists s' out,
     loadSequence_folder W folder s
     = Done false s'
         (out ++ [ofLogError "ofxImageSequence::loadSequence"
                    ("No image files found in " ++ folder)]) /\
     loaded s' = false /\ sequence s' = [] /\ filenames s' = [] /\
     uploads out = 0%nat) /\
  (file_exists W folder = true -> 0 < numFiles W s0 ->
   exists s' out name names,
     loadSequence_folder W folder s = Done true s' out /\
     folder_paths W folder s = name :: names /\
     loaded s' = true /\ filenames s' = name :: names /\
     sequence s' = ofLoadImage W name :: repeat None (List.length names) /\
     Z.of_nat (List.length (sequence s')) = numFiles W s0 /\
     width s' = getWidth_px (ofLoadImage W name) /\
     height s' = getHeight_px (ofLoadImage W name) /\
     (uploads out <= 1)%nat).
Proof.
  intros R Eu s0.
  destruct (loadSequence_folder_direct_full s folder R Eu)
    as (Missing & Empty & Taken).
  split; [exact Missing|]. split; [exact Empty|].
  intros Hthere Hsome.
  destruct (Taken Hthere Hsome)
    as (s' & out & name & names & El & Ep & Hl & Hf & Hs & Hn & Hw & Hh & Hu & _).
  exists s', out, name, names. repeat (split; [assumption|]). assumption.
Qed.

(** What [loadSequence(folder)] does in threaded mode. *)
Lemma loadSequence_folder_threaded_eq (s : ofxImageSequence (F := F)) folder :
  Inv s -> Coherent W s -> useThread s = true ->
  exists s1 o1,
    waitForThread W s = Done tt s1 o1 /\ thread_writes s s1 /\
    thread s1 = NotRunning /\ loading s1 = false /\ uploads o1 = 0%nat /\
    loadSequence_folder W folder s
    = Done true (set_thread AtEntry (set_folderToLoad folder (unloaded s1))) o1.
Proof.
  intros I C Eu.
  destruct (unloadSequence_full W s I C)
    as (s1 & o1 & Ew & E1 & W1 & N1 & L1 & _).
  destruct (thread_writes_keeps s s1 W1) as (_ & Eu1 & _).
  exists s1, o1. split; [exact Ew|]. split; [exact W1|].
  split; [exact N1|]. split; [exact L1|]. split.
  { revert Ew. unfold waitForThread. rewrite bind_gets.
    apply run_thread_no_upload. }
  unfold loadSequence_folder. rewrite (bind_Done _ _ _ _ _ _ E1).
  run_head. cbn [useThread set_folderToLoad unloaded set_height set_width
                 set_loaded set_filenames set_sequence].
  rewrite Eu1, Eu. unfold startThread. run_head.
  cbn [thread set_folderToLoad unloaded set_height set_width
       set_loaded set_filenames set_sequence].
  rewrite N1. run_head. unfold ret. now rewrite app_nil_r.
Qed.

Lemma decode_errors_no_upload names : uploads (decode_errors W names) = 0%nat.
Proof.
  induction names as [|name names IH]; [reflexivity|].
  simpl. now destruct (ofLoadImage W name).
Qed.

Lemma map_saturated (s : ofxImageSequence (F := F)) :
  sequence s = map (ofLoadImage W) (filenames s) -> saturated_slots W s.
Proof.
  intros Es k name Ek En. rewrite Es in Ek.
  rewrite (map_nth_error _ _ _ En) in Ek. now injection Ek.
Qed.

(** Presenting a frame of a sequence with every file decoded that decodes:
    the slots stay as they are. *)
Lemma loadFrame_saturated i (s : ofxImageSequence (F := F)) s' out :
  saturated_slots W s -> loadFrame W i s = Done tt s' out ->
  sequence s' = sequence s /\ filenames s' = filenames s /\
  (uploads out <= 1)%nat.
Proof.
  intros Hs. rewrite loadFrame_eq.
  destruct (lastFrameLoaded s =? i); [intros [= <- <-]; cbn; auto|].
  destruct (_ || _); [intros [= <- <-]; cbn; auto|].
  destruct (nth_error (sequence s) (Z.to_nat i)) as [[img|]|] eqn:Ei;
    [| |discriminate].
  - intros [= <- <-]. cbn. auto.
  - destruct (nth_error (filenames s) (Z.to_nat i)) as [name|] eqn:En;
      [|discriminate].
    rewrite (Hs _ _ Ei En). intros [= <- <-]. cbn. auto.
Qed.

Lemma show_first_frame_saturated (s : ofxImageSequence (F := F)) s' out :
  saturated_slots W s -> show_first_frame W s = Done tt s' out ->
  sequence s' = sequence s /\ (uploads out <= 1)%nat.
Proof.
  intros Hs. rewrite show_first_frame_eq.
  destruct (loadFrame W 0 _) as [[] s1 o1|] eqn:E1; [|discriminate].
  destruct (nth_error (sequence s1) 0) as [px|]; [|discriminate].
  intros [= <- <-].
  destruct (loadFrame_saturated 0
              (set_lastFrameLoaded (-1) (set_loaded true s)) _ _ Hs E1)
    as (Hseq & _ & Hup).
  split; [exact Hseq|exact Hup].
Qed.

(** X9: A threaded load that nothing cancels, seen from the owner: after
    [loadSequence(folder)] on an existing folder with files, once the thread
    has come to its end the next update notification marks the object
    loaded, with the paths listed as [filenames], every file handed to the
    decoder once and frame 0 presented if it decoded. *)
Theorem threaded_load_completes s folder :
  reachable W s -> useThread s = true ->
  file_exists W folder = true ->
  0 < numFiles W (set_folderToLoad folder s) ->
  exists s' out,
    (loadSequence_folder W folder ;; waitForThread W ;; notify_update W) s
    = Done tt s' out /\
    loaded s' = true /\ loading s' = false /\ thread s' = NotRunning /\
    listening s' = false /\
    filenames s' = folder_paths W folder s /\
    sequence s' = map (ofLoadImage W) (filenames s') /\
    sized_from_slot_0 s' /\ (uploads out <= 1)%nat.
Proof.
  intros R Eu Hthere Hsome.
  pose proof (reachable_Inv W s R) as I.
  pose proof (reachable_Coherent W s R) as C.
  destruct (loadSequence_folder_threaded_eq s folder I C Eu)
    as (s1 & o1 & _ & W1 & N1 & L1 & U1 & Eload).
  destruct (thread_writes_keeps s s1 W1)
    as (_ & Eu1 & _ & _ & _ & Em & _ & _ & _ & Ee & _).
  set (s0 := set_folderToLoad folder s) in *.
  set (u := set_thread AtEntry (set_folderToLoad folder (unloaded s1))) in *.
  set (names := folder_paths W folder s).
  set (u1 := set_thread AtPreloadFilenames
               (set_listening true (set_cancelLoading false (set_loading true u)))).
  destruct (numFiles_view s0 u1 Ee eq_refl Em) as [Hnum Hlist].
  assert (Hlen : List.length names = Z.to_nat (numFiles W s0))
    by apply folder_paths_length.
  assert (Hnames : firstn (Z.to_nat (numFiles W u1)) (listed_paths W u1) = names)
    by (unfold names, folder_paths; fold s0; now rewrite Hnum, Hlist).
  set (u2 := set_thread AtCancelCheck (with_paths names u1)).
  set (u3 := set_thread (AtLoopHead 0) u2).
  assert (E1 : thread_step W u = Done tt u1 []) by now rewrite thread_step_eq.
  assert (E2 : thread_step W u1 = Done tt u2 []).
  { rewrite thread_step_eq. cbn [thread u1 set_thread].
    rewrite preloadAllFilenames_eq.
    change (folderToLoad u1) with folder. rewrite Hthere, Hnum. cbn [negb].
    destruct (Z.eqb_spec (numFiles W s0) 0) as [|_]; [lia|].
    now rewrite <- Hnum, Hnames. }
  assert (E3 : thread_step W u2 = Done tt u3 []).
  { rewrite thread_step_eq. cbn [thread u2 set_thread].
    change (cancelLoading u2) with false. cbv iota.
    change (sequence u2) with ([] ++ repeat (@None Image) (List.length names)).
    rewrite app_nil_l, repeat_length.
    destruct (Z.eqb_spec (Z.of_nat (List.length names)) 0) as [|_]; [lia|].
    reflexivity. }
  set (budget := List.length (dir_listDir W (extension u) (folderToLoad u))).
  assert (Hfit : (List.length names <= budget)%nat).
  { unfold names, folder_paths. rewrite length_firstn. fold s0.
    pose proof (listed_paths_length W s0) as Hl. unfold listing in Hl.
    unfold budget. change (folderToLoad u) with folder.
    change (extension u) with (extension s1). rewrite Ee.
    change (folderToLoad s0) with folder in Hl.
    change (extension s0) with (extension s) in Hl. lia. }
  assert (Hflag : useThread u3 && cancelLoading u3 = false)
    by (change (cancelLoading u3) with false; apply andb_false_r).
  assert (Hrest : (List.length (repeat (@None Image) (List.length names))
                   < S budget)%nat) by (rewrite repeat_length; lia).
  pose proof (run_thread_decodes W names (repeat None (List.length names))
                [] [] u3 (S budget) eq_refl eq_refl eq_refl eq_refl
                (eq_sym (repeat_length _ _)) Hrest Hflag) as E4.
  rewrite app_nil_l, decode_slots_fresh in E4.
  set (u4 := set_thread NotRunning
               (set_loading false
                  (set_sequence (map (ofLoadImage W) names) u3))) in E4.
  assert (Ewait : waitForThread W u = Done tt u4 (decode_errors W names)).
  { unfold waitForThread. rewrite bind_gets.
    change (thread_budget W u) with (S (S (S (S budget)))).
    rewrite (run_thread_step W _ u u1 []) by (try discriminate; exact E1).
    rewrite (run_thread_step W _ u1 u2 []) by (try discriminate; exact E2).
    rewrite (run_thread_step W _ u2 u3 []) by (try discriminate; exact E3).
    now rewrite E4. }
  set (u5 := set_listening false u4).
  assert (Hsat : saturated_slots W u5) by (apply map_saturated; reflexivity).
  assert (Hne : sequence u5 <> []).
  { change (sequence u5) with (map (ofLoadImage W) names).
    destruct names; [simpl in Hlen; lia|discriminate]. }
  assert (Hn5 : List.length (filenames u5) = List.length (sequence u5)).
  { change (sequence u5) with (map (ofLoadImage W) names).
    change (filenames u5) with ([] ++ names). now rewrite length_map. }
  destruct (show_first_frame_total W u5 Hne Hn5) as (s' & out & Ef).
  destruct (show_first_frame_saturated _ _ _ Hsat Ef) as [Hseq Hup].
  destruct (show_first_frame_Done W _ _ _ Ef)
    as (px & rest & _ & Hl & _ & _ & _ & Hn & Hth & Hlo & Hli & _).
  assert (Eupd : notify_update W u4 = Done tt s' out).
  { unfold notify_update, updateThreadedLoad, size. run_head.
    change (listening u4) with true. cbv iota. run_head.
    change (loading u4) with false. cbv iota. run_head. fold u5.
    destruct (Z.ltb_spec 0 (Z.of_nat (List.length (sequence u5)))) as [_|Hz].
    - rewrite completeLoading_eq.
      destruct (Z.eqb_spec (Z.of_nat (List.length (sequence u5))) 0) as [E0|_];
        [|exact Ef].
      destruct (sequence u5); [congruence|discriminate].
    - destruct (sequence u5); [congruence|cbn in Hz; lia]. }
  exists s', (o1 ++ decode_errors W names ++ out).
  split.
  { rewrite (bind_Done _ _ _ _ _ _ Eload), (bind_Done _ _ _ _ _ _ Ewait).
    now rewrite Eupd. }
  split; [exact Hl|]. split; [exact Hlo|]. split; [exact Hth|].
  split; [exact Hli|]. split; [exact Hn|]. split.
  { rewrite Hseq, Hn. reflexivity. }
  split; [exact (show_first_frame_sized W _ _ _ Ef)|].
  rewrite !uploads_app, U1, decode_errors_no_upload. lia.
Qed.

(** X10: [setMaxFrames] before a folder load limits the number of frames taken;
    a limit that is zero or negative is no limit. *)
Theorem setMaxFrames_limits_folder s n folder :
  reachable W s -> is_int n -> useThread s = false ->
  file_exists W folder = true ->
  let listed := List.length (dir_listDir W (extension s) folder) in
  (0 < listed)%nat -> Z.of_nat listed <= INT_MAX ->
  exists s' out,
    (setMaxFrames n ;; loadSequence_folder W folder) s = Done true s' out /\
    loaded s' = true /\ maxFrames s' = Z.max n 0 /\
    List.length (sequence s')
    = (if 0 <? n then Nat.min listed (Z.to_nat n) else listed) /\
    filenames s' = firstn (List.length (sequence s'))
                     (if TARGET_LINUX W
                      then dir_sort W (dir_listDir W (extension s) folder)
                      else dir_listDir W (extension s) folder).
Proof.
  intros R Hn Eu Hthere listed Hpos Hfit.
  pose proof (reachable_Inv W s R) as I.
  set (m := set_maxFrames (Z.max n 0) s).
  assert (Em : exists o, setMaxFrames n s = Done tt m o).
  { unfold setMaxFrames. run_head. fold m.
    destruct (loaded m); eexists; reflexivity. }
  destruct Em as (o & Em).
  assert (Rm : reachable W m)
    by exact (reachable_call W s (SetMaxFrames n) m o R Hn Em).
  assert (Enum : numFiles W (set_folderToLoad folder m)
                 = if 0 <? n then Z.min (Z.of_nat listed) n
                   else Z.of_nat listed).
  { unfold numFiles, listing.
    cbn [maxFrames extension folderToLoad set_folderToLoad set_maxFrames m].
    fold listed. unfold INT_MAX in Hfit.
    rewrite wrap_int_id by (unfold is_int, INT_MIN, INT_MAX; lia).
    destruct (Z.ltb_spec 0 n), (Z.ltb_spec 0 (Z.max n 0)); lia. }
  assert (Hsome : 0 < numFiles W (set_folderToLoad folder m))
    by (rewrite Enum; destruct (0 <? n) eqn:E0;
        [apply Z.ltb_lt in E0|]; lia).
  destruct (loadSequence_folder_direct_full m folder Rm Eu)
    as (_ & _ & Taken).
  destruct (Taken Hthere Hsome)
    as (s' & out & name & names & El & Epaths & Hl & Hf & Hs & Hlen & _ & _
        & _ & Hmax).
  exists s', (o ++ out). split.
  { now rewrite (bind_Done _ _ _ _ _ _ Em), El. }
  split; [exact Hl|]. split; [exact Hmax|].
  assert (Hcount : List.length (sequence s')
                   = if 0 <? n then Nat.min listed (Z.to_nat n) else listed).
  { rewrite Enum in Hlen. destruct (Z.ltb_spec 0 n); lia. }
  split; [exact Hcount|].
  rewrite Hf, <- Epaths. unfold folder_paths.
  assert (Ez : Z.to_nat (numFiles W (set_folderToLoad folder m))
               = List.length (sequence s')) by lia.
  now rewrite Ez.
Qed.

End FolderLoad.

(** ** Showing frames *)

Section Showing.

Context {F : Type} `{FloatOps F}.
Variable W : World.

(** X11: What [loadSequence] with a pattern returns tells whether the object is
    loaded: [false] leaves it unloaded and empty, [true] leaves it loaded
    with at least one frame, none decoded but the first, and no thread. *)
Theorem loadSequence_result_is_loaded
    s prefix filetype startDigit endDigit numDigits r s' out :
  reachable W s -> is_int startDigit -> is_int endDigit ->
  loadSequence W prefix filetype startDigit endDigit numDigits s
  = Done r s' out ->
  loaded s' = r /\ thread s' = NotRunning /\
  currentFrame s' = currentFrame s /\
  (r = false -> sequence s' = [] /\ filenames s' = [] /\
                width s' = 0 /\ height s' = 0) /\
  (r = true ->
   startDigit <= endDigit /\
   exists name names,
     filenames s' = name :: names /\
     sequence s' = ofLoadImage W name :: repeat None (List.length names) /\
     (Z.of_nat (List.length names) <= endDigit - startDigit) /\
     width s' = getWidth_px (ofLoadImage W name) /\
     height s' = getHeight_px (ofLoadImage W name)).
Proof.
  intros R Ha Hb E.
  pose proof (reachable_Inv W s R) as I.
  pose proof (reachable_Coherent W s R) as C.
  destruct (unloadSequence_full W s I C)
    as (s1 & o1 & _ & E1 & W1 & N1 & _).
  destruct (thread_writes_keeps s s1 W1) as (_ & _ & _ & _ & Hcur & _).
  unfold loadSequence in E. rewrite (bind_Done _ _ _ _ _ _ E1) in E.
  destruct (wrap_int (wrap_int (endDigit - startDigit) + 1) <=? 0) eqn:Eg.
  - cbn in E. injection E as <- <- _.
    repeat split; try assumption; discriminate.
  - destruct (bind _ _ (unloaded s1)) as [r2 s2 o2|] eqn:E2; [|discriminate].
    injection E as <- <- _.
    apply bind_inv in E2 as ([] & s3 & o3 & o4 & Ep & E2 & _).
    apply bind_inv in E2 as ([] & s4 & o5 & o6 & Ef & E2 & _).
    injection E2 as <- <- _.
    apply pattern_loop_Done in Ep as (_ & names & -> & Hlen).
    destruct names as [|name names].
    { exfalso. rewrite with_paths_nil, show_first_frame_eq in Ef.
      destruct (loadFrame W 0 _) as [[] s5 o7|] eqn:E5; [|discriminate].
      apply loadFrame_shape in E5.
      assert (E0 : List.length (sequence s5) = 0%nat)
        by (unfold shape in E5; now injection E5).
      destruct (sequence s5); discriminate. }
    destruct (show_first_frame_listed W
                (with_paths (name :: names) (unloaded s1)) name names
                eq_refl eq_refl)
      as (s' & out' & Ef' & Hseq & _ & _ & _).
    rewrite Ef in Ef'. injection Ef' as -> _.
    destruct (show_first_frame_Done W _ _ _ Ef)
      as (px & rest & Hpx & Hl & Hw & Hh & _ & Hn & Hth & _ & _ & Hc).
    rewrite Hseq in Hpx. injection Hpx as <- <-.
    apply Z.leb_gt in Eg.
    assert (Hrange : Z.of_nat (List.length (name :: names))
                     <= endDigit - startDigit + 1)
      by (simpl in Hlen |- *; lia).
    simpl in Hrange.
    split; [exact Hl|]. split; [now rewrite Hth|].
    split; [now rewrite Hc|]. split; [discriminate|]. intros _.
    split; [lia|]. exists name, names.
    repeat (split; [first [assumption | lia]|]). assumption.
Qed.

(** X12: [loadFrame] never fails.  On a loaded object an index outside the
    sequence changes nothing and is reported, but for the index [-1] when no
    frame was presented yet: that one is taken for the frame last loaded and
    passes in silence. *)
Theorem loadFrame_out_of_bounds s i :
  reachable W s ->
  (exists s' out, loadFrame W i s = Done tt s' out) /\
  (loaded s = true ->
   i < 0 \/ Z.of_nat (List.length (sequence s)) <= i ->
   loadFrame W i s
   = Done tt s
       (if (i =? -1) && (lastFrameLoaded s =? -1) then []
        else [ofLogError "ofxImageSequence::loadFrame"
                ("Calling a frame out of bounds: " ++ string_of_Z i)])).
Proof.
  intros R. pose proof (reachable_Inv W s R) as I.
  split; [exact (loadFrame_total W i s (inv_names _ I))|].
  intros Hl Hout. rewrite loadFrame_eq.
  destruct (reachable_presented W s R Hl) as [Hlast|(img & Hslot & Hpos)].
  - rewrite Hlast. destruct (Z.eqb_spec (-1) i) as [<-|Hne]; [reflexivity|].
    destruct (Z.eqb_spec i (-1)) as [->|_]; [congruence|]. cbn [andb].
    replace ((i <? 0) || _) with true; [reflexivity|].
    symmetry. apply orb_true_iff. destruct Hout; [left|right]; lia.
  - assert (Hin : lastFrameLoaded s < Z.of_nat (List.length (sequence s))).
    { assert (Hsome : nth_error (sequence s) (Z.to_nat (lastFrameLoaded s))
                      <> None) by congruence.
      apply nth_error_Some in Hsome. lia. }
    destruct (Z.eqb_spec (lastFrameLoaded s) i) as [Eq|_]; [lia|].
    destruct (Z.eqb_spec (lastFrameLoaded s) (-1)) as [|_]; [lia|].
    rewrite andb_false_r.
    replace ((i <? 0) || _) with true; [reflexivity|].
    symmetry. apply orb_true_iff. destruct Hout; [left|right]; lia.
Qed.

(** X13: On every object that can be, a slot that holds pixels holds those its
    own file decodes to; and on a loaded object on which a frame was
    presented, the texture holds the pixels of slot [lastFrameLoaded], which
    is a slot of the sequence. *)
Theorem texture_holds_lastFrameLoaded s :
  reachable W s ->
  (forall k img,
     nth_error (sequence s) k = Some (Some img) ->
     exists name,
       nth_error (filenames s) k = Some name /\
       ofLoadImage W name = Some img) /\
  (loaded s = true -> lastFrameLoaded s <> -1 ->
   0 <= lastFrameLoaded s < Z.of_nat (List.length (sequence s)) /\
   exists name img,
     nth_error (filenames s) (Z.to_nat (lastFrameLoaded s)) = Some name /\
     ofLoadImage W name = Some img /\
     nth_error (sequence s) (Z.to_nat (lastFrameLoaded s)) = Some (Some img) /\
     tex_pixels (texture s) = Some img).
Proof.
  intros R. pose proof (reachable_Coherent W s R) as C.
  split; [exact (coh_slots W s C)|].
  intros Hl Hlast.
  destruct (reachable_presented W s R Hl) as [|(img0 & _ & Hpos)];
    [congruence|].
  destruct (coh_texture W s C Hl Hpos) as (img & Hslot & Htex).
  destruct (coh_slots W s C _ _ Hslot) as (name & Hname & Hdec).
  split.
  - assert (Hsome : nth_error (sequence s) (Z.to_nat (lastFrameLoaded s))
                    <> None) by congruence.
    apply nth_error_Some in Hsome. lia.
  - exists name, img. auto.
Qed.

(** X14: [getTextureForFrame(index)] on a loaded object returns the texture with
    the pixels of the file of frame [index % total], when that file decodes;
    when it does not, it reports it and returns the texture as it was.
    Either way [currentFrame] becomes [index % total]. *)
Theorem getTextureForFrame_shows_the_file s index name :
  reachable W s -> loaded s = true -> 0 <= index ->
  let target := Z.rem index (Z.of_nat (List.length (sequence s))) in
  nth_error (filenames s) (Z.to_nat target) = Some name ->
  exists s' out,
    getTextureForFrame W index s = Done (texture s') s' out /\
    currentFrame s' = target /\ filenames s' = filenames s /\
    (forall img, ofLoadImage W name = Some img ->
       tex_pixels (texture s') = Some img /\ lastFrameLoaded s' = target /\
       nth_error (sequence s') (Z.to_nat target) = Some (Some img) /\
       (out = [] \/ out = [texture_loadData img])) /\
    (ofLoadImage W name = None ->
       texture s' = texture s /\ lastFrameLoaded s' = lastFrameLoaded s /\
       sequence s' = sequence s /\
       out = [ofLogError "ofxImageSequence::loadFrame"
                ("Pixels not allocated: " ++ name)]).
Proof.
  intros R Hl Hi target Hname.
  pose proof (reachable_Inv W s R) as I.
  pose proof (reachable_Coherent W s R) as C.
  destruct (setFrame_loaded W index s I Hl Hi) as (Hpos & s1 & out & E1 & Eset).
  fold target in E1, Eset.
  assert (Hrange : 0 <= target < Z.of_nat (List.length (sequence s))).
  { unfold target. pose proof (Z.rem_bound_pos index _ Hi Hpos). lia. }
  exists (set_currentFrame target s1), (out ++ []).
  split.
  { unfold getTextureForFrame. rewrite (bind_Done _ _ _ _ _ _ Eset).
    reflexivity. }
  split; [reflexivity|].
  rewrite app_nil_r. cbn [texture lastFrameLoaded sequence filenames
                          set_currentFrame].
  rewrite loadFrame_eq in E1.
  destruct (Z.eqb_spec (lastFrameLoaded s) target) as [Elast|Hlast].
  - injection E1 as <- <-.
    destruct (coh_texture W s C Hl ltac:(lia)) as (img & Hslot & Htex).
    rewrite Elast in Hslot.
    destruct (coh_slots W s C _ _ Hslot) as (name' & Hname' & Hdec).
    rewrite Hname in Hname'. injection Hname' as <-.
    split; [reflexivity|]. split.
    + intros img' Hdec'. rewrite Hdec in Hdec'. injection Hdec' as <-. auto.
    + intros Hnone. congruence.
  - replace ((target <? 0) || _) with false in E1
      by (symmetry; apply orb_false_iff; split;
          [apply Z.ltb_ge|apply Z.leb_gt]; lia).
    destruct (nth_error (sequence s) (Z.to_nat target)) as [[img|]|] eqn:Eslot;
      [| |discriminate].
    + injection E1 as <- <-.
      destruct (coh_slots W s C _ _ Eslot) as (name' & Hname' & Hdec).
      rewrite Hname in Hname'. injection Hname' as <-.
      split; [reflexivity|]. split; [|congruence].
      intros img' Hdec'. rewrite Hdec in Hdec'. injection Hdec' as <-.
      cbn. rewrite Eslot. auto.
    + rewrite Hname in E1.
      destruct (ofLoadImage W name) as [img|] eqn:Hdec.
      * injection E1 as <- <-. split; [reflexivity|]. split; [|discriminate].
        intros img' [= <-]. cbn.
        rewrite (vector_set_same _ _ _ _ Eslot). auto.
      * injection E1 as <- <-. split; [reflexivity|]. split; [discriminate|].
        auto.
Qed.

End Showing.

(** ** Percent, time and index in exact arithmetic *)

Section ExactAddressing.

Import Exact Binary32.

Variable W : World.








End ExactAddressing.

(** ** What the calls keep *)

Section Keeping.

Context {F : Type} `{FloatOps F}.
Variable W : World.

Lemma keeps_slots_refl (s : ofxImageSequence (F := F)) : keeps_slots s s.
Proof. intros k img E. exact E. Qed.

Lemma keeps_slots_trans (s1 s2 s3 : ofxImageSequence (F := F)) :
  keeps_slots s1 s2 -> keeps_slots s2 s3 -> keeps_slots s1 s3.
Proof. intros H12 H23 k img E. apply H23, H12, E. Qed.

Lemma keeps_slots_view (s s' : ofxImageSequence (F := F)) :
  sequence s' = sequence s -> keeps_slots s s'.
Proof. intros Es k img E. now rewrite Es. Qed.

Lemma loadFrame_keeps i (s : ofxImageSequence (F := F)) s' out :
  loadFrame W i s = Done tt s' out -> keeps_slots s s'.
Proof.
  rewrite loadFrame_eq.
  destruct (lastFrameLoaded s =? i); [intros [= <- _]; apply keeps_slots_refl|].
  destruct (_ || _); [intros [= <- _]; apply keeps_slots_refl|].
  destruct (nth_error (sequence s) (Z.to_nat i)) as [[img|]|] eqn:Ei;
    [| |discriminate].
  - intros [= <- _]. now apply keeps_slots_view.
  - destruct (nth_error (filenames s) (Z.to_nat i)) as [name|];
      [|discriminate].
    destruct (ofLoadImage W name) as [img|];
      [|intros [= <- _]; apply keeps_slots_refl].
    intros [= <- _] k px Ek. cbn.
    rewrite vector_set_other; [exact Ek|]. intros <-. congruence.
Qed.

Lemma preloadAllFrames_turn_keeps i (s : ofxImageSequence (F := F))
    again s' out :
  Coherent W s -> preloadAllFrames_turn W i s = Done again s' out ->
  keeps_slots s s'.
Proof.
  intros C. rewrite preloadAllFrames_turn_eq.
  destruct (_ <? _); [|intros [= _ <- _]; apply keeps_slots_refl].
  destruct (_ && _); [intros [= _ <- _]; apply keeps_slots_refl|].
  destruct (nth_error (sequence s) i) as [px|] eqn:Ei; [|discriminate].
  destruct (nth_error (filenames s) i) as [name|] eqn:En; [|discriminate].
  destruct (ofLoadImage W name) as [img|] eqn:Ed; intros [= _ <- _];
    [|apply keeps_slots_refl].
  intros k px' Ek. exact (Coherent_redecode W s i name img C En Ed k px' Ek).
Qed.

Lemma preloadAllFrames_loop_keeps turns i (s : ofxImageSequence (F := F))
    s' out :
  Coherent W s -> preloadAllFrames_loop W turns i s = Done tt s' out ->
  keeps_slots s s'.
Proof.
  revert i s out. induction turns as [|n IH]; intros i s out C;
    cbn [preloadAllFrames_loop].
  - intros [= <- _]. apply keeps_slots_refl.
  - intros E. apply bind_inv in E as (again & s1 & o1 & o2 & E1 & E2 & _).
    pose proof (preloadAllFrames_turn_keeps _ _ _ _ _ C E1) as K1.
    pose proof (preloadAllFrames_turn_Coherent W _ _ _ _ _ C E1) as C1.
    destruct again.
    + exact (keeps_slots_trans _ _ _ K1 (IH _ _ _ C1 E2)).
    + now injection E2 as <- _.
Qed.

Lemma with_paths_keeps names (s : ofxImageSequence (F := F)) :
  keeps_slots s (with_paths names s).
Proof.
  intros k img Ek. cbn. rewrite nth_error_app1; [exact Ek|].
  apply nth_error_Some. congruence.
Qed.

Lemma thread_step_keeps (s : ofxImageSequence (F := F)) s' out :
  Coherent W s -> thread_step W s = Done tt s' out -> keeps_slots s s'.
Proof.
  intros C. rewrite thread_step_eq.
  destruct (thread s) as [| | | |i].
  - intros [= <- _]. apply keeps_slots_refl.
  - intros [= <- _]. now apply keeps_slots_view.
  - rewrite preloadAllFilenames_eq.
    destruct (negb _); [intros [= <- _]; now apply keeps_slots_view|].
    destruct (_ =? 0); intros [= <- _]; [now apply keeps_slots_view|].
    eapply keeps_slots_trans; [apply with_paths_keeps|].
    now apply keeps_slots_view.
  - destruct (cancelLoading s); [intros [= <- _]; now apply keeps_slots_view|].
    destruct (_ =? 0); intros [= <- _]; now apply keeps_slots_view.
  - destruct (preloadAllFrames_turn W i s) as [again s1 o1|] eqn:E1;
      [|discriminate].
    pose proof (preloadAllFrames_turn_keeps _ _ _ _ _ C E1) as K1.
    destruct again; intros [= <- _];
      apply (keeps_slots_trans _ _ _ K1); now apply keeps_slots_view.
Qed.

Lemma setFrame_keeps index (s : ofxImageSequence (F := F)) s' out :
  setFrame W index s = Done tt s' out -> keeps_slots s s'.
Proof.
  rewrite setFrame_eq.
  destruct (negb _); [intros [= <- _]; apply keeps_slots_refl|].
  destruct (index <? 0); [intros [= <- _]; apply keeps_slots_refl|]. cbv zeta.
  destruct (_ =? 0); [discriminate|].
  destruct (loadFrame W _ s) as [[] s1 o1|] eqn:E1; [|discriminate].
  intros [= <- _].
  apply (keeps_slots_trans _ _ _ (loadFrame_keeps _ _ _ _ E1)).
  now apply keeps_slots_view.
Qed.

Lemma show_first_frame_keeps (s : ofxImageSequence (F := F)) s' out :
  show_first_frame W s = Done tt s' out -> keeps_slots s s'.
Proof.
  rewrite show_first_frame_eq.
  destruct (loadFrame W 0 _) as [[] s1 o1|] eqn:E1; [|discriminate].
  destruct (nth_error (sequence s1) 0) as [px|]; [|discriminate].
  intros [= <- _]. intros k img Ek.
  exact (loadFrame_keeps _ _ _ _ E1 k img Ek).
Qed.

Lemma notify_update_keeps (s : ofxImageSequence (F := F)) s' out :
  notify_update W s = Done tt s' out -> keeps_slots s s'.
Proof.
  unfold notify_update, updateThreadedLoad, size. run_head.
  destruct (listening s); [|intros [= <- _]; apply keeps_slots_refl].
  run_head. destruct (loading s); [intros [= <- _]; apply keeps_slots_refl|].
  run_head. cbn [sequence set_listening].
  destruct (0 <? _); [|intros [= <- _]; now apply keeps_slots_view].
  rewrite completeLoading_eq.
  destruct (_ =? 0); [intros [= <- _]; now apply keeps_slots_view|].
  intros E k img Ek. exact (show_first_frame_keeps _ _ _ E k img Ek).
Qed.

(** X18: A frame that was decoded stays decoded, with the same pixels, whatever
    is called, until [unloadSequence] or a load gives the whole sequence
    up. *)
Theorem decoded_frames_are_kept c s s' out k img :
  reachable W s -> releases c = false ->
  run_call W c s = Done tt s' out ->
  nth_error (sequence s) k = Some (Some img) ->
  nth_error (sequence s') k = Some (Some img).
Proof.
  intros R Hc E. pose proof (reachable_Coherent W s R) as C.
  revert k img. change (keeps_slots s s').
  destruct c; try discriminate; cbn [run_call] in E.
  - revert E. unfold setMaxFrames. run_head.
    destruct (loaded _); intros [= <- _]; now apply keeps_slots_view.
  - revert E. unfold setExtension, modify. intros [= <- _].
    now apply keeps_slots_view.
  - revert E. unfold enableThreadedLoad. rewrite bind_gets.
    destruct (loaded s); intros [= <- _]; now apply keeps_slots_view.
  - revert E. unfold cancelLoad. run_head.
    destruct (_ && _); intros [= <- _]; now apply keeps_slots_view.
  - revert E. unfold setMinMagFilter. run_head. intros [= <- _].
    now apply keeps_slots_view.
  - revert E. unfold setFrameRate, modify. intros [= <- _].
    now apply keeps_slots_view.
  - revert E. unfold preloadAllFrames, size. run_head.
    destruct (_ =? 0); [intros [= <- _]; apply keeps_slots_refl|].
    run_head. now apply preloadAllFrames_loop_keeps.
  - exact (loadFrame_keeps _ _ _ _ E).
  - exact (setFrame_keeps _ _ _ _ E).
  - revert E. unfold setFrameForTime, setFrameAtPercent, size. run_head.
    intros E. apply bind_inv in E as (x & s1 & o1 & o2 & Ex & E & _).
    apply getFrameIndexAtPercent_pure in Ex as [-> _].
    exact (setFrame_keeps _ _ _ _ E).
  - unfold setFrameAtPercent in E.
    apply bind_inv in E as (x & s1 & o1 & o2 & Ex & E & _).
    apply getFrameIndexAtPercent_pure in Ex as [-> _].
    exact (setFrame_keeps _ _ _ _ E).
  - exact (notify_update_keeps _ _ _ E).
  - exact (thread_step_keeps _ _ _ C E).
Qed.

(** *** The calls return *)

Lemma preloadAllFrames_turn_total i (s : ofxImageSequence (F := F)) :
  List.length (filenames s) = List.length (sequence s) ->
  exists again s' out,
    preloadAllFrames_turn W i s = Done again s' out /\
    List.length (filenames s') = List.length (sequence s').
Proof.
  intros Hn. rewrite preloadAllFrames_turn_eq.
  destruct (Z.ltb_spec (Z.of_nat i) (Z.of_nat (List.length (sequence s))))
    as [Hi|_]; [|eauto].
  destruct (_ && _); [eauto|].
  destruct (nth_error_in_range (sequence s) i ltac:(lia)) as (px & ->).
  destruct (nth_error_in_range (filenames s) i ltac:(lia)) as (name & ->).
  destruct (ofLoadImage W name); [|eauto].
  eexists. eexists. eexists. split; [reflexivity|].
  cbn. now rewrite vector_set_length.
Qed.

Lemma preloadAllFrames_loop_total turns i (s : ofxImageSequence (F := F)) :
  List.length (filenames s) = List.length (sequence s) ->
  exists s' out, preloadAllFrames_loop W turns i s = Done tt s' out.
Proof.
  revert i s. induction turns as [|n IH]; intros i s Hn;
    cbn [preloadAllFrames_loop]; [unfold ret; eauto|].
  destruct (preloadAllFrames_turn_total i s Hn) as (again & s1 & o1 & E1 & Hn1).
  rewrite (bind_Done _ _ _ _ _ _ E1).
  destruct again; [|unfold ret; eauto].
  destruct (IH (S i) s1 Hn1) as (s2 & o2 & ->). eauto.
Qed.

Lemma completeLoading_total (s : ofxImageSequence (F := F)) :
  List.length (filenames s) = List.length (sequence s) ->
  exists s' out, completeLoading W s = Done tt s' out.
Proof.
  intros Hn. rewrite completeLoading_eq.
  destruct (Z.eqb_spec (Z.of_nat (List.length (sequence s))) 0) as [|Hne];
    [eauto|].
  apply show_first_frame_total; [|exact Hn].
  intros E0. now rewrite E0 in Hne.
Qed.

Lemma notify_update_total (s : ofxImageSequence (F := F)) :
  List.length (filenames s) = List.length (sequence s) ->
  exists s' out, notify_update W s = Done tt s' out.
Proof.
  intros Hn. unfold notify_update, updateThreadedLoad, size. run_head.
  destruct (listening s); [|unfold ret; eauto].
  run_head. destruct (loading s); [unfold ret; eauto|].
  run_head. cbn [sequence set_listening].
  destruct (0 <? _); [|unfold ret; eauto].
  now apply completeLoading_total.
Qed.

Lemma loadSequence_folder_total (s : ofxImageSequence (F := F)) folder :
  Inv s -> Coherent W s ->
  exists r s' out, loadSequence_folder W folder s = Done r s' out.
Proof.
  intros I C.
  destruct (unloadSequence_full W s I C)
    as (s1 & o1 & _ & E1 & _ & N1 & _ & _ & I1 & _).
  unfold loadSequence_folder. rewrite (bind_Done _ _ _ _ _ _ E1).
  run_head. set (u := set_folderToLoad folder (unloaded s1)).
  destruct (useThread u).
  - unfold startThread. run_head.
    replace (thread u) with (@NotRunning) by (symmetry; exact N1).
    run_head. unfold ret. eauto.
  - pose proof (preloadAllFilenames_eq W u) as Ep.
    destruct (negb _).
    { rewrite (bind_Done _ _ _ _ _ _ Ep). unfold ret. eauto. }
    destruct (_ =? 0).
    { rewrite (bind_Done _ _ _ _ _ _ Ep). unfold ret. eauto. }
    rewrite (bind_Done _ _ _ _ _ _ Ep).
    destruct (completeLoading_total
                (with_paths (firstn (Z.to_nat (numFiles W u))
                               (listed_paths W u)) u))
      as (s2 & o2 & E2).
    { cbn. rewrite ?length_app, repeat_length. reflexivity. }
    rewrite (bind_Done _ _ _ _ _ _ E2). unfold ret. eauto.
Qed.

(** X19: Every call that goes neither through [sprintf] nor through the
    conversion of a [float] to an [int] returns, from every state an object
    can be in: no vector is read out of its range, nothing is divided by
    zero, and the wait for the thread ends. *)
Theorem calls_return c s :
  reachable W s -> well_typed c -> formats_or_converts c = false ->
  exists s' out, run_call W c s = Done tt s' out /\ reachable W s'.
Proof.
  intros R Hc Hsafe.
  pose proof (reachable_Inv W s R) as I.
  pose proof (reachable_Coherent W s R) as C.
  assert (Hret : exists s' out, run_call W c s = Done tt s' out).
  { destruct c; try discriminate; cbn [run_call].
    - destruct (loadSequence_folder_total s folder I C) as (r & s' & out & E).
      unfold discard. rewrite (bind_Done _ _ _ _ _ _ E). cbn. repeat eexists.
    - destruct (unloadSequence_full W s I C) as (s1 & o1 & _ & E1 & _).
      exists (unloaded s1), o1. exact E1.
    - unfold setMaxFrames. run_head. destruct (loaded _); unfold ret; repeat eexists.
    - unfold setExtension, modify. repeat eexists.
    - unfold enableThreadedLoad. rewrite bind_gets.
      destruct (loaded s); run_head; unfold modify; repeat eexists.
    - unfold cancelLoad. run_head.
      destruct (_ && _); unfold modify, ret; repeat eexists.
    - unfold setMinMagFilter. run_head. unfold modify. repeat eexists.
    - unfold setFrameRate, modify. repeat eexists.
    - unfold preloadAllFrames, size. run_head.
      destruct (_ =? 0); [unfold emit; repeat eexists|]. run_head.
      apply preloadAllFrames_loop_total. exact (inv_names _ I).
    - exact (loadFrame_total W imageIndex s (inv_names _ I)).
    - rewrite setFrame_eq.
      destruct (loaded s) eqn:El; cbn [negb]; [|repeat eexists].
      destruct (Z.ltb_spec index 0) as [|Hi]; [repeat eexists|].
      destruct (setFrame_loaded W index s I El Hi) as (_ & s1 & o1 & _ & E1).
      rewrite setFrame_eq, El in E1. cbn [negb] in E1.
      destruct (Z.ltb_spec index 0); [lia|]. rewrite E1. repeat eexists.
    - exact (notify_update_total s (inv_names _ I)).
    - destruct (thread s) eqn:Epc.
      + rewrite thread_step_eq, Epc. repeat eexists.
      + destruct (thread_step_progress W s I) as (s1 & o1 & E1 & _);
          [congruence|exists s1, o1; exact E1].
      + destruct (thread_step_progress W s I) as (s1 & o1 & E1 & _);
          [congruence|exists s1, o1; exact E1].
      + destruct (thread_step_progress W s I) as (s1 & o1 & E1 & _);
          [congruence|exists s1, o1; exact E1].
      + destruct (thread_step_progress W s I) as (s1 & o1 & E1 & _);
          [congruence|exists s1, o1; exact E1]. }
  destruct Hret as (s' & out & E). exists s', out. split; [exact E|].
  exact (reachable_call W s c s' out R Hc E).
Qed.

(** X20: [setFrame] writes [currentFrame], [lastFrameLoaded], the pixels of the
    texture and at most the slot of the frame it shows: every other member,
    every other slot and the filters of the texture are as before. *)
Theorem setFrame_touches_one_slot index s s' out :
  reachable W s -> setFrame W index s = Done tt s' out ->
  s' = set_currentFrame (currentFrame s')
         (set_lastFrameLoaded (lastFrameLoaded s')
            (set_texture (texture s') (set_sequence (sequence s') s))) /\
  List.length (sequence s') = List.length (sequence s) /\
  tex_minFilter (texture s') = tex_minFilter (texture s) /\
  tex_magFilter (texture s') = tex_magFilter (texture s) /\
  (forall k,
     k <> Z.to_nat (Z.rem index (Z.of_nat (List.length (sequence s)))) ->
     nth_error (sequence s') k = nth_error (sequence s) k).
Proof.
  intros R. pose proof (reachable_Inv W s R) as I.
  rewrite setFrame_eq.
  assert (Same : s = set_currentFrame (currentFrame s)
                       (set_lastFrameLoaded (lastFrameLoaded s)
                          (set_texture (texture s)
                             (set_sequence (sequence s) s))))
    by now destruct s.
  destruct (negb _); [intros [= <- _]; repeat split; exact Same|].
  destruct (index <? 0); [intros [= <- _]; repeat split; exact Same|].
  cbv zeta.
  rewrite wrap_int_id
    by (pose proof (inv_size _ I); unfold is_int, INT_MIN, INT_MAX in *; lia).
  destruct (_ =? 0); [discriminate|].
  set (target := Z.rem index (Z.of_nat (List.length (sequence s)))).
  destruct (loadFrame W target s) as [[] s1 o1|] eqn:E1; [|discriminate].
  intros [= <- _]. clear Same.
  rewrite loadFrame_eq in E1.
  destruct (lastFrameLoaded s =? target);
    [injection E1 as <- _; repeat split; now destruct s|].
  destruct (_ || _); [injection E1 as <- _; repeat split; now destruct s|].
  destruct (nth_error (sequence s) (Z.to_nat target)) as [[img|]|] eqn:Ei;
    [| |discriminate].
  - injection E1 as <- _. repeat split; now destruct s.
  - destruct (nth_error (filenames s) (Z.to_nat target)) as [name|];
      [|discriminate].
    destruct (ofLoadImage W name) as [img|];
      [|injection E1 as <- _; repeat split; now destruct s].
    injection E1 as <- _. cbn.
    split; [now destruct s|]. split; [apply vector_set_length|].
    split; [reflexivity|]. split; [reflexivity|].
    intros k Hk. now apply vector_set_other.
Qed.

(** X21: A load cancelled in the decoding loop leaves [cancelLoading] set: once
    the thread has left and the update has completed the load, the object is
    loaded, and [preloadAllFrames] decodes nothing on it. *)
Theorem preloadAllFrames_after_cancel s i :
  reachable W s -> useThread s = true -> cancelLoading s = true ->
  thread s = AtLoopHead i ->
  exists s2 out,
    (thread_step W ;; notify_update W) s = Done tt s2 out /\
    loaded s2 = true /\ cancelLoading s2 = true /\
    preloadAllFrames W s2 = Done tt s2 [].
Proof.
  intros R Eu Ec Epc. pose proof (reachable_Inv W s R) as I.
  destruct (inv_in_flight _ I) as [_ Hlisten]; [now rewrite Epc|].
  pose proof (inv_loop _ I i Epc) as Hne.
  set (s1 := set_thread NotRunning (set_loading false s)).
  assert (E1 : thread_step W s = Done tt s1 []).
  { rewrite thread_step_eq, Epc, preloadAllFrames_turn_eq, Eu, Ec.
    now destruct (_ <? _). }
  set (s1' := set_lastFrameLoaded (-1) (set_loaded true (set_listening false s1))).
  destruct (show_first_frame_total W (set_listening false s1) Hne
              (inv_names _ I)) as (s2 & out & E2).
  assert (Eupd : notify_update W s1 = Done tt s2 out).
  { unfold notify_update, updateThreadedLoad, size. run_head.
    change (listening s1) with (listening s). rewrite Hlisten. run_head.
    change (loading s1) with false. cbv iota. run_head.
    cbn [sequence set_listening].
    destruct (Z.ltb_spec 0 (Z.of_nat (List.length (sequence s1)))) as [_|Hz].
    - rewrite completeLoading_eq.
      destruct (Z.eqb_spec (Z.of_nat (List.length (sequence (set_listening false s1)))) 0)
        as [E0|_]; [|exact E2].
      cbn in E0. destruct (sequence s); [congruence|discriminate].
    - cbn in Hz. destruct (sequence s); [congruence|cbn in Hz; lia]. }
  destruct (show_first_frame_Done W _ _ _ E2)
    as (px & rest & Hpx & Hl & _).
  assert (Hflags : useThread s2 = true /\ cancelLoading s2 = true).
  { rewrite show_first_frame_eq in E2.
    destruct (loadFrame W 0 _) as [[] s3 o3|] eqn:E3; [|discriminate].
    destruct (nth_error (sequence s3) 0); [|discriminate].
    injection E2 as <- _. apply loadFrame_writes in E3.
    rewrite E3. cbn. auto. }
  destruct Hflags as [Eu2 Ec2].
  exists s2, ([] ++ out). split.
  { now rewrite (bind_Done _ _ _ _ _ _ E1), Eupd. }
  split; [exact Hl|]. split; [exact Ec2|].
  apply preloadAllFrames_flagged; [|exact Eu2|exact Ec2].
  rewrite Hpx. discriminate.
Qed.

End Keeping.

(** * The further properties on the scene *)

Section FurtherOnScene.

Import Binary32 Exact Scene.

Ltac ints := repeat constructor; unfold is_int, INT_MIN, INT_MAX; lia.

Ltac conjs :=
  repeat (split; [first [assumption | reflexivity]|]);
  first [assumption | reflexivity].

Lemma mid_load_reachable : reachable world (after cancelled_mid_load).
Proof. apply after_reachable. ints. Qed.

Lemma threaded_reachable : reachable world (after [EnableThreadedLoad true]).
Proof. apply after_reachable. ints. Qed.

Lemma started_reachable :
  reachable world (after [EnableThreadedLoad true; LoadSequenceFolder "seq"]).
Proof. apply after_reachable. ints. Qed.

Lemma fresh_reachable : reachable world fresh.
Proof. apply reachable_construct. Qed.

(** The thread of the cancelled load comes to its end. *)
Lemma waitForThread_returns_witness :
  reachable world (after cancelled_mid_load) /\
  exists s' out,
    waitForThread world (after cancelled_mid_load) = Done tt s' out /\
    thread s' = NotRunning /\ loading s' = false /\ uploads out = 0%nat.
Proof.
  split; [exact mid_load_reachable|].
  destruct (waitForThread_returns world _ mid_load_reachable)
    as (s' & out & E & N & L & _ & U & _).
  exists s', out. conjs.
Defined.

(** Unloading the three frames. *)
Lemma unloadSequence_clears_witness :
  reachable world three_frames /\
  exists s' out,
    unloadSequence world three_frames = Done tt s' out /\
    sequence s' = [] /\ filenames s' = [] /\ loaded s' = false /\
    texture s' = texture three_frames /\
    unloadSequence world s' = Done tt s' [].
Proof.
  split; [exact three_frames_reachable|].
  destruct (unloadSequence_clears world _ three_frames_reachable)
    as (s' & out & E & Hs & Hn & Hl & _ & _ & _ & _ & _ & _ & Ht & _ & E2).
  exists s', out. conjs.
Defined.

(** Destroying the object in the middle of the threaded load. *)
Lemma destructor_returns_witness :
  reachable world (after cancelled_mid_load) /\
  useThread (after cancelled_mid_load) = true /\
  thread (after cancelled_mid_load) = AtLoopHead 1 /\
  exists s1,
    (cancelLoad ;; waitForThread world) (after cancelled_mid_load)
    = Done tt s1 [] /\
    sequence s1 = sequence (after cancelled_mid_load) /\
    destructor world (after cancelled_mid_load) = Done tt (unloaded s1) [].
Proof.
  split; [exact mid_load_reachable|]. split; [reflexivity|].
  split; [reflexivity|].
  destruct (proj2 (destructor_returns world _ mid_load_reachable) eq_refl
              (or_intror (ex_intro _ 1%nat eq_refl)))
    as (s1 & E & Hs & _ & Ed).
  exists s1. conjs.
Defined.

(** A cancel between [loadSequence] and the first step of the thread. *)
Lemma cancelLoad_only_in_flight_witness :
  reachable world (after [EnableThreadedLoad true; LoadSequenceFolder "seq"]) /\
  thread (after [EnableThreadedLoad true; LoadSequenceFolder "seq"]) = AtEntry /\
  exists s1,
    (cancelLoad ;; thread_step world)
      (after [EnableThreadedLoad true; LoadSequenceFolder "seq"])
    = Done tt s1 [] /\
    cancelLoading s1 = false /\ loading s1 = true.
Proof.
  split; [exact started_reachable|]. split; [reflexivity|].
  destruct (proj2 (proj2 (cancelLoad_only_in_flight world _ started_reachable))
              eq_refl) as (s1 & E & Hc & Hl & _).
  exists s1. conjs.
Defined.

(** A threaded load of a folder that does not exist returns [true]. *)
Lemma loadSequence_folder_threaded_witness :
  reachable world (after [EnableThreadedLoad true]) /\
  file_exists world "nowhere" = false /\
  exists s' out,
    loadSequence_folder world "nowhere" (after [EnableThreadedLoad true])
    = Done true s' out /\
    loaded s' = false /\ thread s' = AtEntry.
Proof.
  split; [exact threaded_reachable|]. split; [reflexivity|].
  destruct (loadSequence_folder_threaded world _ "nowhere" threaded_reachable
              eq_refl)
    as (s' & out & E & Hl & _ & _ & _ & _ & Hpc & _).
  exists s', out. conjs.
Defined.

(** The update after the thread of the cancelled load has left. *)
Lemma notify_update_settles_witness :
  reachable world (after (cancelled_mid_load ++ [ThreadStep])) /\
  exists s1 out,
    notify_update world (after (cancelled_mid_load ++ [ThreadStep]))
    = Done tt s1 out /\
    notify_update world s1 = Done tt s1 [] /\
    loaded s1 = true /\ listening s1 = false.
Proof.
  assert (R : reachable world (after (cancelled_mid_load ++ [ThreadStep])))
    by (apply after_reachable; ints).
  split; [exact R|].
  destruct (notify_update_settles world _ R) as (s1 & out & E & E2 & _ & Hdone).
  exists s1, out. split; [exact E|]. split; [exact E2|].
  exact (Hdone eq_refl eq_refl ltac:(discriminate)).
Defined.

(** Decoding every frame of the three: [f002.png] does not decode. *)
Lemma preloadAllFrames_decodes_all_witness :
  reachable world three_frames /\
  preloadAllFrames world three_frames
  = Done tt
      (set_sequence
         [Some (picture "f001.png"); None; Some (picture "f003.png")]
         three_frames)
      [ofLogError "ofxImageSequence::loadFrame"
         "Image failed to load: f002.png"].
Proof.
  split; [exact three_frames_reachable|].
  exact (proj1 (preloadAllFrames_decodes_all world three_frames
                  three_frames_reachable eq_refl) ltac:(discriminate)).
Defined.

(** The load cancelled when one of the two pictures was decoded. *)
Lemma preloadAllFrames_after_cancel_witness :
  reachable world (after cancelled_mid_load) /\
  exists s2 out,
    (thread_step world ;; notify_update world) (after cancelled_mid_load)
    = Done tt s2 out /\
    loaded s2 = true /\ cancelLoading s2 = true /\
    preloadAllFrames world s2 = Done tt s2 [].
Proof.
  split; [exact mid_load_reachable|].
  exact (preloadAllFrames_after_cancel world _ 1%nat mid_load_reachable
           eq_refl eq_refl eq_refl).
Defined.

(** The folder of the scene, and a folder that does not exist. *)
Lemma loadSequence_folder_direct_witness :
  reachable world fresh /\
  (exists s' out,
     loadSequence_folder world "nowhere" fresh
     = Done false s'
         (out ++ [ofLogError "ofxImageSequence::loadSequence"
                    "Could not find folder nowhere"]) /\
     loaded s' = false /\ sequence s' = []) /\
  (exists s' out,
     loadSequence_folder world "seq" fresh = Done true s' out /\
     loaded s' = true /\ filenames s' = ["seq/a.png"; "seq/b.png"] /\
     sequence s' = [Some (picture "seq/a.png"); None]).
Proof.
  split; [exact fresh_reachable|]. split.
  - destruct (proj1 (loadSequence_folder_direct world fresh "nowhere"
                       fresh_reachable eq_refl) eq_refl)
      as (s' & out & E & Hl & Hs & _).
    exists s', out. conjs.
  - destruct (proj2 (proj2 (loadSequence_folder_direct world fresh "seq"
                              fresh_reachable eq_refl)) eq_refl eq_refl)
      as (s' & out & name & names & E & Ep & Hl & Hf & Hs & _).
    injection Ep as <- <-. exists s', out. conjs.
Defined.

(** The threaded load of the folder of the scene, left alone. *)
Lemma threaded_load_completes_witness :
  reachable world (after [EnableThreadedLoad true]) /\
  exists s' out,
    (loadSequence_folder world "seq" ;; waitForThread world ;;
     notify_update world) (after [EnableThreadedLoad true])
    = Done tt s' out /\
    loaded s' = true /\ filenames s' = ["seq/a.png"; "seq/b.png"] /\
    sequence s' = map (ofLoadImage world) (filenames s').
Proof.
  split; [exact threaded_reachable|].
  destruct (threaded_load_completes world _ "seq" threaded_reachable
              eq_refl eq_refl eq_refl)
    as (s' & out & E & Hl & _ & _ & _ & Hf & Hs & _).
  exists s', out. conjs.
Defined.

(** One frame of the two of the folder. *)
Lemma setMaxFrames_limits_folder_witness :
  reachable world fresh /\
  exists s' out,
    (setMaxFrames 1 ;; loadSequence_folder world "seq") fresh
    = Done true s' out /\
    loaded s' = true /\ List.length (sequence s') = 1%nat.
Proof.
  split; [exact fresh_reachable|].
  destruct (setMaxFrames_limits_folder world fresh 1 "seq" fresh_reachable
              ltac:(ints) eq_refl eq_refl
              ltac:(vm_compute; repeat constructor)
              ltac:(vm_compute; intro; discriminate))
    as (s' & out & E & Hl & _ & Hn & _).
  exists s', out. conjs.
Defined.

(** The pattern load that gives the three frames. *)
Lemma loadSequence_result_is_loaded_witness :
  reachable world fresh /\
  loadSequence world "f" "png" 1 3 3 fresh
  = Done true three_frames [texture_loadData (picture "f001.png")] /\
  loaded three_frames = true /\
  exists name names,
    filenames three_frames = name :: names /\
    sequence three_frames
    = ofLoadImage world name :: repeat None (List.length names).
Proof.
  assert (E : loadSequence world "f" "png" 1 3 3 fresh
              = Done true three_frames [texture_loadData (picture "f001.png")])
    by (vm_compute; reflexivity).
  split; [exact fresh_reachable|]. split; [exact E|].
  destruct (loadSequence_result_is_loaded world fresh "f" "png" 1 3 3 _ _ _
              fresh_reachable ltac:(ints) ltac:(ints) E)
    as (Hl & _ & _ & _ & Htrue).
  split; [exact Hl|].
  destruct (Htrue eq_refl) as (_ & name & names & Hf & Hs & _).
  exists name, names. conjs.
Defined.

(** Frame 7 of the three. *)
Lemma loadFrame_out_of_bounds_witness :
  reachable world three_frames /\
  loadFrame world 7 three_frames
  = Done tt three_frames
      [ofLogError "ofxImageSequence::loadFrame"
         ("Calling a frame out of bounds: " ++ string_of_Z 7)].
Proof.
  split; [exact three_frames_reachable|].
  pose proof (proj2 (loadFrame_out_of_bounds world three_frames 7
                       three_frames_reachable) eq_refl) as Out.
  assert (High : 7 < 0
                 \/ Z.of_nat (List.length (sequence three_frames)) <= 7)
    by (right; vm_compute; intro; discriminate).
  specialize (Out High). cbn [Z.eqb andb] in Out. exact Out.
Defined.

(** The three frames show frame 0. *)
Lemma texture_holds_lastFrameLoaded_witness :
  reachable world three_frames /\
  exists name img,
    nth_error (filenames three_frames) 0 = Some name /\
    ofLoadImage world name = Some img /\
    tex_pixels (texture three_frames) = Some img.
Proof.
  split; [exact three_frames_reachable|].
  destruct (proj2 (texture_holds_lastFrameLoaded world three_frames
                     three_frames_reachable) eq_refl ltac:(discriminate))
    as (_ & name & img & Hn & Hd & _ & Ht).
  exists name, img. conjs.
Defined.

(** Index 5 of the three frames is frame 2, [f003.png]. *)
Lemma getTextureForFrame_shows_the_file_witness :
  reachable world three_frames /\
  exists s' out,
    getTextureForFrame world 5 three_frames = Done (texture s') s' out /\
    currentFrame s' = 2 /\
    tex_pixels (texture s') = Some (picture "f003.png").
Proof.
  split; [exact three_frames_reachable|].
  destruct (getTextureForFrame_shows_the_file world three_frames 5 "f003.png"
              three_frames_reachable eq_refl ltac:(lia) eq_refl)
    as (s' & out & E & Hc & _ & Hshown & _).
  exists s', out. split; [exact E|]. split; [exact Hc|].
  exact (proj1 (Hshown (picture "f003.png") eq_refl)).
Defined.




(** Showing frame 2 keeps frame 0 decoded. *)
Lemma decoded_frames_are_kept_witness :
  reachable world three_frames /\
  run_call world (SetFrame 2) three_frames
  = Done tt (after [LoadSequence "f" "png" 1 3 3; SetFrame 2])
      [texture_loadData (picture "f003.png")] /\
  nth_error (sequence (after [LoadSequence "f" "png" 1 3 3; SetFrame 2])) 0
  = Some (Some (picture "f001.png")).
Proof.
  assert (E : run_call world (SetFrame 2) three_frames
              = Done tt (after [LoadSequence "f" "png" 1 3 3; SetFrame 2])
                  [texture_loadData (picture "f003.png")])
    by (vm_compute; reflexivity).
  split; [exact three_frames_reachable|]. split; [exact E|].
  exact (decoded_frames_are_kept world (SetFrame 2) three_frames _ _ 0%nat
           (picture "f001.png") three_frames_reachable eq_refl E eq_refl).
Defined.

(** [preloadAllFrames] on the three frames returns. *)
Lemma calls_return_witness :
  reachable world three_frames /\
  exists s' out,
    run_call world PreloadAllFrames three_frames = Done tt s' out /\
    reachable world s'.
Proof.
  split; [exact three_frames_reachable|].
  exact (calls_return world PreloadAllFrames three_frames
           three_frames_reachable I eq_refl).
Defined.

(** Showing frame 2 of the three leaves slots 0 and 1 as they were. *)
Lemma setFrame_touches_one_slot_witness :
  reachable world three_frames /\
  setFrame world 2 three_frames
  = Done tt (after [LoadSequence "f" "png" 1 3 3; SetFrame 2])
      [texture_loadData (picture "f003.png")] /\
  forall k,
    k <> 2%nat ->
    nth_error (sequence (after [LoadSequence "f" "png" 1 3 3; SetFrame 2])) k
    = nth_error (sequence three_frames) k.
Proof.
  assert (E : setFrame world 2 three_frames
              = Done tt (after [LoadSequence "f" "png" 1 3 3; SetFrame 2])
                  [texture_loadData (picture "f003.png")])
    by (vm_compute; reflexivity).
  split; [exact three_frames_reachable|]. split; [exact E|].
  destruct (setFrame_touches_one_slot world 2 three_frames _ _
              three_frames_reachable E) as (_ & _ & _ & _ & Hk).
  exact Hk.
Defined.

End FurtherOnScene.
